(** * Fund-Info-Fetcher: a shallow embedding of [main.py]

    The development follows the source file top to bottom:
    - [Py]: the Python values the program handles (text, bytes,
      exceptions) and the command monad over the outside world;
    - [Unicode], [Re], [Builtins]: the parts of the Python runtime the
      program calls ([re], [int], [float], [datetime.strptime],
      [os.path.splitext], the [gbk] and [cp437] codecs);
    - [Main]: the functions of [main.py], in source order;
    - the properties of the program. *)

From Stdlib Require Import ZArith NArith List String Ascii Bool Lia.
From stdpp Require Import base option list gmap strings fin_maps.

Open Scope N_scope.

(* ===================================================================== *)
(** * Python values *)
(* ===================================================================== *)

Module Py.

(** A Python [str] is a sequence of Unicode code points. *)
Definition str := list N.

(** A Python [bytes] object. *)
Definition bytes := list Byte.byte.

(** Text literals are written as in the source file; the literal is the
    UTF-8 encoding of the text and [utf8] reads the code points back. *)
Definition cont (a : ascii) : N := N.land (N_of_ascii a) 63.

Fixpoint utf8 (s : string) : str :=
  match s with
  | EmptyString => []
  | String a s1 =>
      let b := N_of_ascii a in
      if b <? 128 then b :: utf8 s1
      else match s1 with
      | EmptyString => [b]
      | String a1 s2 =>
          if b <? 224 then (N.shiftl (N.land b 31) 6 + cont a1) :: utf8 s2
          else match s2 with
          | EmptyString => [b]
          | String a2 s3 =>
              if b <? 240
              then (N.shiftl (N.land b 15) 12 + N.shiftl (cont a1) 6 + cont a2)
                     :: utf8 s3
              else match s3 with
              | EmptyString => [b]
              | String a3 s4 =>
                  (N.shiftl (N.land b 7) 18 + N.shiftl (cont a1) 12
                   + N.shiftl (cont a2) 6 + cont a3) :: utf8 s4
              end
          end
      end
  end.

(** One character, as a code point. *)
Definition chr (s : string) : N := hd 0 (utf8 s).

Definition str_eqb (a b : str) : bool := bool_decide (a = b).

Lemma str_eqb_eq a b : str_eqb a b = true <-> a = b.
Proof. unfold str_eqb. apply bool_decide_eq_true. Qed.

Lemma str_eqb_refl a : str_eqb a a = true.
Proof. now apply str_eqb_eq. Qed.

Lemma str_eqb_neq a b : str_eqb a b = false <-> a <> b.
Proof. unfold str_eqb. apply bool_decide_eq_false. Qed.

(** Exceptions.  [RuntimeError_from msg exc] is [RuntimeError(msg)] raised
    with [from exc]: it carries [exc] as its [__cause__]. *)
Inductive exn : Type :=
| AttributeError
| KeyError (key : str)
| IndexError
| ValueError (msg : string)
| TypeError (msg : string)
| EOFError
| UnicodeEncodeError
| OSError (msg : string)
| BadZipFile
| ConnectionError
| SystemExit
| FileCreateError (cause : exn)
| RuntimeError (msg : str)
| RuntimeError_from (msg : str) (cause : exn).

(** [except Exception] does not catch [SystemExit]. *)
Definition is_Exception (e : exn) : bool :=
  match e with SystemExit => false | _ => true end.

Inductive result (A : Type) : Type :=
| Ok (a : A)
| Raise (e : exn).
Arguments Ok {A} a.
Arguments Raise {A} e.

Definition rbind {A B} (r : result A) (k : A -> result B) : result B :=
  match r with Ok a => k a | Raise e => Raise e end.

End Py.
Export Py.

Declare Scope py_scope.
Delimit Scope py_scope with py.
Notation "'let!' x ':=' c1 'in' c2" := (rbind c1 (fun x => c2))
  (at level 10, x pattern, c1 at level 100, c2 at level 200) : py_scope.
Open Scope py_scope.

(** The constants of the source are pinned to their code points. *)
Example utf8_ascii : utf8 "v0.2" = [118; 48; 46; 50].
Proof. reflexivity. Qed.

Example utf8_cjk : utf8 "基金" = [0x57fa; 0x91d1].
Proof. reflexivity. Qed.

Example utf8_box : utf8 "╗∙ó" = [0x2557; 0x2219; 0xf3].
Proof. reflexivity. Qed.

(* ===================================================================== *)
(** * The Unicode character database, as far as the program consults it *)
(* ===================================================================== *)

Module Unicode.

(** General category Nd (decimal digit).  The category consists of runs of
    ten consecutive code points with the digit values 0 to 9; the table
    lists the code point of the zero of every run (Unicode 14). *)
Definition Nd_zeros : list N :=
  [ 0x30; 0x660; 0x6f0; 0x7c0; 0x966; 0x9e6; 0xa66; 0xae6; 0xb66; 0xbe6;
    0xc66; 0xce6; 0xd66; 0xde6; 0xe50; 0xed0; 0xf20; 0x1040; 0x1090;
    0x17e0; 0x1810; 0x1946; 0x19d0; 0x1a80; 0x1a90; 0x1b50; 0x1bb0;
    0x1c40; 0x1c50; 0xa620; 0xa8d0; 0xa900; 0xa9d0; 0xa9f0; 0xaa50;
    0xabf0; 0xff10; 0x104a0; 0x10d30; 0x11066; 0x110f0; 0x11136; 0x111d0;
    0x112f0; 0x11450; 0x114d0; 0x11650; 0x116c0; 0x11730; 0x118e0;
    0x11950; 0x11c50; 0x11d50; 0x11da0; 0x16a60; 0x16ac0; 0x16b50;
    0x1d7ce; 0x1d7d8; 0x1d7e2; 0x1d7ec; 0x1d7f6; 0x1e140; 0x1e2f0;
    0x1e950; 0x1fbf0 ].

Fixpoint digit_in (zeros : list N) (c : N) : option N :=
  match zeros with
  | [] => None
  | z :: rest =>
      if (z <=? c) && (c <? z + 10) then Some (c - z) else digit_in rest c
  end.

(** [unicodedata.decimal]: the digit value of a decimal digit. *)
Definition decimal (c : N) : option N := digit_in Nd_zeros c.

(** The class [\d] of [re] on text patterns: category Nd. *)
Definition is_decimal (c : N) : bool :=
  match decimal c with Some _ => true | None => false end.

(** The ten ASCII digits. *)
Definition is_ascii_digit (c : N) : bool := (48 <=? c) && (c <=? 57).

(** White space in the sense of [str.isspace] and [str.strip]. *)
Definition is_space (c : N) : bool :=
  ((9 <=? c) && (c <=? 13)) || ((28 <=? c) && (c <=? 32))
  || (c =? 0x85) || (c =? 0xa0) || (c =? 0x1680)
  || ((0x2000 <=? c) && (c <=? 0x200a))
  || (c =? 0x2028) || (c =? 0x2029) || (c =? 0x202f) || (c =? 0x205f)
  || (c =? 0x3000).

(** White space skipped by [float] around its argument: the ASCII blanks
    and the white space outside ASCII. *)
Definition is_float_space (c : N) : bool :=
  is_space c && negb ((28 <=? c) && (c <=? 31)).

Lemma digit_in_lt zeros c d : digit_in zeros c = Some d -> d < 10.
Proof.
  induction zeros as [|z rest IH]; simpl; [discriminate|].
  destruct ((z <=? c) && (c <? z + 10)) eqn:E; [|exact IH].
  intros [= <-]. apply andb_true_iff in E as [E1 E2].
  apply N.leb_le in E1. apply N.ltb_lt in E2. lia.
Qed.

Lemma decimal_lt c d : decimal c = Some d -> d < 10.
Proof. apply digit_in_lt. Qed.

Lemma ascii_digit_decimal c :
  is_ascii_digit c = true -> decimal c = Some (c - 48).
Proof.
  unfold is_ascii_digit, decimal. intros H.
  apply andb_true_iff in H as [H1 H2].
  apply N.leb_le in H1. apply N.leb_le in H2.
  unfold Nd_zeros. cbn [digit_in].
  rewrite (proj2 (N.leb_le 48 c) H1).
  assert (E : (c <? 48 + 10) = true) by (apply N.ltb_lt; lia).
  now rewrite E.
Qed.

Lemma ascii_digit_is_decimal c : is_ascii_digit c = true -> is_decimal c = true.
Proof. intros H. unfold is_decimal. now rewrite (ascii_digit_decimal c H). Qed.

End Unicode.
Export Unicode.

(* ===================================================================== *)
(** * Regular expressions: the [re] module *)
(* ===================================================================== *)

Module Re.

(** The pattern constructs used by the program and by the library
    patterns it calls ([datetime.strptime]). *)
Inductive regex : Type :=
| Eps
| Chr (c : N)                      (* a literal character; also [\.] *)
| Range (lo hi : N)                (* [[lo-hi]] *)
| Digit                            (* [\d] *)
| Cat (r1 r2 : regex)
| Alt (r1 r2 : regex)              (* [r1|r2]: [r1] is tried first *)
| Star (r : regex)                 (* [r*], greedy *)
| Group (name : string) (r : regex).  (* [(?P<name>r)] *)

Definition Opt (r : regex) : regex := Alt r Eps.        (* [r?], greedy *)
Definition Plus (r : regex) : regex := Cat r (Star r).  (* [r+], greedy *)
Fixpoint Repeat (n : nat) (r : regex) : regex :=        (* [r{n}] *)
  match n with O => Eps | S n' => Cat r (Repeat n' r) end.
Fixpoint Lit (s : str) : regex :=
  match s with [] => Eps | c :: s' => Cat (Chr c) (Lit s') end.

(** The groups of a match: name and matched text, last binding first. *)
Definition groups := list (string * str).

(** The text consumed between [s] and its suffix [s']. *)
Definition consumed (s s' : str) : str := take (length s - length s') s.

Definition orelse {R} (a b : option R) : option R :=
  match a with Some x => Some x | None => b end.

(** The iterations of a greedy star: one more iteration of [step] is
    tried before the star is left; an iteration that consumes nothing is
    not repeated.  [fuel] bounds the number of iterations and is the
    length of the text, which is enough as every iteration consumes. *)
Fixpoint iterate {R} (step : str -> groups -> (str -> groups -> option R) -> option R)
    (k : str -> groups -> option R) (fuel : nat) (s : str) (g : groups)
  : option R :=
  match fuel with
  | O => k s g
  | S fuel' =>
      orelse
        (step s g (fun s' g' =>
           if (length s' <? length s)%nat
           then iterate step k fuel' s' g' else None))
        (k s g)
  end.

(** The backtracking matcher.  [run r s g k] matches [r] at the start of
    [s] and hands the rest of the text to the continuation [k]; when [k]
    fails, the next way of matching [r] is tried, in the priority order of
    [re]: the left alternative before the right one, the longer repetition
    before the shorter. *)
Fixpoint run {R} (r : regex) (s : str) (g : groups)
    (k : str -> groups -> option R) {struct r} : option R :=
  match r with
  | Eps => k s g
  | Chr c =>
      match s with
      | x :: s' => if x =? c then k s' g else None
      | [] => None
      end
  | Range lo hi =>
      match s with
      | x :: s' => if (lo <=? x) && (x <=? hi) then k s' g else None
      | [] => None
      end
  | Digit =>
      match s with
      | x :: s' => if is_decimal x then k s' g else None
      | [] => None
      end
  | Cat r1 r2 => run r1 s g (fun s' g' => run r2 s' g' k)
  | Alt r1 r2 => orelse (run r1 s g k) (run r2 s g k)
  | Star r1 => iterate (run r1) k (length s) s g
  | Group name r1 =>
      run r1 s g (fun s' g' => k s' ((name, consumed s s') :: g'))
  end.

(** A match object: the groups and the text left after the match. *)
Record Match := { m_groups : groups; m_rest : str }.

(** [re.match(r, s)]: a match at the start of [s]. *)
Definition re_match (r : regex) (s : str) : option Match :=
  run r s [] (fun rest g => Some {| m_groups := g; m_rest := rest |}).

(** [re.fullmatch(r, s)]: a match of the whole of [s]. *)
Definition re_fullmatch (r : regex) (s : str) : option Match :=
  run r s [] (fun rest g =>
    match rest with
    | [] => Some {| m_groups := g; m_rest := rest |}
    | _ :: _ => None
    end).

(** [m.group(name)]. *)
Fixpoint lookup_group (name : string) (g : groups) : option str :=
  match g with
  | [] => None
  | (n, v) :: g' => if String.eqb n name then Some v else lookup_group name g'
  end.

Definition group (m : Match) (name : string) : option str :=
  lookup_group name (m_groups m).

End Re.
Export Re.

(* ===================================================================== *)
(** * Built-in functions and standard modules called by the program *)
(* ===================================================================== *)

Module Builtins.

(** ** [str.strip] *)

Fixpoint lstrip (space : N -> bool) (s : str) : str :=
  match s with
  | c :: s' => if space c then lstrip space s' else s
  | [] => []
  end.

Definition strip_with (space : N -> bool) (s : str) : str :=
  rev (lstrip space (rev (lstrip space s))).

Definition strip (s : str) : str := strip_with is_space s.

(** ** [int] *)

Definition sign_char : regex := Alt (Chr (chr "+")) (Chr (chr "-")).

(** A run of digits, single underscores allowed between two digits. *)
Definition digitpart : regex :=
  Cat Digit (Star (Cat (Opt (Chr (chr "_"))) Digit)).

Definition int_pattern : regex :=
  Cat (Group "sign" (Opt sign_char)) (Group "digits" digitpart).

(** The value of a run of digits (underscores skipped), most significant
    digit first. *)
Fixpoint digits_value (acc : Z) (s : str) : Z :=
  match s with
  | [] => acc
  | c :: s' =>
      match decimal c with
      | Some d => digits_value (10 * acc + Z.of_N d) s'
      | None => digits_value acc s'
      end
  end.

Definition is_minus (sign : option str) : bool :=
  match sign with Some [c] => c =? chr "-" | _ => false end.

(** [int(s)] on text, base ten.  The limit that recent interpreters put on
    the number of digits is not modelled. *)
Definition int (s : str) : result Z :=
  match re_fullmatch int_pattern (strip_with is_float_space s) with
  | None => Raise (ValueError "invalid literal for int() with base 10")
  | Some m =>
      match group m "digits" with
      | None => Raise (ValueError "invalid literal for int() with base 10")
      | Some ds =>
          let v := digits_value 0 ds in
          Ok (if is_minus (group m "sign") then - v else v)%Z
      end
  end.

(** ** [float] *)

(** A Python [float], by the decimal numeral it was read from:
    [Fdec neg m e] is the binary64 number nearest to [m * 10^e], negated
    when [neg]. *)
Inductive pyfloat : Type :=
| Fnan
| Finf (negative : bool)
| Fdec (negative : bool) (mantissa : Z) (exp10 : Z).

(** A letter in either case. *)
Definition ci (lower upper : string) : regex :=
  Alt (Chr (chr lower)) (Chr (chr upper)).

Definition number_pattern : regex :=
  Alt (Cat (Opt (Group "int" digitpart))
           (Cat (Chr (chr ".")) (Group "frac" digitpart)))
      (Cat (Group "int" digitpart) (Opt (Chr (chr ".")))).

Definition exponent_pattern : regex :=
  Cat (ci "e" "E") (Cat (Group "esign" (Opt sign_char)) (Group "exp" digitpart)).

Definition infinity_pattern : regex :=
  Cat (ci "i" "I") (Cat (ci "n" "N") (Cat (ci "f" "F")
    (Opt (Cat (ci "i" "I") (Cat (ci "n" "N") (Cat (ci "i" "I")
      (Cat (ci "t" "T") (ci "y" "Y")))))))).

Definition nan_pattern : regex :=
  Cat (ci "n" "N") (Cat (ci "a" "A") (ci "n" "N")).

(** The grammar of the argument of [float] (language reference):
    [[sign] (floatnumber | infinity | nan)]. *)
Definition float_pattern : regex :=
  Cat (Group "sign" (Opt sign_char))
      (Alt (Group "num" (Cat number_pattern (Opt exponent_pattern)))
           (Alt (Group "inf" infinity_pattern) (Group "nan" nan_pattern))).

Definition is_group (m : Match) (name : string) : bool :=
  match group m name with Some _ => true | None => false end.

Definition group_or_empty (m : Match) (name : string) : str :=
  match group m name with Some v => v | None => [] end.

(** Decimal numerals at or above [2^1024 - 2^970] round to infinity. *)
Definition binary64_limit : Z := (2 ^ 1024 - 2 ^ 970)%Z.

Definition rounds_to_inf (m e : Z) : bool :=
  if (m =? 0)%Z then false
  else if (0 <=? e)%Z then (binary64_limit <=? m * 10 ^ e)%Z
  else (binary64_limit * 10 ^ (- e) <=? m)%Z.

Definition float (s : str) : result pyfloat :=
  match re_fullmatch float_pattern (strip_with is_float_space s) with
  | None => Raise (ValueError "could not convert string to float")
  | Some m =>
      let neg := is_minus (group m "sign") in
      if is_group m "nan" then Ok Fnan
      else if is_group m "inf" then Ok (Finf neg)
      else
        let frac := List.filter is_decimal (group_or_empty m "frac") in
        let mant := digits_value 0 (group_or_empty m "int" ++ frac) in
        let ex := digits_value 0 (group_or_empty m "exp") in
        let ex := if is_minus (group m "esign") then (- ex)%Z else ex in
        let e := (ex - Z.of_nat (length frac))%Z in
        if rounds_to_inf mant e then Ok (Finf neg) else Ok (Fdec neg mant e)
  end.

Definition isnan (x : pyfloat) : bool :=
  match x with Fnan => true | _ => false end.
Definition isinf (x : pyfloat) : bool :=
  match x with Finf _ => true | _ => false end.

(** ** [datetime.strptime(s, "%Y-%m-%d")] *)

Record datetime := { year : Z; month : Z; day : Z }.

(** The patterns [_strptime] substitutes for the three directives. *)
Definition directive_Y : regex := Repeat 4 Digit.
Definition directive_m : regex :=
  Alt (Cat (Chr (chr "1")) (Range (chr "0") (chr "2")))
 (Alt (Cat (Chr (chr "0")) (Range (chr "1") (chr "9")))
      (Range (chr "1") (chr "9"))).
Definition directive_d : regex :=
  Alt (Cat (Chr (chr "3")) (Range (chr "0") (chr "1")))
 (Alt (Cat (Range (chr "1") (chr "2")) Digit)
 (Alt (Cat (Chr (chr "0")) (Range (chr "1") (chr "9")))
 (Alt (Range (chr "1") (chr "9"))
      (Cat (Chr (chr " ")) (Range (chr "1") (chr "9")))))).

Definition format_Ymd : regex :=
  Cat (Group "Y" directive_Y) (Cat (Chr (chr "-"))
 (Cat (Group "m" directive_m) (Cat (Chr (chr "-")) (Group "d" directive_d)))).

Definition is_leap (y : Z) : bool :=
  ((y mod 4 =? 0) && (negb (y mod 100 =? 0) || (y mod 400 =? 0)))%Z.

Definition days_in_month (y m : Z) : Z :=
  (if m =? 2 then (if is_leap y then 29 else 28)
   else if (m =? 4) || (m =? 6) || (m =? 9) || (m =? 11) then 30
   else 31)%Z.

(** The constructor of [datetime], with its range checks. *)
Definition make_datetime (y m d : Z) : result datetime :=
  if negb ((1 <=? y) && (y <=? 9999))%Z
  then Raise (ValueError "year is out of range")
  else if negb ((1 <=? m) && (m <=? 12))%Z
  then Raise (ValueError "month must be in 1..12")
  else if negb ((1 <=? d) && (d <=? days_in_month y m))%Z
  then Raise (ValueError "day is out of range for month")
  else Ok {| year := y; month := m; day := d |}.

Definition strptime_Ymd (s : str) : result datetime :=
  match re_match format_Ymd s with
  | None => Raise (ValueError "time data does not match format")
  | Some found =>
      match m_rest found with
      | _ :: _ => Raise (ValueError "unconverted data remains")
      | [] =>
          let! y := int (group_or_empty found "Y") in
          let! m := int (group_or_empty found "m") in
          let! d := int (group_or_empty found "d") in
          make_datetime y m d
      end
  end.

(** ** [os.path.splitext] *)

Inductive platform : Type := posix | nt.

Definition os_sep (os : platform) : N :=
  match os with posix => chr "/" | nt => chr "\" end.
Definition os_altsep (os : platform) : option N :=
  match os with posix => None | nt => Some (chr "/") end.
Definition is_sep (os : platform) (c : N) : bool :=
  (c =? os_sep os) || match os_altsep os with Some a => c =? a | None => false end.

(** [s.rfind(c)]: the last index of [c] in [s], or [-1]. *)
Fixpoint rfind_from (i : Z) (c : N) (s : str) : Z :=
  match s with
  | [] => (-1)%Z
  | x :: s' =>
      let r := rfind_from (i + 1) c s' in
      if (r =? -1)%Z then (if x =? c then i else (-1)%Z) else r
  end.
Definition rfind (c : N) (s : str) : Z := rfind_from 0 c s.

(** [genericpath._splitext]: split at the last dot of the last path
    component, unless that component has only leading dots before it. *)
Definition splitext (os : platform) (p : str) : str * str :=
  let sepIndex := rfind (os_sep os) p in
  let sepIndex :=
    match os_altsep os with
    | Some a => Z.max sepIndex (rfind a p)
    | None => sepIndex
    end in
  let dotIndex := rfind (chr ".") p in
  if (sepIndex <? dotIndex)%Z then
    let filename := drop (Z.to_nat (sepIndex + 1)) (take (Z.to_nat dotIndex) p) in
    if existsb (fun c => negb (c =? chr ".")) filename
    then (take (Z.to_nat dotIndex) p, drop (Z.to_nat dotIndex) p)
    else (p, [])
  else (p, []).

End Builtins.
Export Builtins.

(* ===================================================================== *)
(** * The spreadsheet library: [xlsxwriter] *)
(* ===================================================================== *)

Module Xlsxwriter.

(** A cell format, by the properties the program sets. *)
Record Format := {
  bold : bool;
  align : option string;
  valign : option string;
  border : option N;
  num_format : option string
}.

(** The calls a worksheet receives.  A worksheet is represented by the
    calls made on it so far, oldest first. *)
Inductive call : Type :=
| write (row col : N) (value : str) (fmt : Format)
| set_column (first_col last_col : N) (width : N)
| write_string (row col : N) (s : str)
| write_number (row col : N) (x : pyfloat)
| write_datetime (row col : N) (d : datetime) (fmt : Format).

Definition Worksheet := list call.

(** [worksheet.write_number] refuses NaN and the infinities. *)
Definition ws_write_number (row col : N) (x : pyfloat) (ws : Worksheet)
  : result Worksheet :=
  if isnan x || isinf x
  then Raise (TypeError "NAN/INF not supported in write_number()")
  else Ok (ws ++ [write_number row col x]).

(** What a call leaves in the cell at [(r, c)], if it writes there. *)
Definition cell_of (r c : N) (k : call) : option call :=
  match k with
  | write r' c' _ _ | write_string r' c' _ | write_number r' c' _
  | write_datetime r' c' _ _ =>
      if (r' =? r) && (c' =? c) then Some k else None
  | set_column _ _ _ => None
  end.

(** The width a call gives to column [c], if it sets one. *)
Definition width_of (c : N) (k : call) : option N :=
  match k with
  | set_column first last w =>
      if (first <=? c) && (c <=? last) then Some w else None
  | _ => None
  end.

(** The last call that answers [f]; a later call overrides an earlier one. *)
Fixpoint last_of {A} (f : call -> option A) (ws : Worksheet) : option A :=
  match ws with
  | [] => None
  | k :: ws' =>
      match last_of f ws' with
      | Some a => Some a
      | None => f k
      end
  end.

(** The content of a cell and the width of a column of the sheet;
    [None] is the empty cell and the default width. *)
Definition cell (ws : Worksheet) (r c : N) : option call := last_of (cell_of r c) ws.
Definition column_width (ws : Worksheet) (c : N) : option N := last_of (width_of c) ws.

End Xlsxwriter.
Export Xlsxwriter.

(* ===================================================================== *)
(** * The outside world: console, files, network *)
(* ===================================================================== *)

Module World.

(** Paths are lists of components below one of two roots: the file system
    proper and the directory made by [TemporaryDirectory], which is a
    fresh directory apart from every other path. *)
Inductive root : Type := Disk | Temp.

Global Instance root_eq_dec : EqDecision root.
Proof. solve_decision. Defined.

Global Instance root_countable : Countable root.
Proof.
  refine (inj_countable' (fun r => match r with Disk => false | Temp => true end)
                         (fun b => if b then Temp else Disk) _).
  now intros [].
Defined.

Abbreviation path := (root * list str)%type.

Inductive content : Type :=
| Raw (data : bytes)                (* any file, by its bytes *)
| Spreadsheet (sheet : Worksheet).  (* a workbook written by [xlsxwriter] *)

Inductive node : Type :=
| File (c : content)
| Dir.

(** The assets of a release, as the release API lists them. *)
Record asset := { asset_name : str; asset_url : str }.
Record release := { tag_name : str; assets : list asset }.

Record world := {
  stdout : list str;           (* texts printed so far, oldest first *)
  stdin : list str;            (* lines not yet read by [input] *)
  fs : gmap path node;         (* files and directories *)
  cwd : list str;              (* the working directory, on [Disk] *)
  os : platform;
  releases_latest : result release;     (* GET .../releases/latest *)
  download : str -> result bytes        (* GET url, octet-stream *)
}.

Definition set_stdout (out : list str) (w : world) : world :=
  {| stdout := out; stdin := stdin w; fs := fs w; cwd := cwd w; os := os w;
     releases_latest := releases_latest w; download := download w |}.
Definition set_stdin (inp : list str) (w : world) : world :=
  {| stdout := stdout w; stdin := inp; fs := fs w; cwd := cwd w; os := os w;
     releases_latest := releases_latest w; download := download w |}.
Definition set_fs (f : gmap path node) (w : world) : world :=
  {| stdout := stdout w; stdin := stdin w; fs := f; cwd := cwd w; os := os w;
     releases_latest := releases_latest w; download := download w |}.

(** Commands: they may change the world and may raise; the changes made
    before an exception stay. *)
Definition M (A : Type) : Type := world -> result A * world.

Definition ret {A} (a : A) : M A := fun w => (Ok a, w).
Definition raise {A} (e : exn) : M A := fun w => (Raise e, w).
Definition lift {A} (r : result A) : M A := fun w => (r, w).
Definition bind {A B} (c : M A) (k : A -> M B) : M B :=
  fun w => match c w with
           | (Ok a, w') => k a w'
           | (Raise e, w') => (Raise e, w')
           end.

(** [try: body except Exception as exc: handler exc]. *)
Definition try_except {A} (body : M A) (handler : exn -> M A) : M A :=
  fun w => match body w with
           | (Raise e, w') =>
               if is_Exception e then handler e w' else (Raise e, w')
           | r => r
           end.

(** [print(text)]. *)
Definition print (text : str) : M unit :=
  fun w => (Ok tt, set_stdout (stdout w ++ [text]) w).

(** [input(prompt)]: shows the prompt and reads one line; at the end of
    the input it raises [EOFError]. *)
Definition input (prompt : str) : M str :=
  fun w =>
    let w1 := set_stdout (stdout w ++ [prompt]) w in
    match stdin w with
    | [] => (Raise EOFError, w1)
    | line :: rest => (Ok line, set_stdin rest w1)
    end.

(** [exit()]. *)
Definition exit {A} : M A := raise SystemExit.

End World.
Export World.

Notation "'let*' x ':=' c1 'in' c2" := (bind c1 (fun x => c2))
  (at level 10, x pattern, c1 at level 100, c2 at level 200) : py_scope.
Notation "c1 ;; c2" := (bind c1 (fun _ => c2))
  (at level 100, c2 at level 200, right associativity) : py_scope.

(* ===================================================================== *)
(** * Paths, files and archives: [pathlib], [shutil], [tempfile], [zipfile] *)
(* ===================================================================== *)

Module Files.

(** [s.split(sep)] with a set of separators. *)
Fixpoint split_on (sep : N -> bool) (s : str) : list str :=
  match s with
  | [] => [[]]
  | c :: s' =>
      match split_on sep s' with
      | part :: parts => if sep c then [] :: part :: parts else (c :: part) :: parts
      | [] => [[c]]
      end
  end.

(** The components of a path given as text: empty components and [.] are
    dropped, as [pathlib] does. *)
Definition path_parts (o : platform) (name : str) : list str :=
  List.filter
    (fun part => negb (str_eqb part []) && negb (str_eqb part (utf8 ".")))
    (split_on (is_sep o) name).

Definition is_absolute (o : platform) (name : str) : bool :=
  match name with c :: _ => is_sep o c | [] => false end.

(** [p / name]. *)
Definition joinpath (o : platform) (p : path) (name : str) : path :=
  if is_absolute o name then (Disk, path_parts o name)
  else (fst p, snd p ++ path_parts o name).

Definition parent (p : path) : path := (fst p, removelast (snd p)).
Definition basename (p : path) : str := List.last (snd p) [].

(** [Path.cwd()]. *)
Definition Path_cwd : M path := fun w => (Ok (Disk, cwd w), w).

(** Creating or replacing the file at [p]: the directory of [p] must
    exist and [p] must not be a directory. *)
Definition create_file (p : path) (c : content) : M unit :=
  fun w =>
    match fs w !! parent p, fs w !! p with
    | Some Dir, Some Dir => (Raise (OSError "Is a directory"), w)
    | Some Dir, _ => (Ok tt, set_fs (<[p := File c]> (fs w)) w)
    | _, _ => (Raise (OSError "No such file or directory"), w)
    end.

(** [p.write_bytes(data)]. *)
Definition write_bytes (p : path) (data : bytes) : M unit :=
  create_file p (Raw data).

(** Reading the file at [p]. *)
Definition read_file (p : path) : M content :=
  fun w =>
    match fs w !! p with
    | Some (File c) => (Ok c, w)
    | Some Dir => (Raise (OSError "Is a directory"), w)
    | None => (Raise (OSError "No such file or directory"), w)
    end.

(** [shutil.move(src, dst)] for a file [src]: into [dst] when [dst] is a
    directory (refusing to replace an entry there), else onto [dst],
    replacing a file of that name. *)
Definition shutil_move (o : platform) (src dst : path) : M unit :=
  fun w =>
    match fs w !! src with
    | None => (Raise (OSError "No such file or directory"), w)
    | Some n =>
        match fs w !! dst with
        | Some Dir =>
            let real_dst := (fst dst, snd dst ++ [basename src]) in
            match fs w !! real_dst with
            | Some _ => (Raise (OSError "Destination path already exists"), w)
            | None => (Ok tt, set_fs (<[real_dst := n]> (delete src (fs w))) w)
            end
        | _ =>
            match fs w !! parent dst with
            | Some Dir => (Ok tt, set_fs (<[dst := n]> (delete src (fs w))) w)
            | _ => (Raise (OSError "No such file or directory"), w)
            end
        end
    end.

(** [with TemporaryDirectory() as d: body d]: the directory is new and
    empty, and is removed with all it holds when the block is left,
    whichever way. *)
Definition outside_temp (f : gmap path node) : gmap path node :=
  filter (fun kv => fst (fst kv) = Disk) f.

Definition with_TemporaryDirectory {A} (body : path -> M A) : M A :=
  fun w =>
    let d := (Temp, []) in
    let w1 := set_fs (<[d := Dir]> (outside_temp (fs w))) w in
    let '(r, w2) := body d w1 in
    (r, set_fs (outside_temp (fs w2)) w2).

(** ** [zipfile] *)

(** An open archive: the members by the names of the archive directory,
    as [zipfile] decodes them. *)
Abbreviation archive := (gmap str bytes).

(** The characters [zipfile] replaces in member names on Windows. *)
Definition windows_illegal (c : N) : bool :=
  existsb (N.eqb c) (utf8 ":<>|?*") || (c =? 34).

Definition rstrip_dots (part : str) : str :=
  rev (lstrip (fun c => c =? chr ".") (rev part)).

(** [os.path.splitdrive], for a drive letter (the network prefix of
    Windows is not modelled). *)
Definition strip_drive (o : platform) (name : str) : str :=
  match o, name with
  | nt, _ :: c :: rest => if c =? chr ":" then rest else name
  | _, _ => name
  end.

(** The path below the target directory where [ZipFile.extract] puts a
    member: the components of the name without the empty ones, [.] and
    [..]; on Windows also without the characters a file name cannot hold
    and without trailing dots. *)
Definition zip_target_parts (o : platform) (member : str) : list str :=
  let parts :=
    List.filter
      (fun part => negb (str_eqb part []) && negb (str_eqb part (utf8 "."))
                   && negb (str_eqb part (utf8 "..")))
      (split_on (is_sep o) (strip_drive o member)) in
  match o with
  | posix => parts
  | nt =>
      List.filter (fun part => negb (str_eqb part []))
             (map (fun part =>
                     rstrip_dots (map (fun c => if windows_illegal c then chr "_" else c) part))
                  parts)
  end.

(** [os.makedirs] for the directories above an extracted member: the
    missing ones among [base/p1], [base/p1/p2], ... are created. *)
Fixpoint makedirs (base : path) (parts : list str) (f : gmap path node)
  : result (gmap path node) :=
  match parts with
  | [] => Ok f
  | part :: parts' =>
      let d := (fst base, snd base ++ [part]) in
      match f !! d with
      | Some (File _) => Raise (OSError "File exists")
      | Some Dir => makedirs d parts' f
      | None => makedirs d parts' (<[d := Dir]> f)
      end
  end.

(** [f.extract(member, path=target)]: [KeyError] when the archive has no
    member of that name. *)
Definition ZipFile_extract (f : archive) (member : str) (target : path) : M unit :=
  match f !! member with
  | None => raise (KeyError member)
  | Some data =>
      fun w =>
        let parts := zip_target_parts (os w) member in
        match makedirs target (removelast parts) (fs w) with
        | Raise e => (Raise e, w)
        | Ok f' =>
            create_file (fst target, snd target ++ parts) (Raw data) (set_fs f' w)
        end
  end.

End Files.
Export Files.

(* ===================================================================== *)
(** * Codecs: [str.encode("gbk")] and [bytes.decode("cp437")] *)
(* ===================================================================== *)

Module Codecs.

Definition byte_of (n : N) : Byte.byte :=
  match Byte.of_N n with Some b => b | None => Byte.x00 end.

(** [s.encode("gbk")]: ASCII is kept, every other character takes the two
    bytes of its row in the GBK table and is an error when it has none.
    The table is a parameter: [gbk_row c] is the row of code point [c]. *)
Fixpoint encode_gbk (gbk_row : N -> option (Byte.byte * Byte.byte)) (s : str)
  : result bytes :=
  match s with
  | [] => Ok []
  | c :: s' =>
      if c <? 128 then
        let! rest := encode_gbk gbk_row s' in Ok (byte_of c :: rest)
      else
        match gbk_row c with
        | Some (lead, trail) =>
            let! rest := encode_gbk gbk_row s' in Ok (lead :: trail :: rest)
        | None => Raise UnicodeEncodeError
        end
  end.

(** Code page 437, upper half: the characters of the bytes 128 to 255. *)
Definition cp437_high : list N :=
  [ 0xc7; 0xfc; 0xe9; 0xe2; 0xe4; 0xe0; 0xe5; 0xe7;
    0xea; 0xeb; 0xe8; 0xef; 0xee; 0xec; 0xc4; 0xc5;
    0xc9; 0xe6; 0xc6; 0xf4; 0xf6; 0xf2; 0xfb; 0xf9;
    0xff; 0xd6; 0xdc; 0xa2; 0xa3; 0xa5; 0x20a7; 0x192;
    0xe1; 0xed; 0xf3; 0xfa; 0xf1; 0xd1; 0xaa; 0xba;
    0xbf; 0x2310; 0xac; 0xbd; 0xbc; 0xa1; 0xab; 0xbb;
    0x2591; 0x2592; 0x2593; 0x2502; 0x2524; 0x2561; 0x2562; 0x2556;
    0x2555; 0x2563; 0x2551; 0x2557; 0x255d; 0x255c; 0x255b; 0x2510;
    0x2514; 0x2534; 0x252c; 0x251c; 0x2500; 0x253c; 0x255e; 0x255f;
    0x255a; 0x2554; 0x2569; 0x2566; 0x2560; 0x2550; 0x256c; 0x2567;
    0x2568; 0x2564; 0x2565; 0x2559; 0x2558; 0x2552; 0x2553; 0x256b;
    0x256a; 0x2518; 0x250c; 0x2588; 0x2584; 0x258c; 0x2590; 0x2580;
    0x3b1; 0xdf; 0x393; 0x3c0; 0x3a3; 0x3c3; 0xb5; 0x3c4;
    0x3a6; 0x398; 0x3a9; 0x3b4; 0x221e; 0x3c6; 0x3b5; 0x2229;
    0x2261; 0xb1; 0x2265; 0x2264; 0x2320; 0x2321; 0xf7; 0x2248;
    0xb0; 0x2219; 0xb7; 0x221a; 0x207f; 0xb2; 0x25a0; 0xa0 ].

(** [b.decode("cp437")]: every byte is a character, so decoding never
    fails. *)
Definition cp437_char (b : Byte.byte) : N :=
  let n := Byte.to_N b in
  if n <? 128 then n else nth (N.to_nat (n - 128)) cp437_high 0.

Definition decode_cp437 (b : bytes) : str := map cp437_char b.

(** The rows of the GBK table for the ideographs of the executable's name. *)
Definition gbk_rows_of_name : list (N * (Byte.byte * Byte.byte)) :=
  [ (chr "基", (Byte.xbb, Byte.xf9)); (chr "金", (Byte.xbd, Byte.xf0));
    (chr "信", (Byte.xd0, Byte.xc5)); (chr "息", (Byte.xcf, Byte.xa2));
    (chr "生", (Byte.xc9, Byte.xfa)); (chr "成", (Byte.xb3, Byte.xc9));
    (chr "器", (Byte.xc6, Byte.xf7)) ].

(** A table that has these rows. *)
Definition has_rows (gbk_row : N -> option (Byte.byte * Byte.byte))
    (rows : list (N * (Byte.byte * Byte.byte))) : Prop :=
  Forall (fun row => gbk_row (fst row) = Some (snd row)) rows.

(** The table made of the listed rows alone. *)
Fixpoint rows_only (rows : list (N * (Byte.byte * Byte.byte))) (c : N)
  : option (Byte.byte * Byte.byte) :=
  match rows with
  | [] => None
  | (c', bs) :: rest => if c =? c' then Some bs else rows_only rest c
  end.

End Codecs.
Export Codecs.

(* ===================================================================== *)
(** * The program: [main.py] *)
(* ===================================================================== *)

Module Main.

Definition __version__ : str := utf8 "0.2.0".

Definition RELEASE_ASSET_NAME : str := utf8 "fund-info-fetcher-win64.zip".
Definition RELEASE_EXECUTABLE_NAME : str := utf8 "基金信息生成器.exe".

Module ExcelCellDataType.

Inductive t : Type := string | date | number.

(** [==] on the members of the enumeration. *)
Definition eqb (a b : t) : bool :=
  match a, b with
  | string, string | date, date | number, number => true
  | _, _ => false
  end.

End ExcelCellDataType.

Definition fieldnames : list str :=
  [ utf8 "基金名称"; utf8 "基金代码"; utf8 "净值日期"; utf8 "单位净值";
    utf8 "日增长率"; utf8 "估算日期"; utf8 "实时估值"; utf8 "估算增长率";
    utf8 "分红送配" ].

Definition fieldtypes : list ExcelCellDataType.t :=
  [ ExcelCellDataType.string; ExcelCellDataType.string; ExcelCellDataType.date;
    ExcelCellDataType.number; ExcelCellDataType.string; ExcelCellDataType.string;
    ExcelCellDataType.number; ExcelCellDataType.string; ExcelCellDataType.string ].

(** ** [parse_version_number] *)

(** [v?(?P<major>\d+)\.(?P<minor>\d+)\.(?P<patch>\d+)] *)
Definition version_pattern : regex :=
  Cat (Opt (Chr (chr "v")))
 (Cat (Group "major" (Plus Digit)) (Cat (Chr (chr "."))
 (Cat (Group "minor" (Plus Digit)) (Cat (Chr (chr "."))
      (Group "patch" (Plus Digit)))))).

(** [m.group(name)] on the result of [re.match]: on [None] the attribute
    access fails. *)
Definition group_of (m : option Match) (name : string) : result str :=
  match m with
  | None => Raise AttributeError
  | Some m' =>
      match group m' name with
      | Some v => Ok v
      | None => Raise IndexError
      end
  end.

Definition parse_version_number (s : str) : result (Z * Z * Z) :=
  let m := re_match version_pattern s in
  let! major := group_of m "major" in
  let! minor := group_of m "minor" in
  let! patch := group_of m "patch" in
  let! major' := int major in
  let! minor' := int minor in
  let! patch' := int patch in
  Ok (major', minor', patch').

(** ** [get_latest_released_version] *)

Definition get_latest_released_version : M str :=
  fun w => (let! json_data := releases_latest w in Ok (tag_name json_data), w).

(** ** [get_latest_released_asset] *)

Definition no_asset_message (name : str) : str :=
  utf8 "No asset with name " ++ name
  ++ utf8 " can be found in the latest release".

Definition many_assets_message (name : str) : str :=
  utf8 "More than one assets with name " ++ name
  ++ utf8 " are found in the latest release".

Definition get_latest_released_asset (name : str) : M bytes :=
  fun w =>
    (let! json_data := releases_latest w in
     let assets := assets json_data in
     let candidates :=
       List.filter (fun asset => str_eqb (asset_name asset) name) assets in
     if (length candidates =? 0)%nat then
       Raise (RuntimeError (no_asset_message name))
     else if (1 <? length candidates)%nat then
       Raise (RuntimeError (many_assets_message name))
     else
       match candidates with
       | asset :: _ => download w (asset_url asset)
       | [] => Raise IndexError
       end, w).

(** ** [write_to_xlsx] *)

(** [enumerate(l)]. *)
Fixpoint enumerate_from {A} (i : N) (l : list A) : list (N * A) :=
  match l with
  | [] => []
  | x :: l' => (i, x) :: enumerate_from (i + 1) l'
  end.
Definition enumerate {A} (l : list A) : list (N * A) := enumerate_from 0 l.

(** [for x in items: body], on a state [s]; the loop stops at the first
    exception. *)
Fixpoint for_each {A S} (items : list A) (body : A -> S -> result S) (s : S)
  : result S :=
  match items with
  | [] => Ok s
  | x :: items' => let! s' := body x s in for_each items' body s'
  end.

(** [d[key]] on a dictionary and [l[i]] on a list. *)
Definition getitem (d : gmap str str) (key : str) : result str :=
  match d !! key with
  | Some v => Ok v
  | None => Raise (KeyError key)
  end.

Definition list_getitem {A} (l : list A) (i : N) : result A :=
  match l !! N.to_nat i with
  | Some x => Ok x
  | None => Raise IndexError
  end.

Definition no_format : Format :=
  {| bold := false; align := None; valign := None; border := None;
     num_format := None |}.

Definition header_format : Format :=
  {| bold := true; align := Some "center"; valign := Some "top";
     border := Some 1; num_format := None |}.

Definition date_format : Format :=
  {| bold := false; align := None; valign := None; border := None;
     num_format := Some "yyyy-mm-dd" |}.

(** The three loops under [# Writer header] and the two [# Widen column]
    comments; none of their calls can raise. *)
Definition write_header (worksheet : Worksheet) : Worksheet :=
  fold_left (fun ws '(i, fieldname) => ws ++ [write 0 i fieldname header_format])
            (enumerate fieldnames) worksheet.

Definition widen_date_columns (worksheet : Worksheet) : Worksheet :=
  fold_left (fun ws '(i, fieldtype) =>
               if ExcelCellDataType.eqb fieldtype ExcelCellDataType.date
               then ws ++ [set_column i i 13] else ws)
            (enumerate fieldtypes) worksheet.

Definition widen_named_columns (worksheet : Worksheet) : Worksheet :=
  fold_left (fun ws '(i, fieldname) =>
               if str_eqb fieldname (utf8 "基金名称") then ws ++ [set_column i i 22]
               else if str_eqb fieldname (utf8 "估算日期") then ws ++ [set_column i i 17]
               else if str_eqb fieldname (utf8 "实时估值")
                       || str_eqb fieldname (utf8 "估算增长率")
               then ws ++ [set_column i i 11]
               else ws)
            (enumerate fieldnames) worksheet.

(** The body of the inner loop: one field of one record. *)
Definition write_field (row : N) (info : gmap str str) (col : N) (fieldname : str)
    (worksheet : Worksheet) : result Worksheet :=
  let! fieldvalue := getitem info fieldname in
  let! fieldtype := list_getitem fieldtypes col in
  if ExcelCellDataType.eqb fieldtype ExcelCellDataType.string then
    Ok (worksheet ++ [write_string (row + 1) col fieldvalue])
  else if ExcelCellDataType.eqb fieldtype ExcelCellDataType.number then
    let! num := float fieldvalue in
    ws_write_number (row + 1) col num worksheet
  else if ExcelCellDataType.eqb fieldtype ExcelCellDataType.date then
    let! date := strptime_Ymd fieldvalue in
    Ok (worksheet ++ [write_datetime (row + 1) col date date_format])
  else
    Raise (RuntimeError (utf8 "Unreachable")).

(** The inner loop: the fields of one record. *)
Definition write_row (row : N) (info : gmap str str) (worksheet : Worksheet)
  : result Worksheet :=
  for_each (enumerate fieldnames)
           (fun '(col, fieldname) ws => write_field row info col fieldname ws)
           worksheet.

(** The outer loop under [# Write body]. *)
Definition write_body (infos : list (gmap str str)) (worksheet : Worksheet)
  : result Worksheet :=
  for_each (enumerate infos) (fun '(row, info) ws => write_row row info ws)
           worksheet.

(** [workbook.close()]: the workbook reaches the file system here and
    nowhere else; a failure to create the file is a [FileCreateError]. *)
Definition Workbook_close (filename : str) (sheet : Worksheet) : M unit :=
  fun w =>
    match create_file (joinpath (os w) (Disk, cwd w) filename) (Spreadsheet sheet) w with
    | (Raise e, w') => (Raise (FileCreateError e), w')
    | r => r
    end.

Definition export_error_message : str :=
  utf8 "获取基金信息并写入 Excel 文档的时候发生错误".

(** The block under [try:]. *)
Definition write_to_xlsx_try (infos : list (gmap str str)) (xlsx_filename : str)
  : M unit :=
  print (utf8 "新建 Excel 文档......") ;;
  let worksheet := [] in
  print (utf8 "写入文档头......") ;;
  let worksheet := write_header worksheet in
  let worksheet := widen_date_columns worksheet in
  let worksheet := widen_named_columns worksheet in
  print (utf8 "写入文档体......") ;;
  let* worksheet := lift (write_body infos worksheet) in
  Workbook_close xlsx_filename worksheet.

Definition write_to_xlsx (infos : list (gmap str str)) (xlsx_filename : str)
  : M unit :=
  try_except (write_to_xlsx_try infos xlsx_filename)
             (fun exc => raise (RuntimeError_from export_error_message exc)).

(** ** [update] *)

Section Update.

(** The GBK code table and the reader of archive directories belong to
    the interpreter's library; the program is read for any of them. *)
Variable gbk_row : N -> option (Byte.byte * Byte.byte).
Variable ZipFile : content -> result archive.

(** [RELEASE_EXECUTABLE_NAME.encode("gbk").decode("cp437")] *)
Definition transformed_executable_name : result str :=
  let! encoded := encode_gbk gbk_row RELEASE_EXECUTABLE_NAME in
  Ok (decode_cp437 encoded).

Definition versioned_executable_name (o : platform) (latest_version : str) : str :=
  let '(basename, extension) := splitext o RELEASE_EXECUTABLE_NAME in
  basename ++ latest_version ++ extension.

Definition get_os : M platform := fun w => (Ok (os w), w).

Definition update (latest_version : str) : M unit :=
  with_TemporaryDirectory (fun tempdir =>
    let* o := get_os in
    let p := joinpath o tempdir RELEASE_ASSET_NAME in
    let* asset_bytes := get_latest_released_asset RELEASE_ASSET_NAME in
    write_bytes p asset_bytes ;;
    let* transformed := lift transformed_executable_name in
    let* f := (let* c := read_file p in lift (ZipFile c)) in
    ZipFile_extract f transformed tempdir ;;
    let* cwd := Path_cwd in
    shutil_move o (joinpath o tempdir transformed)
                  (joinpath o cwd (versioned_executable_name o latest_version))).

(** ** [check_update] *)

(** The colouring helpers of [utils] are not part of this file. *)
Variables green red : str -> str.

Definition update_prompt (latest_version : str) : str :=
  utf8 "检测到更新版本 " ++ latest_version
  ++ utf8 "，是否更新？【选择是请输入“" ++ green (utf8 "是")
  ++ utf8 "”，选择否请输入“" ++ red (utf8 "否") ++ utf8 "”】" ++ [10].

(** Python compares tuples item by item: the first pair of items that
    differ decides; when there is none, the longer tuple is the greater. *)
Fixpoint tuple_gt (a b : list Z) : bool :=
  match a, b with
  | x :: a', y :: b' => if (x =? y)%Z then tuple_gt a' b' else (y <? x)%Z
  | _ :: _, [] => true
  | [], _ => false
  end.

Definition tuple3 (v : Z * Z * Z) : list Z :=
  let '(major, minor, patch) := v in [major; minor; patch].

(** The [while True] loop: one round per line of input.  [lines] is the
    input not yet read; with none left, [input] raises [EOFError]. *)
Fixpoint ask_update (latest_version : str) (lines : list str) : M unit :=
  match lines with
  | [] => let* _ := input (update_prompt latest_version) in raise EOFError
  | _ :: rest =>
      let* answer := input (update_prompt latest_version) in
      let choice := strip answer in
      if str_eqb choice (utf8 "是") then
        update latest_version ;; exit
      else if str_eqb choice (utf8 "否") then
        ret tt
      else
        print (utf8 "输入指令无效，请重新输入") ;;
        ask_update latest_version rest
  end.

Definition check_update : M unit :=
  let* latest_version := get_latest_released_version in
  let* remote := lift (parse_version_number latest_version) in
  let* local := lift (parse_version_number __version__) in
  if tuple_gt (tuple3 remote) (tuple3 local) then
    fun w => ask_update latest_version (stdin w) w
  else
    ret tt.

End Update.

(** ** [main]: cleaning the list of fund codes *)

(** [\d{6}] *)
Definition code_pattern : regex := Repeat 6 Digit.

(** [list(filter(lambda code: re.fullmatch(r"\d{6}", code), codes))] *)
Definition clean_codes (codes : list str) : list str :=
  List.filter (fun code => match re_fullmatch code_pattern code with
                           | Some _ => true
                           | None => false
                           end) codes.

End Main.
Export Main.

(* ===================================================================== *)
(** * The vocabulary of the properties *)
(* ===================================================================== *)

Module Spec.

(** The texts a pattern describes. *)
Inductive matches : regex -> str -> Prop :=
| matches_eps : matches Eps []
| matches_chr c : matches (Chr c) [c]
| matches_range lo hi x : lo <= x <= hi -> matches (Range lo hi) [x]
| matches_digit x : is_decimal x = true -> matches Digit [x]
| matches_cat r1 r2 s1 s2 :
    matches r1 s1 -> matches r2 s2 -> matches (Cat r1 r2) (s1 ++ s2)
| matches_alt_l r1 r2 s : matches r1 s -> matches (Alt r1 r2) s
| matches_alt_r r1 r2 s : matches r2 s -> matches (Alt r1 r2) s
| matches_star_nil r : matches (Star r) []
| matches_star_cons r s1 s2 :
    matches r s1 -> matches (Star r) s2 -> matches (Star r) (s1 ++ s2)
| matches_group name r s : matches r s -> matches (Group name r) s.

(** A step is sound for [r] when each of its answers comes from the
    continuation, called after a text described by [r]. *)
Definition sound_step {R} (r : regex)
    (step : str -> groups -> (str -> groups -> option R) -> option R) : Prop :=
  forall s g k x, step s g k = Some x ->
    exists pre s' g', s = pre ++ s' /\ matches r pre /\ k s' g' = Some x.

Definition digit_run (ds : str) : Prop := Forall (fun c => is_decimal c = true) ds.

Definition no_digit_head (s : str) : Prop :=
  match s with c :: _ => is_decimal c = false | [] => True end.

(** The attempts of a greedy repetition over the run [ds] followed by
    [rest]: the whole run first, then one digit less, and so on. *)
Fixpoint try_suffixes {R} (k : str -> groups -> option R) (g : groups)
    (ds rest : str) : option R :=
  match ds with
  | [] => k rest g
  | _ :: ds' => orelse (try_suffixes k g ds' rest) (k (ds ++ rest) g)
  end.

Definition ten : list N := [0; 1; 2; 3; 4; 5; 6; 7; 8; 9].

Definition dot : N := chr ".".

(** A decimal integer, as text: one or more digits. *)
Definition digits (ds : str) : Prop := ds <> [] /\ digit_run ds.

(** The texts of the shape [v?M.N.P]. *)
Definition version_shape (s ma mi pa : str) : Prop :=
  digits ma /\ digits mi /\ digits pa /\
  (s = ma ++ dot :: mi ++ dot :: pa \/ s = chr "v" :: ma ++ dot :: mi ++ dot :: pa).

(** The number a run of digits denotes. *)
Definition value (ds : str) : Z := digits_value 0 ds.

(** The spec's comparison of versions: major, then minor, then patch. *)
Definition compare_version (a b : Z * Z * Z) : comparison :=
  let '(a1, a2, a3) := a in
  let '(b1, b2, b3) := b in
  match (a1 ?= b1)%Z with
  | Eq => match (a2 ?= b2)%Z with
          | Eq => (a3 ?= b3)%Z
          | c => c
          end
  | c => c
  end.

(** The name under which the archive lists the executable. *)
Definition stored_executable_name : str := utf8 "╗∙╜≡╨┼╧ó╔·│╔╞≈.exe".

(** A command that leaves the console alone. *)
Definition console_untouched {A} (c : M A) : Prop :=
  forall w, stdout (snd (c w)) = stdout w /\ stdin (snd (c w)) = stdin w.

(** The files once the archive is downloaded into the temporary
    directory. *)
Definition downloaded (w : world) (data : bytes) : gmap path node :=
  <[(Temp, [RELEASE_ASSET_NAME]) := File (Raw data)]>
    (<[(Temp, []) := Dir]> (outside_temp (fs w))).

(** ** The export, in the words of the specification *)

(** The schema: every field with its column and its type. *)
Definition schema : list (N * str * ExcelCellDataType.t) :=
  combine (enumerate fieldnames) fieldtypes.

(** What the export writes for a value of a type: the text as it is, the
    number read from it, or the date read from it under the display
    format [yyyy-mm-dd]. *)
Definition export_cell (ty : ExcelCellDataType.t) (row col : N) (v : str)
  : result call :=
  match ty with
  | ExcelCellDataType.string => Ok (write_string row col v)
  | ExcelCellDataType.number =>
      let! x := float v in
      if isnan x || isinf x
      then Raise (TypeError "NAN/INF not supported in write_number()")
      else Ok (write_number row col x)
  | ExcelCellDataType.date =>
      let! d := strptime_Ymd v in
      Ok (write_datetime row col d date_format)
  end.

(** A field of a record: its value must be there. *)
Definition export_field (info : gmap str str) (row : N)
    (field : N * str * ExcelCellDataType.t) : result call :=
  let '(col, name, ty) := field in
  match info !! name with
  | None => Raise (KeyError name)
  | Some v => export_cell ty row col v
  end.

(** Results in order, up to the first failure. *)
Fixpoint collect {A B} (f : A -> result B) (l : list A) : result (list B) :=
  match l with
  | [] => Ok []
  | x :: l' => let! y := f x in let! ys := collect f l' in Ok (y :: ys)
  end.

(** The width hint of a column: by name for the four long fields, else
    by type for dates, else none. *)
Definition width_hint (name : str) (ty : ExcelCellDataType.t) : option N :=
  if str_eqb name (utf8 "基金名称") then Some 22
  else if str_eqb name (utf8 "估算日期") then Some 17
  else if str_eqb name (utf8 "实时估值") then Some 11
  else if str_eqb name (utf8 "估算增长率") then Some 11
  else if ExcelCellDataType.eqb ty ExcelCellDataType.date then Some 13
  else None.

(** The four fields with long content. *)
Definition long_fields : list str :=
  [utf8 "基金名称"; utf8 "估算日期"; utf8 "实时估值"; utf8 "估算增长率"].

(** The header of a column, as the specification asks for it: the name
    in the header row, and the width by the rules for dates and for the
    long fields. *)
Definition header_column (sheet : Worksheet)
    (field : N * str * ExcelCellDataType.t) : Prop :=
  let '(col, name, ty) := field in
  cell sheet 0 col = Some (write 0 col name header_format)
  /\ (ty = ExcelCellDataType.date -> column_width sheet col = Some 13)
  /\ (name = utf8 "基金名称" -> column_width sheet col = Some 22)
  /\ (name = utf8 "估算日期" -> column_width sheet col = Some 17)
  /\ (name = utf8 "实时估值" -> column_width sheet col = Some 11)
  /\ (name = utf8 "估算增长率" -> column_width sheet col = Some 11)
  /\ (ty <> ExcelCellDataType.date -> ~ In name long_fields ->
      column_width sheet col = None).

(** The sheet when the header is written. *)
Definition header_sheet : Worksheet :=
  widen_named_columns (widen_date_columns (write_header [])).

(** The calls of the body: cells below the header row. *)
Definition body_call (k : call) : Prop :=
  match k with
  | write_string r _ _ | write_number r _ _ | write_datetime r _ _ _ => 1 <= r
  | _ => False
  end.

(** The exceptions an export can meet. *)
Definition export_failure (e : exn) : Prop :=
  match e with
  | KeyError _ | ValueError _ | TypeError _ | FileCreateError _ => True
  | _ => False
  end.

(** Where the workbook is written. *)
Definition destination (w : world) (xlsx_filename : str) : path :=
  joinpath (os w) (Disk, cwd w) xlsx_filename.

(** The world after the three progress messages of the export. *)
Definition announced (w : world) : world :=
  set_stdout (((stdout w ++ [utf8 "新建 Excel 文档......"])
                 ++ [utf8 "写入文档头......"]) ++ [utf8 "写入文档体......"]) w.

(** The cells of the body: for every record in turn, its fields in the
    order of the schema, up to the first failure. *)
Definition export_rows (first_row : N) (infos : list (gmap str str))
  : result (list (list call)) :=
  collect (fun '(row, info) => collect (export_field info (row + 1)) schema)
          (enumerate_from first_row infos).

(** ** Fund codes and assets *)

(** Six decimal digits, in the sense of the class [\d] and in ASCII. *)
Definition six_digits (code : str) : Prop :=
  length code = 6%nat /\ digit_run code.

Definition six_ascii_digits (code : str) : Prop :=
  length code = 6%nat /\ Forall (fun c => is_ascii_digit c = true) code.

Definition six_digitsb (code : str) : bool :=
  (length code =? 6)%nat && forallb is_decimal code.

(** The number of assets of a name. *)
Fixpoint count_named (name : str) (l : list asset) : nat :=
  match l with
  | [] => 0
  | a :: l' =>
      ((if str_eqb (asset_name a) name then 1 else 0) + count_named name l')%nat
  end.

(** ** Sample data *)

Definition sample_asset : asset :=
  {| asset_name := RELEASE_ASSET_NAME; asset_url := utf8 "https://example.org/asset/1" |}.

Definition sample_release : release :=
  {| tag_name := utf8 "v0.3.0";
     assets := [ {| asset_name := utf8 "notes.txt"; asset_url := utf8 "https://example.org/asset/0" |};
                 sample_asset ] |}.

(** A user who first mistypes, then declines; a working directory that
    holds an older executable under the name of the new one. *)
Definition sample_world : world :=
  {| stdout := [];
     stdin := [utf8 "?"; utf8 " 否 "];
     fs := {[ (Disk, [utf8 "home"]) := Dir;
              (Disk, [utf8 "home"; utf8 "基金信息生成器v0.3.0.exe"]) := File (Raw [Byte.x00]) ]};
     cwd := [utf8 "home"];
     os := nt;
     releases_latest := Ok sample_release;
     download := fun _ => Ok [Byte.x50; Byte.x4b] |}.

Definition sample_member : bytes := [Byte.x4d; Byte.x5a].

Definition sample_ZipFile (c : content) : result archive :=
  Ok {[ stored_executable_name := sample_member ]}.

Definition sample_info : gmap str str :=
  list_to_map
    [ (utf8 "基金名称", utf8 "X"); (utf8 "基金代码", utf8 "000001");
      (utf8 "净值日期", utf8 "2023-01-15"); (utf8 "单位净值", utf8 "12.34");
      (utf8 "日增长率", utf8 "0.5%"); (utf8 "估算日期", utf8 "2023-01-16 15:00");
      (utf8 "实时估值", utf8 "12.40"); (utf8 "估算增长率", utf8 "0.48%");
      (utf8 "分红送配", utf8 "") ].

Definition version_match (ma mi pa rest : str) : Match :=
  {| m_groups := [("patch"%string, pa); ("minor"%string, mi); ("major"%string, ma)];
     m_rest := rest |}.

(** ** Numbers and dates as texts *)

(** A text [float] can read: a text of the grammar of [float], white
    space around it apart. *)
Definition float_text (v : str) : Prop :=
  matches float_pattern (strip_with is_float_space v).










End Spec.
Export Spec.

(* ===================================================================== *)
(** * Properties of the matcher *)
(* ===================================================================== *)

Module ReFacts.

#[local] Hint Constructors matches : core.

Lemma orelse_Some {R} (a b : option R) x :
  orelse a b = Some x -> a = Some x \/ (a = None /\ b = Some x).
Proof. destruct a; simpl; intros H; [left | right]; auto. Qed.

Lemma iterate_sound_star {R} r
    (step : str -> groups -> (str -> groups -> option R) -> option R) :
  sound_step r step ->
  forall fuel s g k x, iterate step k fuel s g = Some x ->
    exists pre s' g', s = pre ++ s' /\ matches (Star r) pre /\ k s' g' = Some x.
Proof.
  intros Hstep fuel.
  induction fuel as [|fuel IH]; intros s g k x H; simpl in H.
  - exists [], s, g. auto.
  - apply orelse_Some in H as [H | [_ H]].
    + apply Hstep in H as (pre & s1 & g1 & -> & Hpre & H).
      destruct (length s1 <? length (pre ++ s1))%nat; [|discriminate].
      apply IH in H as (pre2 & s2 & g2 & -> & Hpre2 & H).
      exists (pre ++ pre2), s2, g2. rewrite <- app_assoc. auto.
    + exists [], s, g. auto.
Qed.

(** Soundness of the matcher: an answer is an answer of the continuation
    after a prefix of the text that the pattern describes. *)
Theorem run_sound {R} r : sound_step (R := R) r (run r).
Proof.
  induction r as [ | c | lo hi | | r1 IH1 r2 IH2 | r1 IH1 r2 IH2 | r1 IH1 | name r1 IH1 ];
    intros s g k x H; simpl in H.
  - exists [], s, g. auto.
  - destruct s as [|c' s']; [discriminate|].
    destruct (c' =? c) eqn:E; [|discriminate].
    apply N.eqb_eq in E as ->. exists [c], s', g. auto.
  - destruct s as [|c' s']; [discriminate|].
    destruct ((lo <=? c') && (c' <=? hi)) eqn:E; [|discriminate].
    apply andb_true_iff in E as [E1 E2].
    apply N.leb_le in E1. apply N.leb_le in E2.
    exists [c'], s', g. auto.
  - destruct s as [|c' s']; [discriminate|].
    destruct (is_decimal c') eqn:E; [|discriminate].
    exists [c'], s', g. auto.
  - apply IH1 in H as (pre1 & s1 & g1 & -> & H1 & H).
    apply IH2 in H as (pre2 & s2 & g2 & -> & H2 & H).
    exists (pre1 ++ pre2), s2, g2. rewrite <- app_assoc. auto.
  - apply orelse_Some in H as [H | [_ H]].
    + apply IH1 in H as (pre & s' & g' & -> & H1 & H). eauto 8.
    + apply IH2 in H as (pre & s' & g' & -> & H1 & H). eauto 8.
  - eapply iterate_sound_star; eauto.
  - apply IH1 in H as (pre & s' & g' & -> & H1 & H). eauto 8.
Qed.

Corollary re_match_sound r s m :
  re_match r s = Some m -> exists pre, s = pre ++ m_rest m /\ matches r pre.
Proof.
  unfold re_match. intros H.
  apply run_sound in H as (pre & s' & g' & -> & Hpre & [= <-]). eauto.
Qed.

Corollary re_fullmatch_sound r s m : re_fullmatch r s = Some m -> matches r s.
Proof.
  unfold re_fullmatch. intros H.
  apply run_sound in H as (pre & s' & g' & -> & Hpre & H).
  destruct s'; [|discriminate]. now rewrite app_nil_r.
Qed.

(** ** Runs of digits *)

Lemma orelse_None_r {R} (a : option R) : orelse a None = a.
Proof. now destruct a. Qed.

Lemma try_suffixes_first {R} (k : str -> groups -> option R) g ds rest x :
  k rest g = Some x -> try_suffixes k g ds rest = Some x.
Proof. intros H. induction ds as [|d ds IH]; simpl; [exact H | now rewrite IH]. Qed.

Lemma try_suffixes_only {R} (k : str -> groups -> option R) g ds rest :
  (forall d s, is_decimal d = true -> k (d :: s) g = None) ->
  digit_run ds -> try_suffixes k g ds rest = k rest g.
Proof.
  intros Hk Hds. induction Hds as [|d ds Hd Hds IH]; simpl; [reflexivity|].
  rewrite IH, (Hk d _ Hd). apply orelse_None_r.
Qed.

Lemma iterate_run {R} (step : str -> groups -> (str -> groups -> option R) -> option R)
    (k : str -> groups -> option R) rest :
  (forall d s g K, is_decimal d = true -> step (d :: s) g K = K s g) ->
  (forall g K, step rest g K = None) ->
  forall ds fuel g, (length ds <= fuel)%nat -> digit_run ds ->
    iterate step k fuel (ds ++ rest) g = try_suffixes k g ds rest.
Proof.
  intros Hd Hrest ds.
  induction ds as [|d ds IH]; intros fuel g Hfuel Hds.
  - destruct fuel; simpl; [reflexivity|]. now rewrite Hrest.
  - destruct fuel as [|fuel]; [simpl in Hfuel; lia|].
    apply Forall_cons in Hds as [Hd1 Hds].
    cbn [iterate app]. rewrite (Hd d _ _ _ Hd1).
    assert (E : (length (ds ++ rest) <? length (d :: ds ++ rest))%nat = true)
      by (apply Nat.ltb_lt; simpl; lia).
    rewrite E, IH; [reflexivity | simpl in Hfuel; lia | exact Hds].
Qed.

(** The equations of the matcher, for rewriting. *)
Lemma run_Cat {R} r1 r2 s g (k : str -> groups -> option R) :
  run (Cat r1 r2) s g k = run r1 s g (fun s' g' => run r2 s' g' k).
Proof. reflexivity. Qed.

Lemma run_Alt {R} r1 r2 s g (k : str -> groups -> option R) :
  run (Alt r1 r2) s g k = orelse (run r1 s g k) (run r2 s g k).
Proof. reflexivity. Qed.

Lemma run_Group {R} name r s g (k : str -> groups -> option R) :
  run (Group name r) s g k
  = run r s g (fun s' g' => k s' ((name, consumed s s') :: g')).
Proof. reflexivity. Qed.

Lemma run_Eps {R} s g (k : str -> groups -> option R) : run Eps s g k = k s g.
Proof. reflexivity. Qed.

Lemma run_Chr_head {R} c s g (k : str -> groups -> option R) :
  run (Chr c) (c :: s) g k = k s g.
Proof. simpl. now rewrite N.eqb_refl. Qed.

Lemma run_Chr_other {R} c s g (k : str -> groups -> option R) :
  match s with x :: _ => x <> c | [] => True end -> run (Chr c) s g k = None.
Proof.
  destruct s as [|x s]; simpl; [reflexivity|]. intros H.
  now apply N.eqb_neq in H as ->.
Qed.

Lemma run_Digit_head {R} d s g (K : str -> groups -> option R) :
  is_decimal d = true -> run Digit (d :: s) g K = K s g.
Proof. intros H. simpl. now rewrite H. Qed.

Lemma run_Digit_other {R} rest g (K : str -> groups -> option R) :
  no_digit_head rest -> run Digit rest g K = None.
Proof. intros H. destruct rest as [|c rest]; simpl; [reflexivity|]. simpl in H. now rewrite H. Qed.

Lemma run_star_digit {R} ds rest g (k : str -> groups -> option R) :
  digit_run ds -> no_digit_head rest ->
  run (Star Digit) (ds ++ rest) g k = try_suffixes k g ds rest.
Proof.
  intros Hds Hrest. cbn [run].
  apply iterate_run; auto.
  - intros. now apply run_Digit_head.
  - intros. now apply run_Digit_other.
  - rewrite length_app. lia.
Qed.

Lemma consumed_app (pre s' : str) : consumed (pre ++ s') s' = pre.
Proof.
  unfold consumed. rewrite length_app.
  replace (length pre + length s' - length s')%nat with (length pre) by lia.
  apply take_app_length.
Qed.

Lemma consumed_cons_app d (ds s' : str) : consumed (d :: ds ++ s') s' = d :: ds.
Proof. apply (consumed_app (d :: ds) s'). Qed.

(** A group of one or more digits takes the whole run of digits at the
    start of the text when the continuation accepts after it, or when the
    continuation accepts nothing that begins with a digit. *)
Lemma run_group_digits {R} name d ds rest g (k : str -> groups -> option R) :
  is_decimal d = true -> digit_run ds -> no_digit_head rest ->
  (is_Some (k rest ((name, d :: ds) :: g))
   \/ forall c s' g', is_decimal c = true -> k (c :: s') g' = None) ->
  run (Group name (Plus Digit)) (d :: ds ++ rest) g k
  = k rest ((name, d :: ds) :: g).
Proof.
  intros Hd Hds Hrest Hk.
  unfold Plus. rewrite run_Group, run_Cat, run_Digit_head by assumption.
  rewrite run_star_digit by assumption.
  destruct Hk as [[x Hx] | Hk].
  - rewrite Hx. apply try_suffixes_first. now rewrite consumed_cons_app.
  - rewrite try_suffixes_only; auto.
    now rewrite consumed_cons_app.
Qed.

End ReFacts.

(* ===================================================================== *)
(** * Properties of the built-in functions *)
(* ===================================================================== *)

Module BuiltinFacts.
Import ReFacts.

Lemma In_ten i : i < 10 -> In i ten.
Proof.
  intros H.
  assert (i = 0 \/ i = 1 \/ i = 2 \/ i = 3 \/ i = 4 \/ i = 5 \/ i = 6
          \/ i = 7 \/ i = 8 \/ i = 9) as Hi by lia.
  unfold ten. simpl. intuition.
Qed.

Lemma digit_in_range zeros c d :
  digit_in zeros c = Some d -> exists z, In z zeros /\ c = z + d /\ d < 10.
Proof.
  induction zeros as [|z rest IH]; simpl; [discriminate|].
  destruct ((z <=? c) && (c <? z + 10)) eqn:E.
  - intros [= <-]. apply andb_true_iff in E as [E1 E2].
    apply N.leb_le in E1. apply N.ltb_lt in E2.
    exists z. split; [now left | lia].
  - intros H. destruct (IH H) as (z' & Hz & Hc). exists z'. split; [now right | exact Hc].
Qed.

(** A property of every decimal digit, checked on the table. *)
Lemma decimal_forall (P : N -> bool) :
  forallb (fun z => forallb (fun i => P (z + i)) ten) Nd_zeros = true ->
  forall c, is_decimal c = true -> P c = true.
Proof.
  intros Htable c Hc. unfold is_decimal, decimal in Hc.
  destruct (digit_in Nd_zeros c) as [d|] eqn:E; [|discriminate].
  apply digit_in_range in E as (z & Hz & -> & Hd).
  rewrite forallb_forall in Htable. specialize (Htable z Hz).
  rewrite forallb_forall in Htable. apply Htable. now apply In_ten.
Qed.

Lemma decimal_not_float_space c : is_decimal c = true -> is_float_space c = false.
Proof.
  intros H. apply negb_true_iff.
  revert c H. apply (decimal_forall (fun c => negb (is_float_space c))).
  vm_compute. reflexivity.
Qed.

(** The punctuation of the patterns is not a digit. *)
Lemma decimal_not_punct c :
  is_decimal c = true ->
  c <> chr "v" /\ c <> chr "." /\ c <> chr "+" /\ c <> chr "-" /\ c <> chr "_".
Proof.
  intros H; repeat split; intros ->; vm_compute in H; discriminate.
Qed.

Lemma lstrip_head space s :
  match s with c :: _ => space c = false | [] => True end -> lstrip space s = s.
Proof. destruct s as [|c s]; simpl; [reflexivity|]. now intros ->. Qed.

Lemma strip_digit_run ds : digit_run ds -> strip_with is_float_space ds = ds.
Proof.
  intros Hds. unfold strip_with.
  assert (Hhead : forall s, digit_run s ->
            match s with c :: _ => is_float_space c = false | [] => True end).
  { intros [|c s] Hs; [exact I|]. apply Forall_cons in Hs as [Hc _].
    now apply decimal_not_float_space. }
  rewrite (lstrip_head _ ds (Hhead ds Hds)).
  rewrite lstrip_head; [apply rev_involutive|].
  apply Hhead. unfold digit_run. now apply Forall_rev.
Qed.

(** The repeated part of [digitpart] reads one digit at a time. *)
Lemma digitpart_step_digit {R} d s g (K : str -> groups -> option R) :
  is_decimal d = true -> run (Cat (Opt (Chr (chr "_"))) Digit) (d :: s) g K = K s g.
Proof.
  intros Hd. unfold Opt. rewrite run_Cat, run_Alt, run_Eps.
  rewrite run_Chr_other by (simpl; apply (decimal_not_punct d Hd)).
  cbn [orelse]. now apply run_Digit_head.
Qed.

Lemma digitpart_step_nil {R} g (K : str -> groups -> option R) :
  run (Cat (Opt (Chr (chr "_"))) Digit) [] g K = None.
Proof. reflexivity. Qed.

(** [int] reads a run of digits as its decimal value. *)
Lemma int_digit_run d ds :
  digit_run (d :: ds) -> int (d :: ds) = Ok (digits_value 0 (d :: ds)).
Proof.
  intros Hds. unfold int. rewrite (strip_digit_run _ Hds).
  pose proof Hds as Hds'. apply Forall_cons in Hds' as [Hd Hrest].
  destruct (decimal_not_punct d Hd) as (_ & _ & Hplus & Hminus & _).
  assert (E : re_fullmatch int_pattern (d :: ds)
              = Some {| m_groups := [("digits"%string, d :: ds); ("sign"%string, [])];
                        m_rest := [] |}).
  { unfold re_fullmatch, int_pattern, sign_char, Opt.
    rewrite run_Cat, run_Group, run_Alt, run_Alt, run_Eps.
    rewrite !run_Chr_other by (simpl; assumption). cbn [orelse].
    unfold digitpart. rewrite run_Group, run_Cat, run_Digit_head by assumption.
    change (run (Star ?r) ds ?g ?K) with (iterate (run r) K (length ds) ds g).
    rewrite <- (app_nil_r ds) at 2.
    rewrite iterate_run.
    - apply try_suffixes_first.
      replace (consumed (d :: ds) (d :: ds)) with ([] : str)
        by (unfold consumed; now rewrite Nat.sub_diag).
      replace (consumed (d :: ds) []) with (d :: ds)
        by (unfold consumed; simpl length; rewrite Nat.sub_0_r;
            symmetry; apply (take_ge (d :: ds)); simpl; lia).
      reflexivity.
    - intros. now apply digitpart_step_digit.
    - intros. apply digitpart_step_nil.
    - lia.
    - exact Hrest. }
  rewrite E. reflexivity.
Qed.

End BuiltinFacts.

(* ===================================================================== *)
(** * Version numbers *)
(* ===================================================================== *)

Module VersionFacts.
Import ReFacts BuiltinFacts.

Ltac list_norm :=
  repeat (rewrite <- app_assoc || rewrite <- app_comm_cons); cbn [app].

Lemma matches_Cat_inv r1 r2 s :
  matches (Cat r1 r2) s -> exists s1 s2, s = s1 ++ s2 /\ matches r1 s1 /\ matches r2 s2.
Proof. inversion 1; subst; eauto. Qed.

Lemma matches_Chr_inv c s : matches (Chr c) s -> s = [c].
Proof. now inversion 1. Qed.

Lemma matches_Digit_inv s : matches Digit s -> exists c, s = [c] /\ is_decimal c = true.
Proof. inversion 1; subst; eauto. Qed.

Lemma matches_Group_inv name r s : matches (Group name r) s -> matches r s.
Proof. now inversion 1. Qed.

Lemma matches_Opt_inv r s : matches (Opt r) s -> matches r s \/ s = [].
Proof. unfold Opt. inversion 1; subst; auto. right. now inversion H3. Qed.

Lemma matches_star_digit s : matches (Star Digit) s -> digit_run s.
Proof.
  intros H. remember (Star Digit) as r eqn:Er.
  induction H; try discriminate.
  - constructor.
  - injection Er as ->. apply matches_Digit_inv in H as (c & -> & Hc).
    simpl. constructor; [exact Hc | now apply IHmatches2].
Qed.

Lemma matches_plus_digit s : matches (Plus Digit) s -> digits s.
Proof.
  unfold Plus. intros H.
  apply matches_Cat_inv in H as (s1 & s2 & -> & H1 & H2).
  apply matches_Digit_inv in H1 as (c & -> & Hc).
  apply matches_star_digit in H2.
  split; [discriminate | now constructor].
Qed.

(** What the pattern describes is the shape. *)
Lemma matches_version_shape s :
  matches version_pattern s -> exists ma mi pa, version_shape s ma mi pa.
Proof.
  unfold version_pattern. intros H.
  apply matches_Cat_inv in H as (v & s1 & -> & Hv & H).
  apply matches_Cat_inv in H as (ma & s2 & -> & HM & H).
  apply matches_Cat_inv in H as (d1 & s3 & -> & Hd1 & H).
  apply matches_Cat_inv in H as (mi & s4 & -> & HN & H).
  apply matches_Cat_inv in H as (d2 & pa & -> & Hd2 & HP).
  apply matches_Chr_inv in Hd1 as ->. apply matches_Chr_inv in Hd2 as ->.
  apply matches_Group_inv, matches_plus_digit in HM, HN, HP.
  exists ma, mi, pa. split; [exact HM | split; [exact HN | split; [exact HP|]]].
  apply matches_Opt_inv in Hv as [Hv | ->].
  - apply matches_Chr_inv in Hv as ->. right. reflexivity.
  - left. reflexivity.
Qed.

Lemma no_digit_head_dot s : no_digit_head (dot :: s).
Proof. reflexivity. Qed.

(** After a group of digits, a continuation that begins with the dot
    accepts nothing that begins with a digit. *)
Lemma dot_rejects_digit {R} r (K : str -> groups -> option R) c s g :
  is_decimal c = true -> run (Cat (Chr dot) r) (c :: s) g K = None.
Proof.
  intros Hc. rewrite run_Cat. apply run_Chr_other.
  apply (decimal_not_punct c Hc).
Qed.

Lemma run_version_numbers ma mi pa rest :
  digits ma -> digits mi -> digits pa -> no_digit_head rest ->
  run (Cat (Group "major" (Plus Digit)) (Cat (Chr dot)
      (Cat (Group "minor" (Plus Digit)) (Cat (Chr dot)
           (Group "patch" (Plus Digit))))))
      (ma ++ dot :: mi ++ dot :: pa ++ rest) []
      (fun rest g => Some {| m_groups := g; m_rest := rest |})
  = Some (version_match ma mi pa rest).
Proof.
  intros [HM0 HM] [HN0 HN] [HP0 HP] Hrest.
  destruct ma as [|m ma]; [contradiction|].
  destruct mi as [|n mi]; [contradiction|].
  destruct pa as [|p pa]; [contradiction|].
  apply Forall_cons in HM as [Hm HM].
  apply Forall_cons in HN as [Hn HN].
  apply Forall_cons in HP as [Hp HP].
  rewrite run_Cat. rewrite <- app_comm_cons.
  rewrite run_group_digits;
    [ | assumption | assumption | apply no_digit_head_dot
      | right; intros; now apply dot_rejects_digit ].
  rewrite run_Cat, run_Chr_head, run_Cat. rewrite <- app_comm_cons.
  rewrite run_group_digits;
    [ | assumption | assumption | apply no_digit_head_dot
      | right; intros; now apply dot_rejects_digit ].
  rewrite run_Cat, run_Chr_head. rewrite <- app_comm_cons.
  rewrite run_group_digits; [reflexivity | assumption | assumption | assumption | ].
  left. eexists. reflexivity.
Qed.

(** The match found on a text that begins with the shape. *)
Lemma re_match_version pre rest ma mi pa :
  version_shape pre ma mi pa -> no_digit_head rest ->
  re_match version_pattern (pre ++ rest) = Some (version_match ma mi pa rest).
Proof.
  intros (HM & HN & HP & Hpre) Hrest.
  pose proof (run_version_numbers ma mi pa rest HM HN HP Hrest) as Hrun.
  unfold re_match, version_pattern, Opt.
  rewrite run_Cat, run_Alt, run_Eps.
  destruct Hpre as [-> | ->].
  - rewrite run_Chr_other.
    + cbn [orelse]. repeat rewrite <- app_assoc, <- ?app_comm_cons.
      rewrite <- Hrun. repeat rewrite <- app_assoc. reflexivity.
    + destruct HM as [HM0 HM]. destruct ma as [|m ma]; [contradiction|].
      apply Forall_cons in HM as [Hm _]. simpl.
      apply (decimal_not_punct m Hm).
  - rewrite <- app_comm_cons, run_Chr_head.
    replace ((ma ++ dot :: mi ++ dot :: pa) ++ rest)
      with (ma ++ dot :: mi ++ dot :: pa ++ rest)
      by (repeat (rewrite <- app_assoc, <- ?app_comm_cons); reflexivity).
    fold dot. rewrite Hrun. reflexivity.
Qed.

Lemma parse_version_shape pre rest ma mi pa :
  version_shape pre ma mi pa -> no_digit_head rest ->
  parse_version_number (pre ++ rest) = Ok (value ma, value mi, value pa).
Proof.
  intros Hshape Hrest. unfold parse_version_number.
  rewrite (re_match_version pre rest ma mi pa Hshape Hrest).
  destruct Hshape as ([HM0 HM] & [HN0 HN] & [HP0 HP] & _).
  destruct ma as [|m ma]; [contradiction|].
  destruct mi as [|n mi]; [contradiction|].
  destruct pa as [|p pa]; [contradiction|].
  cbn [group_of group version_match m_groups lookup_group String.eqb Ascii.eqb
       Bool.eqb rbind].
  rewrite !int_digit_run by assumption. reflexivity.
Qed.

(** The longest run of digits at the start of a text. *)
Lemma digit_span s :
  exists ds rest, s = ds ++ rest /\ digit_run ds /\ no_digit_head rest.
Proof.
  induction s as [|c s (ds & rest & -> & Hds & Hrest)].
  - exists [], []. repeat split. constructor.
  - destruct (is_decimal c) eqn:E.
    + exists (c :: ds), rest. repeat split; auto. now constructor.
    + exists [], (c :: ds ++ rest). repeat split; auto. constructor.
Qed.

Lemma version_shape_extend pre ma mi pa ds :
  version_shape pre ma mi pa -> digit_run ds -> version_shape (pre ++ ds) ma mi (pa ++ ds).
Proof.
  intros (HM & HN & [HP0 HP] & Hpre) Hds.
  split; [exact HM|]. split; [exact HN|]. split.
  - split; [destruct pa; [contradiction | discriminate]|].
    unfold digit_run. apply Forall_app; auto.
  - destruct Hpre as [-> | ->]; [left | right]; list_norm; reflexivity.
Qed.

(** A text of the shape ends with a digit. *)
Lemma version_shape_last s ma mi pa :
  version_shape s ma mi pa -> exists s0 c, s = s0 ++ [c] /\ is_decimal c = true.
Proof.
  intros (_ & _ & [HP0 HP] & Hs).
  destruct (exists_last HP0) as (p0 & c & ->).
  apply Forall_app in HP as [_ Hc]. apply Forall_cons in Hc as [Hc _].
  destruct Hs as [-> | ->].
  - exists (ma ++ dot :: mi ++ dot :: p0), c. split; [|exact Hc].
    list_norm. reflexivity.
  - exists (chr "v" :: ma ++ dot :: mi ++ dot :: p0), c. split; [|exact Hc].
    list_norm. reflexivity.
Qed.

(** The outcome of parsing is decided by whether the text begins with
    the shape. *)
Lemma parse_version_number_cases s :
  (exists pre rest ma mi pa, s = pre ++ rest /\ version_shape pre ma mi pa /\
     no_digit_head rest /\
     parse_version_number s = Ok (value ma, value mi, value pa))
  \/ (parse_version_number s = Raise AttributeError /\
      ~ exists pre rest ma mi pa, s = pre ++ rest /\ version_shape pre ma mi pa).
Proof.
  assert (Hext : forall pre rest ma mi pa, s = pre ++ rest -> version_shape pre ma mi pa ->
            exists pre' rest' ma' mi' pa', s = pre' ++ rest' /\
              version_shape pre' ma' mi' pa' /\ no_digit_head rest' /\
              parse_version_number s = Ok (value ma', value mi', value pa')).
  { intros pre rest ma mi pa -> Hshape.
    destruct (digit_span rest) as (ds & rest' & -> & Hds & Hrest').
    exists (pre ++ ds), rest', ma, mi, (pa ++ ds).
    pose proof (version_shape_extend _ _ _ _ _ Hshape Hds) as Hshape'.
    rewrite app_assoc.
    split; [reflexivity | split; [exact Hshape' | split; [exact Hrest'|]]].
    now apply parse_version_shape. }
  destruct (re_match version_pattern s) as [m|] eqn:E.
  - left. apply re_match_sound in E as (pre & Hs & Hpre).
    apply matches_version_shape in Hpre as (ma & mi & pa & Hshape).
    eapply Hext; eauto.
  - right. split.
    + unfold parse_version_number. now rewrite E.
    + intros (pre & rest & ma & mi & pa & Hs & Hshape).
      destruct (Hext _ _ _ _ _ Hs Hshape) as (pre' & rest' & ma' & mi' & pa' & Hs' & Hshape' & Hrest' & _).
      rewrite Hs', (re_match_version _ _ _ _ _ Hshape' Hrest') in E. discriminate.
Qed.

End VersionFacts.

(* ===================================================================== *)
(** * The update *)
(* ===================================================================== *)

Module UpdateFacts.
Import ReFacts BuiltinFacts VersionFacts.

(** ** Python's order on tuples and the spec's comparison *)

Lemma tuple_gt_compare a b :
  tuple_gt (tuple3 a) (tuple3 b) = true <-> compare_version a b = Gt.
Proof.
  destruct a as [[a1 a2] a3], b as [[b1 b2] b3]. simpl.
  destruct (Z.eqb_spec a1 b1) as [-> | H1].
  - rewrite Z.compare_refl.
    destruct (Z.eqb_spec a2 b2) as [-> | H2].
    + rewrite Z.compare_refl.
      destruct (Z.eqb_spec a3 b3) as [-> | H3].
      * rewrite Z.compare_refl. split; discriminate.
      * rewrite Z.ltb_lt, Z.compare_gt_iff. reflexivity.
    + rewrite Z.ltb_lt.
      destruct (Z.compare_spec a2 b2); split; intros; try discriminate; try lia; auto.
  - rewrite Z.ltb_lt.
    destruct (Z.compare_spec a1 b1); split; intros; try discriminate; try lia; auto.
Qed.

(** ** The temporary directory *)

Lemma outside_temp_Disk f l : outside_temp f !! (Disk, l) = f !! (Disk, l).
Proof.
  unfold outside_temp. apply option_eq. intros x.
  rewrite map_lookup_filter_Some. simpl. tauto.
Qed.

Lemma outside_temp_Temp f l : outside_temp f !! (Temp, l) = None.
Proof.
  unfold outside_temp. apply map_lookup_filter_None. right.
  intros x _. simpl. discriminate.
Qed.

Lemma outside_temp_insert_Temp f l n :
  outside_temp (<[(Temp, l) := n]> f) = outside_temp f.
Proof. unfold outside_temp. apply map_filter_insert_not. intros y. simpl. discriminate. Qed.

Lemma outside_temp_insert_Disk f l n :
  outside_temp (<[(Disk, l) := n]> f) = <[(Disk, l) := n]> (outside_temp f).
Proof. unfold outside_temp. now apply map_filter_insert_True. Qed.

Lemma outside_temp_delete_Temp f l :
  outside_temp (delete (Temp, l) f) = outside_temp f.
Proof.
  unfold outside_temp. apply map_filter_delete_not. intros y _. simpl. discriminate.
Qed.

Lemma outside_temp_idem f : outside_temp (outside_temp f) = outside_temp f.
Proof.
  apply map_eq. intros [[|] l].
  - now rewrite !outside_temp_Disk.
  - now rewrite !outside_temp_Temp.
Qed.

(** ** The constants of the update, evaluated *)

Lemma splitext_executable o :
  splitext o RELEASE_EXECUTABLE_NAME = (utf8 "基金信息生成器", utf8 ".exe").
Proof. destruct o; vm_compute; reflexivity. Qed.

Lemma versioned_executable_name_eq o v :
  versioned_executable_name o v = utf8 "基金信息生成器" ++ v ++ utf8 ".exe".
Proof. unfold versioned_executable_name. now rewrite splitext_executable. Qed.

Lemma asset_path o : joinpath o (Temp, []) RELEASE_ASSET_NAME = (Temp, [RELEASE_ASSET_NAME]).
Proof. destruct o; vm_compute; reflexivity. Qed.

Lemma stored_path o :
  joinpath o (Temp, []) stored_executable_name = (Temp, [stored_executable_name]).
Proof. destruct o; vm_compute; reflexivity. Qed.

Lemma stored_target o : zip_target_parts o stored_executable_name = [stored_executable_name].
Proof. destruct o; vm_compute; reflexivity. Qed.

Lemma joinpath_cwd_Disk o l name : fst (joinpath o (Disk, l) name) = Disk.
Proof. unfold joinpath. now destruct (is_absolute o name). Qed.

(** ** The repaired name *)

Lemma encode_gbk_agree gbk gbk' s :
  Forall (fun c => (c <? 128) = true \/ exists bs, gbk' c = Some bs /\ gbk c = Some bs) s ->
  encode_gbk gbk s = encode_gbk gbk' s.
Proof.
  induction 1 as [|c s Hc _ IH]; simpl; [reflexivity|].
  destruct (c <? 128) eqn:E; [now rewrite IH|].
  destruct Hc as [Hc | (bs & -> & ->)]; [discriminate|].
  now rewrite IH.
Qed.

Lemma rows_only_has_rows gbk rows c bs :
  has_rows gbk rows -> rows_only rows c = Some bs -> gbk c = Some bs.
Proof.
  unfold has_rows. induction 1 as [|[c' bs'] rows Hrow _ IH]; simpl; [discriminate|].
  destruct (N.eqb_spec c c') as [-> | _]; [|exact IH].
  now intros [= <-].
Qed.

Lemma transformed_executable_name_rows gbk :
  has_rows gbk gbk_rows_of_name ->
  transformed_executable_name gbk = Ok stored_executable_name.
Proof.
  intros Hrows. unfold transformed_executable_name.
  rewrite (encode_gbk_agree gbk (rows_only gbk_rows_of_name)).
  - vm_compute. reflexivity.
  - assert (H : forallb (fun c => (c <? 128)
                || match rows_only gbk_rows_of_name c with Some _ => true | None => false end)
               RELEASE_EXECUTABLE_NAME = true) by (vm_compute; reflexivity).
    rewrite forallb_forall in H. apply List.Forall_forall. intros c Hc.
    specialize (H c Hc). apply orb_true_iff in H as [H | H]; [now left | right].
    destruct (rows_only gbk_rows_of_name c) as [bs|] eqn:E; [|discriminate].
    exists bs. split; [reflexivity|]. eapply rows_only_has_rows; eauto.
Qed.

(** The table made of the seven rows has them. *)
Lemma rows_only_name : has_rows (rows_only gbk_rows_of_name) gbk_rows_of_name.
Proof. unfold has_rows. repeat (constructor; [reflexivity|]). constructor. Qed.

(** ** The run of [update] *)

Lemma get_asset_set_fs name f w :
  get_latest_released_asset name (set_fs f w)
  = (fst (get_latest_released_asset name w), set_fs f w).
Proof. reflexivity. Qed.

Lemma create_file_ok p c w :
  fs w !! parent p = Some Dir -> fs w !! p <> Some Dir ->
  create_file p c w = (Ok tt, set_fs (<[p := File c]> (fs w)) w).
Proof.
  intros Hparent Hp. unfold create_file. rewrite Hparent.
  destruct (fs w !! p) as [[|]|]; try reflexivity. contradiction.
Qed.

Lemma stored_not_asset : stored_executable_name <> RELEASE_ASSET_NAME.
Proof. intros H. vm_compute in H. discriminate. Qed.

Section UpdateRun.
Variable gbk : N -> option (Byte.byte * Byte.byte).
Variable ZipFile : content -> result archive.
Variables (v : str) (w : world) (data : bytes) (arch : archive).
Hypothesis Hrows : has_rows gbk gbk_rows_of_name.
Hypothesis Hasset : fst (get_latest_released_asset RELEASE_ASSET_NAME w) = Ok data.
Hypothesis Hzip : ZipFile (Raw data) = Ok arch.

Lemma update_extract :
  update gbk ZipFile v w =
  let '(r, w2) :=
    (ZipFile_extract arch stored_executable_name (Temp, []) ;;
     let* cwd0 := Path_cwd in
     shutil_move (os w) (Temp, [stored_executable_name])
        (joinpath (os w) cwd0 (versioned_executable_name (os w) v)))
      (set_fs (downloaded w data) w) in
  (r, set_fs (outside_temp (fs w2)) w2).
Proof.
  unfold update, with_TemporaryDirectory.
  unfold bind at 1. unfold get_os at 1. cbn [os set_fs].
  rewrite asset_path.
  unfold bind at 1. rewrite get_asset_set_fs, Hasset.
  unfold bind at 1. unfold write_bytes.
  rewrite create_file_ok; cycle 1.
  { cbn [fs set_fs parent fst snd removelast]. apply lookup_insert_eq. }
  { cbn [fs set_fs]. rewrite lookup_insert_ne by discriminate.
    now rewrite outside_temp_Temp. }
  cbn [fs set_fs].
  unfold bind at 1. unfold lift at 1.
  rewrite (transformed_executable_name_rows gbk Hrows).
  unfold bind at 1. unfold bind at 1. unfold read_file at 1. cbn [fs set_fs].
  rewrite lookup_insert_eq. unfold lift at 1. rewrite Hzip.
  rewrite stored_path.
  reflexivity.
Qed.

Lemma outside_temp_downloaded : outside_temp (downloaded w data) = outside_temp (fs w).
Proof.
  unfold downloaded. now rewrite !outside_temp_insert_Temp, outside_temp_idem.
Qed.

Lemma update_missing_member :
  arch !! stored_executable_name = None ->
  update gbk ZipFile v w
  = (Raise (KeyError stored_executable_name), set_fs (outside_temp (fs w)) w).
Proof.
  intros Hnone. rewrite update_extract.
  unfold bind at 1. unfold ZipFile_extract. rewrite Hnone.
  unfold raise. cbn [fs set_fs]. now rewrite outside_temp_downloaded.
Qed.

Lemma update_moves member :
  arch !! stored_executable_name = Some member ->
  let dst := joinpath (os w) (Disk, cwd w) (versioned_executable_name (os w) v) in
  fs w !! parent dst = Some Dir ->
  fs w !! dst <> Some Dir ->
  update gbk ZipFile v w
  = (Ok tt, set_fs (<[dst := File (Raw member)]> (outside_temp (fs w))) w).
Proof.
  intros Hsome dst Hparent Hdst. rewrite update_extract.
  unfold bind at 1. unfold ZipFile_extract. rewrite Hsome.
  cbn [os set_fs]. rewrite stored_target. cbn [removelast makedirs fs set_fs fst snd app].
  rewrite create_file_ok; cycle 1.
  { cbn [fs set_fs parent fst snd removelast]. unfold downloaded.
    rewrite lookup_insert_ne by discriminate. apply lookup_insert_eq. }
  { cbn [fs set_fs]. unfold downloaded.
    rewrite lookup_insert_ne
      by (intros [= H]; apply stored_not_asset; now symmetry).
    rewrite lookup_insert_ne by discriminate.
    now rewrite outside_temp_Temp. }
  cbn [fs set_fs].
  unfold bind at 1. unfold Path_cwd at 1. cbn [cwd set_fs]. fold dst.
  assert (Hroot : fst dst = Disk) by apply joinpath_cwd_Disk.
  destruct dst as [r l] eqn:Edst. simpl in Hroot. subst r.
  assert (Hlook : forall q : path, fst q = Disk ->
    (<[(Temp, [stored_executable_name]) := File (Raw member)]> (downloaded w data)) !! q
    = fs w !! q).
  { intros [r l'] Hr. simpl in Hr. subst r. unfold downloaded.
    rewrite !lookup_insert_ne by discriminate. apply outside_temp_Disk. }
  unfold shutil_move. cbn [fs set_fs].
  rewrite lookup_insert_eq.
  rewrite (Hlook (Disk, l)) by reflexivity.
  rewrite (Hlook (parent (Disk, l))) by reflexivity.
  rewrite Hparent.
  destruct (fs w !! (Disk, l)) as [[c|]|] eqn:Efs; [ | now contradiction Hdst | ];
    cbn [fs set_fs];
    rewrite outside_temp_insert_Disk, outside_temp_delete_Temp,
            outside_temp_insert_Temp, outside_temp_downloaded; reflexivity.
Qed.
End UpdateRun.

(** ** The console during the update *)

Create HintDb console.

Lemma console_ret {A} (a : A) : console_untouched (ret a).
Proof. now intros w. Qed.

Lemma console_raise {A} e : console_untouched (raise (A := A) e).
Proof. now intros w. Qed.

Lemma console_lift {A} (r : result A) : console_untouched (lift r).
Proof. now intros w. Qed.

Lemma console_bind {A B} (c : M A) (k : A -> M B) :
  console_untouched c -> (forall a, console_untouched (k a)) ->
  console_untouched (bind c k).
Proof.
  intros Hc Hk w. unfold bind. specialize (Hc w).
  destruct (c w) as [[a | e] w1]; simpl in *; [|exact Hc].
  destruct (Hk a w1) as [H1 H2]. rewrite H1, H2. exact Hc.
Qed.

Lemma console_get_os : console_untouched get_os.
Proof. now intros w. Qed.

Lemma console_Path_cwd : console_untouched Path_cwd.
Proof. now intros w. Qed.

Lemma console_get_asset name : console_untouched (get_latest_released_asset name).
Proof. now intros w. Qed.

Lemma console_create_file p c : console_untouched (create_file p c).
Proof.
  intros w. unfold create_file.
  destruct (fs w !! parent p) as [[|]|]; try easy.
  destruct (fs w !! p) as [[|]|]; easy.
Qed.

Lemma console_write_bytes p data : console_untouched (write_bytes p data).
Proof. apply console_create_file. Qed.

Lemma console_read_file p : console_untouched (read_file p).
Proof. intros w. unfold read_file. destruct (fs w !! p) as [[|]|]; easy. Qed.

Lemma console_extract f member target :
  console_untouched (ZipFile_extract f member target).
Proof.
  unfold ZipFile_extract. destruct (f !! member); [|apply console_raise].
  intros w. destruct (makedirs _ _ _); [|easy].
  apply (console_create_file _ _ (set_fs _ w)).
Qed.

Lemma console_shutil_move o src dst : console_untouched (shutil_move o src dst).
Proof.
  intros w. unfold shutil_move.
  destruct (fs w !! src); [|easy].
  destruct (fs w !! dst) as [[|]|].
  - destruct (fs w !! parent dst) as [[|]|]; easy.
  - destruct (fs w !! _); easy.
  - destruct (fs w !! parent dst) as [[|]|]; easy.
Qed.

Lemma console_TemporaryDirectory {A} (body : path -> M A) :
  (forall d, console_untouched (body d)) ->
  console_untouched (with_TemporaryDirectory body).
Proof.
  intros Hbody w. unfold with_TemporaryDirectory.
  specialize (Hbody (Temp, []) (set_fs (<[(Temp, []) := Dir]> (outside_temp (fs w))) w)).
  destruct (body _ _) as [r w2]. exact Hbody.
Qed.

#[local] Hint Resolve console_ret console_raise console_lift console_bind
  console_get_os console_Path_cwd console_get_asset console_write_bytes
  console_read_file console_extract console_shutil_move
  console_TemporaryDirectory : console.

Lemma console_update gbk ZipFile v : console_untouched (update gbk ZipFile v).
Proof. unfold update. auto 20 with console. Qed.

(** ** The dialogue *)

Section Dialogue.
Variable gbk : N -> option (Byte.byte * Byte.byte).
Variable ZipFile : content -> result archive.
Variables green red : str -> str.

(** The dialogue begins by showing the prompt. *)
Lemma ask_update_prompt v lines : forall w,
  exists more,
    stdout (snd (ask_update gbk ZipFile green red v lines w))
    = stdout w ++ update_prompt green red v :: more.
Proof.
  induction lines as [|line lines IH]; intros w; cbn [ask_update].
  - unfold bind, input. destruct (stdin w); exists []; reflexivity.
  - unfold bind at 1. unfold input.
    destruct (stdin w) as [|answer rest]; [exists []; reflexivity|].
    destruct (str_eqb (strip answer) (utf8 "是")).
    + exists []. unfold bind.
      pose proof (console_update gbk ZipFile v
        (set_stdin rest (set_stdout (stdout w ++ [update_prompt green red v]) w))) as [H _].
      destruct (update gbk ZipFile v _) as [[[]|e] w1]; exact H.
    + destruct (str_eqb (strip answer) (utf8 "否")); [exists []; reflexivity|].
      unfold bind, print.
      match goal with |- context [ask_update _ _ _ _ _ _ ?w1] => destruct (IH w1) as [more H] end.
      rewrite H. cbn [stdout set_stdout set_stdin].
      eexists. rewrite <- !app_assoc. reflexivity.
Qed.

Lemma parse_version_number_local : parse_version_number __version__ = Ok (0, 2, 0)%Z.
Proof. vm_compute. reflexivity. Qed.

(** [check_update] opens the dialogue exactly when Python finds the
    remote tuple greater than the local one. *)
Lemma check_update_cases w rel remote :
  releases_latest w = Ok rel ->
  parse_version_number (tag_name rel) = Ok remote ->
  check_update gbk ZipFile green red w
  = if tuple_gt (tuple3 remote) (tuple3 (0, 2, 0)%Z)
    then ask_update gbk ZipFile green red (tag_name rel) (stdin w) w
    else (Ok tt, w).
Proof.
  intros Hrel Hparse. unfold check_update, bind, get_latest_released_version, lift.
  rewrite Hrel. cbn [rbind]. rewrite Hparse, parse_version_number_local.
  now destruct (tuple_gt _ _).
Qed.

End Dialogue.

End UpdateFacts.

(* ===================================================================== *)
(** * The export *)
(* ===================================================================== *)

Module ExportFacts.

(** ** Loops *)

Lemma for_each_collect {A B S'} (p : A -> B) (g : A -> result S')
    (body : B -> list S' -> result (list S')) (items : list A) :
  Forall (fun item => forall ws, body (p item) ws
                      = let! c := g item in Ok (ws ++ [c])) items ->
  forall ws, for_each (map p items) body ws
             = let! cells := collect g items in Ok (ws ++ cells).
Proof.
  induction 1 as [|item items Hitem _ IH]; intros ws; simpl.
  - now rewrite app_nil_r.
  - rewrite Hitem. destruct (g item) as [c|e]; simpl; [|reflexivity].
    rewrite IH. destruct (collect g items) as [cells|e]; simpl; [|reflexivity].
    now rewrite <- app_assoc.
Qed.

Lemma collect_Ok {A B} (f : A -> result B) l ys :
  collect f l = Ok ys -> Forall2 (fun x y => f x = Ok y) l ys.
Proof.
  revert ys. induction l as [|x l IH]; simpl; intros ys.
  - intros [= <-]. constructor.
  - destruct (f x) as [y|e] eqn:E; simpl; [|discriminate].
    destruct (collect f l) as [ys'|e]; simpl; [|discriminate].
    intros [= <-]. constructor; auto.
Qed.

Lemma collect_Raise {A B} (f : A -> result B) l e :
  collect f l = Raise e -> exists x, In x l /\ f x = Raise e.
Proof.
  induction l as [|x l IH]; simpl; [discriminate|].
  destruct (f x) as [y|e'] eqn:E; simpl.
  - destruct (collect f l) as [ys'|e'']; simpl; [discriminate|].
    intros [= <-]. destruct IH as (x' & Hin & Hx'); eauto.
  - intros [= <-]. eauto.
Qed.

Lemma collect_fails {A B} (f : A -> result B) l x e :
  In x l -> f x = Raise e -> exists e', collect f l = Raise e'.
Proof.
  induction l as [|y l IH]; simpl; [contradiction|].
  intros [-> | Hin] Hx.
  - rewrite Hx. simpl. eauto.
  - destruct (f y); simpl; [|eauto].
    destruct (IH Hin Hx) as [e' ->]. simpl. eauto.
Qed.

(** ** One record *)

Lemma schema_fields : map fst schema = enumerate fieldnames.
Proof. reflexivity. Qed.

Lemma write_field_export row info :
  Forall (fun field => forall ws,
            write_field row info (fst (fst field)) (snd (fst field)) ws
            = let! c := export_field info (row + 1) field in Ok (ws ++ [c]))
         schema.
Proof.
  set (sch := schema). vm_compute in sch. subst sch.
  repeat (constructor;
    [ intros ws'; cbn [fst snd]; unfold write_field, export_field, getitem;
      destruct (info !! _) as [v|]; cbn [rbind]; [|reflexivity];
      match goal with
      | |- context [list_getitem ?l ?i] =>
          let r := eval vm_compute in (list_getitem l i) in
          change (list_getitem l i) with r
      end;
      cbn [rbind ExcelCellDataType.eqb export_cell]
    | ]).
  all: try constructor.
  all: try reflexivity.
  - destruct (strptime_Ymd v); reflexivity.
  - destruct (float v) as [x|]; cbn [rbind]; [|reflexivity].
    unfold ws_write_number. now destruct (isnan x || isinf x).
  - destruct (float v) as [x|]; cbn [rbind]; [|reflexivity].
    unfold ws_write_number. now destruct (isnan x || isinf x).
Qed.

(** The fields of a record are exported in the order of the schema, up
    to the first that fails. *)
Lemma write_row_collect row info ws :
  write_row row info ws
  = let! cells := collect (export_field info (row + 1)) schema in
    Ok (ws ++ cells).
Proof.
  unfold write_row. rewrite <- schema_fields.
  rewrite <- (for_each_collect fst (export_field info (row + 1))
                (fun '(col, fieldname) ws => write_field row info col fieldname ws)).
  - reflexivity.
  - pose proof (write_field_export row info) as H.
    eapply Forall_impl; [exact H|].
    intros [[col name] ty] Hf ws'. exact (Hf ws').
Qed.

(** ** All records *)

Lemma for_each_collect_rows {A S'} (g : A -> result (list S'))
    (body : A -> list S' -> result (list S')) (items : list A) :
  Forall (fun item => forall ws, body item ws
                      = let! cs := g item in Ok (ws ++ cs)) items ->
  forall ws, for_each items body ws
             = let! rows := collect g items in Ok (ws ++ concat rows).
Proof.
  induction 1 as [|item items Hitem _ IH]; intros ws; simpl.
  - now rewrite app_nil_r.
  - rewrite Hitem. destruct (g item) as [cs|e]; simpl; [|reflexivity].
    rewrite IH. destruct (collect g items) as [rows|e]; simpl; [|reflexivity].
    now rewrite <- app_assoc.
Qed.

Lemma write_body_collect infos ws :
  write_body infos ws = let! rows := export_rows 0 infos in Ok (ws ++ concat rows).
Proof.
  unfold write_body, export_rows, enumerate.
  apply for_each_collect_rows.
  apply List.Forall_forall. intros [row info] _ ws'. apply write_row_collect.
Qed.

(** ** What can go wrong *)

Lemma int_raises s e : int s = Raise e -> exists msg, e = ValueError msg.
Proof.
  unfold int. destruct (re_fullmatch _ _) as [m|]; [|intros [= <-]; eauto].
  destruct (group m "digits"); [discriminate | intros [= <-]; eauto].
Qed.

Lemma float_raises v e : float v = Raise e -> exists msg, e = ValueError msg.
Proof.
  unfold float. destruct (re_fullmatch _ _) as [m|]; [|intros [= <-]; eauto].
  destruct (is_group m "nan"); [discriminate|].
  destruct (is_group m "inf"); [discriminate|].
  destruct (rounds_to_inf _ _); discriminate.
Qed.

Lemma make_datetime_raises y m d e :
  make_datetime y m d = Raise e -> exists msg, e = ValueError msg.
Proof.
  unfold make_datetime.
  repeat match goal with |- context [if ?b then _ else _] => destruct b end;
    intros [= <-]; eauto.
Qed.

Lemma strptime_raises v e : strptime_Ymd v = Raise e -> exists msg, e = ValueError msg.
Proof.
  unfold strptime_Ymd. destruct (re_match _ _) as [m|]; [|intros [= <-]; eauto].
  destruct (m_rest m); [|intros [= <-]; eauto].
  destruct (int (group_or_empty m "Y")) as [y|e1] eqn:E1; cbn [rbind];
    [|intros [= <-]; eapply int_raises; eauto].
  destruct (int (group_or_empty m "m")) as [mo|e2] eqn:E2; cbn [rbind];
    [|intros [= <-]; eapply int_raises; eauto].
  destruct (int (group_or_empty m "d")) as [d|e3] eqn:E3; cbn [rbind];
    [|intros [= <-]; eapply int_raises; eauto].
  apply make_datetime_raises.
Qed.

Lemma export_field_raises info row field e :
  export_field info row field = Raise e -> export_failure e.
Proof.
  destruct field as [[col name] ty]. unfold export_field.
  destruct (info !! name) as [v|]; [|intros [= <-]; exact I].
  destruct ty; simpl.
  - discriminate.
  - destruct (strptime_Ymd v) as [d|e'] eqn:E; simpl; [discriminate|].
    intros [= <-]. apply strptime_raises in E as [msg ->]. exact I.
  - destruct (float v) as [x|e'] eqn:E; simpl.
    + destruct (isnan x || isinf x); [|discriminate]. intros [= <-]. exact I.
    + intros [= <-]. apply float_raises in E as [msg ->]. exact I.
Qed.

Lemma export_field_body_call info row field c :
  export_field info (row + 1) field = Ok c -> body_call c.
Proof.
  destruct field as [[col name] ty]. unfold export_field.
  destruct (info !! name) as [v|]; [|discriminate].
  destruct ty; simpl.
  - intros [= <-]. simpl. lia.
  - destruct (strptime_Ymd v); simpl; [|discriminate]. intros [= <-]. simpl. lia.
  - destruct (float v) as [x|]; simpl; [|discriminate].
    destruct (isnan x || isinf x); [discriminate|]. intros [= <-]. simpl. lia.
Qed.

Lemma export_rows_raises i infos e : export_rows i infos = Raise e -> export_failure e.
Proof.
  unfold export_rows. intros H.
  apply collect_Raise in H as ([row info] & _ & H).
  apply collect_Raise in H as (field & _ & H).
  eapply export_field_raises; eauto.
Qed.

Lemma export_rows_body_calls i infos rows :
  export_rows i infos = Ok rows -> Forall body_call (concat rows).
Proof.
  unfold export_rows. intros H. apply collect_Ok in H.
  induction H as [|[row info] cells items rows Hrow _ IH]; simpl; [constructor|].
  apply Forall_app. split; [|exact IH].
  apply collect_Ok in Hrow.
  induction Hrow as [|field c fields cells Hc _ IH']; constructor; auto.
  eapply export_field_body_call; eauto.
Qed.

(** ** The whole export *)

Lemma create_file_cases p c w :
  create_file p c w = (Ok tt, set_fs (<[p := File c]> (fs w)) w)
  \/ exists msg, create_file p c w = (Raise (OSError msg), w).
Proof.
  unfold create_file.
  destruct (fs w !! parent p) as [[|]|]; eauto.
  destruct (fs w !! p) as [[|]|]; eauto.
Qed.

Lemma write_to_xlsx_try_eq infos xlsx_filename w :
  write_to_xlsx_try infos xlsx_filename w
  = match export_rows 0 infos with
    | Raise e => (Raise e, announced w)
    | Ok rows =>
        Workbook_close xlsx_filename (header_sheet ++ concat rows) (announced w)
    end.
Proof.
  unfold write_to_xlsx_try, bind, print, lift. cbn [fst snd].
  fold header_sheet. rewrite write_body_collect.
  destruct (export_rows 0 infos); reflexivity.
Qed.

(** A failure in the body: the export raises the wrapped error and has
    only printed its progress. *)
Lemma write_to_xlsx_body_fails infos xlsx_filename w e :
  export_rows 0 infos = Raise e ->
  write_to_xlsx infos xlsx_filename w
  = (Raise (RuntimeError_from export_error_message e), announced w).
Proof.
  intros H. pose proof (export_rows_raises _ _ _ H) as He.
  unfold write_to_xlsx, try_except. rewrite write_to_xlsx_try_eq, H.
  destruct e; try contradiction; reflexivity.
Qed.

(** With every cell written, the export stands or falls with the
    creation of the file. *)
Lemma write_to_xlsx_close infos xlsx_filename w rows :
  export_rows 0 infos = Ok rows ->
  let sheet := header_sheet ++ concat rows in
  let target := destination w xlsx_filename in
  match create_file target (Spreadsheet sheet) (announced w) with
  | (Ok _, w') =>
      write_to_xlsx infos xlsx_filename w = (Ok tt, w')
      /\ w' = set_fs (<[target := File (Spreadsheet sheet)]> (fs w)) (announced w)
  | (Raise e, w') =>
      write_to_xlsx infos xlsx_filename w
      = (Raise (RuntimeError_from export_error_message (FileCreateError e)), announced w)
      /\ w' = announced w
  end.
Proof.
  intros H sheet target.
  unfold write_to_xlsx, try_except. rewrite write_to_xlsx_try_eq, H.
  unfold Workbook_close. fold (destination (announced w) xlsx_filename).
  change (destination (announced w) xlsx_filename) with target. fold sheet.
  destruct (create_file_cases target (Spreadsheet sheet) (announced w))
    as [-> | [msg ->]]; split; reflexivity.
Qed.

(** Whatever fails, the files are as they were. *)
Lemma write_to_xlsx_failure infos xlsx_filename w e w' :
  write_to_xlsx infos xlsx_filename w = (Raise e, w') ->
  exists cause,
    e = RuntimeError_from export_error_message cause
    /\ fst (write_to_xlsx_try infos xlsx_filename w) = Raise cause
    /\ export_failure cause
    /\ w' = announced w.
Proof.
  intros H. destruct (export_rows 0 infos) as [rows|cause] eqn:E.
  - pose proof (write_to_xlsx_close infos xlsx_filename w rows E) as Hclose.
    cbv zeta in Hclose. rewrite write_to_xlsx_try_eq, E. unfold Workbook_close.
    fold (destination (announced w) xlsx_filename).
    change (destination (announced w) xlsx_filename) with (destination w xlsx_filename).
    destruct (create_file _ _ _) as [[[]|e0] w0].
    + destruct Hclose as [Hrun _]. rewrite Hrun in H. discriminate.
    + destruct Hclose as [Hrun ->]. rewrite Hrun in H. injection H as <- <-.
      exists (FileCreateError e0). repeat split.
  - rewrite (write_to_xlsx_body_fails _ _ _ _ E) in H. injection H as <- <-.
    exists cause. rewrite write_to_xlsx_try_eq, E. repeat split.
    eapply export_rows_raises; eauto.
Qed.

(** ** A number that cannot be read *)

Lemma float_abc : float (utf8 "abc") = Raise (ValueError "could not convert string to float").
Proof. vm_compute. reflexivity. Qed.

Lemma In_enumerate_from {A} (x : A) l : forall i,
  In x l -> exists row, In (row, x) (enumerate_from i l).
Proof.
  induction l as [|y l IH]; intros i; simpl; [contradiction|].
  intros [-> | Hin]; [eauto|].
  destruct (IH (i + 1) Hin) as [row Hrow]. eauto.
Qed.

Lemma export_rows_unreadable_number i infos info col name :
  In info infos -> In (col, name, ExcelCellDataType.number) schema ->
  info !! name = Some (utf8 "abc") ->
  exists cause, export_rows i infos = Raise cause.
Proof.
  intros Hinfo Hfield Hvalue.
  destruct (In_enumerate_from info infos i Hinfo) as [row Hrow].
  assert (Hcell : export_field info (row + 1) (col, name, ExcelCellDataType.number)
                  = Raise (ValueError "could not convert string to float")).
  { unfold export_field. rewrite Hvalue. unfold export_cell. now rewrite float_abc. }
  destruct (collect_fails _ _ _ _ Hfield Hcell) as [e He].
  unfold export_rows.
  eapply (collect_fails _ _ (row, info)); [exact Hrow | exact He].
Qed.

(** ** The header *)

Lemma last_of_app {A} (f : call -> option A) ws ws' :
  last_of f (ws ++ ws')
  = match last_of f ws' with Some a => Some a | None => last_of f ws end.
Proof.
  induction ws as [|k ws IH]; simpl.
  - now destruct (last_of f ws').
  - rewrite IH. now destruct (last_of f ws').
Qed.

Lemma last_of_None {A} (f : call -> option A) ws :
  Forall (fun k => f k = None) ws -> last_of f ws = None.
Proof. induction 1 as [|k ws Hk _ IH]; simpl; [reflexivity|]. now rewrite IH. Qed.

Lemma body_call_cell_of c k : body_call k -> cell_of 0 c k = None.
Proof.
  destruct k; simpl; try contradiction; intros H;
    (replace (row =? 0) with false by (symmetry; apply N.eqb_neq; lia));
    reflexivity.
Qed.

Lemma body_call_width_of c k : body_call k -> width_of c k = None.
Proof. destruct k; simpl; try contradiction; reflexivity. Qed.

(** The body leaves the header row and the widths as they are. *)
Lemma body_keeps_header sheet cells c :
  Forall body_call cells ->
  cell (sheet ++ cells) 0 c = cell sheet 0 c
  /\ column_width (sheet ++ cells) c = column_width sheet c.
Proof.
  intros H. unfold cell, column_width. rewrite !last_of_app.
  assert (H1 : last_of (cell_of 0 c) cells = None).
  { apply last_of_None. eapply Forall_impl; [exact H|].
    intros k. apply body_call_cell_of. }
  assert (H2 : last_of (width_of c) cells = None).
  { apply last_of_None. eapply Forall_impl; [exact H|].
    intros k. apply body_call_width_of. }
  now rewrite H1, H2.
Qed.

Lemma header_sheet_columns :
  Forall (fun field : N * str * ExcelCellDataType.t =>
            let '(col, name, ty) := field in
            cell header_sheet 0 col = Some (write 0 col name header_format)
            /\ column_width header_sheet col = width_hint name ty)
         schema.
Proof.
  set (sch := schema). vm_compute in sch. subst sch.
  repeat (constructor; [split; vm_compute; reflexivity|]). constructor.
Qed.

Lemma header_sheet_beyond col :
  9 <= col -> cell header_sheet 0 col = None /\ column_width header_sheet col = None.
Proof.
  intros H.
  assert (E : forall i, i < 9 -> (i =? col) = false) by (intros; apply N.eqb_neq; lia).
  assert (E' : forall i, i < 9 -> (col <=? i) = false) by (intros; apply N.leb_gt; lia).
  set (sheet := header_sheet). vm_compute in sheet. subst sheet.
  unfold cell, column_width. cbn [last_of cell_of width_of].
  rewrite !E, !E' by lia. rewrite !andb_false_r. split; reflexivity.
Qed.

Ltac header_clause :=
  first
    [ reflexivity
    | match goal with H : _ = _ |- _ => vm_compute in H; discriminate H end
    | match goal with H : ~ In _ _ |- _ => exfalso; apply H; vm_compute; tauto end
    | match goal with H : _ <> _ |- _ => exfalso; apply H; reflexivity end ].

Lemma width_hint_rules sheet :
  Forall (fun field : N * str * ExcelCellDataType.t =>
            let '(col, name, ty) := field in
            cell sheet 0 col = Some (write 0 col name header_format)
            /\ column_width sheet col = width_hint name ty)
         schema ->
  Forall (header_column sheet) schema.
Proof.
  set (sch := schema). vm_compute in sch. subst sch.
  intros H.
  repeat (let Hcell := fresh "Hcell" in
          let Hwidth := fresh "Hwidth" in
          apply Forall_cons in H as [[Hcell Hwidth] H]; apply Forall_cons; split;
          [ unfold header_column; split; [exact Hcell|];
            rewrite Hwidth; vm_compute width_hint;
            repeat split; intros; header_clause
          | clear Hcell Hwidth ]).
  constructor.
Qed.

End ExportFacts.

(* ===================================================================== *)
(** * Fund codes and release assets *)
(* ===================================================================== *)

Module InputFacts.
Import ReFacts BuiltinFacts VersionFacts.

Lemma six_digitsb_spec code : six_digitsb code = true <-> six_digits code.
Proof.
  unfold six_digitsb, six_digits, digit_run.
  rewrite andb_true_iff, Nat.eqb_eq, forallb_forall, List.Forall_forall. tauto.
Qed.

Lemma matches_code_pattern code : matches code_pattern code -> six_digits code.
Proof.
  unfold code_pattern. cbn [Repeat]. intros H.
  repeat (apply matches_Cat_inv in H as (? & ? & -> & ?%matches_Digit_inv & H)).
  inversion H; subst.
  repeat match goal with Hd : exists c, _ |- _ => destruct Hd as (? & -> & ?) end.
  split; [reflexivity|]. cbn [app]. repeat constructor; assumption.
Qed.

Lemma fullmatch_code_pattern code :
  (exists m, re_fullmatch code_pattern code = Some m) <-> six_digits code.
Proof.
  split.
  - intros [m Hm]. apply re_fullmatch_sound in Hm. now apply matches_code_pattern.
  - intros [Hlen Hds].
    do 6 (destruct code as [|? code]; [discriminate|]).
    destruct code; [|discriminate].
    repeat (apply Forall_cons in Hds as [? Hds]).
    unfold re_fullmatch, code_pattern. cbn [Repeat].
    repeat (rewrite run_Cat, run_Digit_head by assumption).
    rewrite run_Eps. eauto.
Qed.

(** The cleaning step is the filter on six decimal digits. *)
Lemma clean_codes_filter codes : clean_codes codes = List.filter six_digitsb codes.
Proof.
  unfold clean_codes. apply filter_ext. intros code.
  destruct (six_digitsb code) eqn:E.
  - apply six_digitsb_spec, fullmatch_code_pattern in E as [m ->]. reflexivity.
  - destruct (re_fullmatch code_pattern code) as [m|] eqn:Em; [|reflexivity].
    assert (H : six_digitsb code = true)
      by (apply six_digitsb_spec, fullmatch_code_pattern; eauto).
    congruence.
Qed.

Lemma six_ascii_is_six_digits code : six_ascii_digits code -> six_digits code.
Proof.
  intros [Hlen H]. split; [exact Hlen|].
  eapply Forall_impl; [exact H|]. intros c. apply ascii_digit_is_decimal.
Qed.

(** ** Assets *)

Lemma count_named_filter name l :
  length (List.filter (fun a => str_eqb (asset_name a) name) l) = count_named name l.
Proof.
  induction l as [|a l IH]; simpl; [reflexivity|].
  destruct (str_eqb (asset_name a) name); simpl; now rewrite IH.
Qed.

End InputFacts.

(* ===================================================================== *)
(** * More on the matcher: what it finds, and where the groups come from *)
(* ===================================================================== *)

Module MatcherFacts.
Import ReFacts.

#[local] Hint Constructors matches : core.

Lemma orelse_is_Some_l {R} (a b : option R) : is_Some a -> is_Some (orelse a b).
Proof. intros [x ->]. simpl. eauto. Qed.

Lemma orelse_is_Some_r {R} (a b : option R) : is_Some b -> is_Some (orelse a b).
Proof. intros Hb. destruct a; simpl; eauto. Qed.

(** Completeness of the matcher: when the pattern describes a prefix of
    the text and the continuation accepts what follows, the matcher has
    an answer.  For a star the same holds of the iteration with any fuel
    that covers the text. *)
Lemma run_complete_star {R} r pre :
  matches r pre ->
  (forall s' g (k : str -> groups -> option R),
     (forall g', is_Some (k s' g')) -> is_Some (run r (pre ++ s') g k))
  /\ (forall r1, r = Star r1 ->
      forall fuel s' g (k : str -> groups -> option R),
        (length (pre ++ s') <= fuel)%nat ->
        (forall g', is_Some (k s' g')) ->
        is_Some (iterate (run r1) k fuel (pre ++ s') g)).
Proof.
  induction 1 as [ | c | lo hi x Hx | x Hx | r1 r2 s1 s2 H1 IH1 H2 IH2
                 | r1 r2 s H1 IH1 | r1 r2 s H1 IH1 | r
                 | r s1 s2 H1 IH1 H2 IH2 | name r s H1 IH1 ].
  - split; [|discriminate]. intros s' g k Hk. apply Hk.
  - split; [|discriminate]. intros s' g k Hk. cbn [app run].
    rewrite N.eqb_refl. apply Hk.
  - split; [|discriminate]. intros s' g k Hk. cbn [app run].
    destruct Hx as [Hlo Hhi]. apply N.leb_le in Hlo, Hhi. rewrite Hlo, Hhi. apply Hk.
  - split; [|discriminate]. intros s' g k Hk. cbn [app run]. rewrite Hx. apply Hk.
  - split; [|discriminate]. intros s' g k Hk. cbn [run]. rewrite <- app_assoc.
    apply (proj1 IH1). intros g'. now apply (proj1 IH2).
  - split; [|discriminate]. intros s' g k Hk. cbn [run].
    apply orelse_is_Some_l. now apply (proj1 IH1).
  - split; [|discriminate]. intros s' g k Hk. cbn [run].
    apply orelse_is_Some_r. now apply (proj1 IH1).
  - assert (Hstar : forall fuel s' g (k : str -> groups -> option R),
              (forall g', is_Some (k s' g')) ->
              is_Some (iterate (run r) k fuel ([] ++ s') g)).
    { intros fuel s' g k Hk. destruct fuel; cbn [iterate app]; [apply Hk|].
      apply orelse_is_Some_r, Hk. }
    split.
    + intros s' g k Hk. cbn [run]. now apply Hstar.
    + intros r1 [= <-] fuel s' g k _ Hk. now apply Hstar.
  - assert (Hstar : forall fuel s' g (k : str -> groups -> option R),
              (length ((s1 ++ s2) ++ s') <= fuel)%nat ->
              (forall g', is_Some (k s' g')) ->
              is_Some (iterate (run r) k fuel ((s1 ++ s2) ++ s') g)).
    { intros fuel s' g k Hfuel Hk.
      destruct s1 as [|c s1].
      - cbn [app] in *. now apply (proj2 IH2 r eq_refl).
      - destruct fuel as [|fuel]; [cbn in Hfuel; lia|].
        cbn [iterate]. apply orelse_is_Some_l.
        rewrite <- app_assoc. apply (proj1 IH1). intros g'.
        assert (E : (length (s2 ++ s') <? length ((c :: s1) ++ s2 ++ s'))%nat = true).
        { apply Nat.ltb_lt. rewrite !length_app. cbn [length]. lia. }
        rewrite E. apply (proj2 IH2 r eq_refl); [|exact Hk].
        rewrite <- app_assoc in Hfuel. rewrite !length_app in *. cbn [length] in Hfuel. lia. }
    split.
    + intros s' g k Hk. cbn [run]. now apply Hstar.
    + intros r1 [= <-]. exact Hstar.
  - split; [|discriminate]. intros s' g k Hk. cbn [run].
    apply (proj1 IH1). intros g'. apply Hk.
Qed.

Lemma run_complete {R} r pre s' g (k : str -> groups -> option R) :
  matches r pre -> (forall g', is_Some (k s' g')) -> is_Some (run r (pre ++ s') g k).
Proof. intros H. now apply (run_complete_star r pre H). Qed.

(** [re.fullmatch] finds a match exactly of the texts the pattern
    describes. *)
Lemma re_fullmatch_iff r s : is_Some (re_fullmatch r s) <-> matches r s.
Proof.
  split.
  - intros [m Hm]. now apply re_fullmatch_sound in Hm.
  - intros H. unfold re_fullmatch. rewrite <- (app_nil_r s).
    apply run_complete; [exact H|]. intros g'. eauto.
Qed.

(** ** Patterns without groups *)




End MatcherFacts.

(* ===================================================================== *)
(** * What [float] reads *)
(* ===================================================================== *)

Module FloatFacts.
Import ReFacts BuiltinFacts MatcherFacts.





Lemma float_fails v :
  ~ float_text v -> float v = Raise (ValueError "could not convert string to float").
Proof.
  unfold float, float_text. rewrite <- re_fullmatch_iff. intros H.
  destruct (re_fullmatch float_pattern (strip_with is_float_space v)) as [m|];
    [|reflexivity].
  contradiction H. eauto.
Qed.




Lemma dot_not_decimal : is_decimal dot = false.
Proof. reflexivity. Qed.








End FloatFacts.

(* ===================================================================== *)
(** * What [strptime] reads under [%Y-%m-%d] *)
(* ===================================================================== *)

Module DateFacts.
Import ReFacts BuiltinFacts VersionFacts MatcherFacts FloatFacts.







(** ** The parts of a text of the format *)









(** ** What is read is a date written in the format *)




(** ** A date written with four, two and two ASCII digits is read *)









End DateFacts.

(* ===================================================================== *)
(** * The properties of the program *)
(* ===================================================================== *)

Import ReFacts BuiltinFacts VersionFacts UpdateFacts ExportFacts InputFacts.

(** ** Version numbers *)

(** C1, as amended.  A text that begins with the shape [v?M.N.P], the
    digits of [P] running up to the first character that is not a digit,
    parses to the three numbers, whatever follows them; in particular so
    does every text that is of the shape.  A text with a prefix of the
    shape always parses, and a text without one fails: [re.match] gives
    [None] and the access to its groups raises. *)
Theorem parse_version_number_prefix (s : str) :
  (forall pre rest ma mi pa,
     s = pre ++ rest -> version_shape pre ma mi pa -> no_digit_head rest ->
     parse_version_number s = Ok (value ma, value mi, value pa))
  /\ ((exists pre rest ma mi pa, s = pre ++ rest /\ version_shape pre ma mi pa) ->
      exists t, parse_version_number s = Ok t)
  /\ (~ (exists pre rest ma mi pa, s = pre ++ rest /\ version_shape pre ma mi pa) ->
      parse_version_number s = Raise AttributeError).
Proof.
  split; [|split].
  - intros pre rest ma mi pa -> Hshape Hrest. now apply parse_version_shape.
  - intros Hpre.
    destruct (parse_version_number_cases s)
      as [(pre & rest & ma & mi & pa & _ & _ & _ & H) | [_ Hnone]]; [eauto|].
    contradiction.
  - intros Hnone.
    destruct (parse_version_number_cases s)
      as [(pre & rest & ma & mi & pa & Hs & Hshape & _) | [H _]]; [|exact H].
    exfalso. apply Hnone. eauto 10.
Qed.

(** C1, counterexample.  The text [1.2.3abc] is not of the shape
    [v?M.N.P], and yet it parses, to (1, 2, 3). *)
Lemma parse_version_number_trailing_text :
  ~ (exists ma mi pa, version_shape (utf8 "1.2.3abc") ma mi pa)
  /\ parse_version_number (utf8 "1.2.3abc") = Ok (1, 2, 3)%Z.
Proof.
  split; [|vm_compute; reflexivity].
  intros (ma & mi & pa & Hshape).
  apply version_shape_last in Hshape as (s0 & c & Hs & Hc).
  change (utf8 "1.2.3abc") with ([49; 46; 50; 46; 51; 97; 98] ++ [99]) in Hs.
  apply app_inj_tail in Hs as [_ <-].
  vm_compute in Hc. discriminate.
Qed.

(** C7.  Python's [>] on the two triples is the comparison of the
    specification, major before minor before patch; [check_update] shows
    the prompt of the update exactly when the released version compares
    greater than the local one, and otherwise returns at once with the
    world as it was. *)
Theorem update_offered_iff_greater
    (gbk_row : N -> option (Byte.byte * Byte.byte))
    (ZipFile : content -> result archive) (green red : str -> str)
    (w : world) (rel : release) (remote : Z * Z * Z) :
  releases_latest w = Ok rel ->
  parse_version_number (tag_name rel) = Ok remote ->
  (forall a b, tuple_gt (tuple3 a) (tuple3 b) = true <-> compare_version a b = Gt)
  /\ (forall a1 a2 a3 b1 b2 b3,
        compare_version (a1, a2, a3) (b1, b2, b3) = Gt
        <-> (b1 < a1 \/ (a1 = b1 /\ (b2 < a2 \/ (a2 = b2 /\ b3 < a3))))%Z)
  /\ (compare_version remote (0, 2, 0)%Z = Gt
      <-> exists more,
            stdout (snd (check_update gbk_row ZipFile green red w))
            = stdout w ++ update_prompt green red (tag_name rel) :: more)
  /\ (compare_version remote (0, 2, 0)%Z <> Gt ->
      check_update gbk_row ZipFile green red w = (Ok tt, w))
  /\ compare_version (1, 2, 3)%Z (1, 3, 0)%Z = Lt
  /\ compare_version (2, 0, 0)%Z (1, 9, 9)%Z = Gt
  /\ compare_version (1, 0, 0)%Z (1, 0, 0)%Z = Eq.
Proof.
  intros Hrel Hparse.
  pose proof (check_update_cases gbk_row ZipFile green red w rel remote Hrel Hparse)
    as Hrun.
  pose proof (tuple_gt_compare remote (0, 2, 0)%Z) as Hgt.
  split; [exact tuple_gt_compare|]. split.
  { intros. simpl.
    destruct (Z.compare_spec a1 b1); [ | split; [discriminate | lia] | split; [lia | reflexivity] ].
    destruct (Z.compare_spec a2 b2); [ | split; [discriminate | lia] | split; [lia | reflexivity] ].
    destruct (Z.compare_spec a3 b3); split; try discriminate; try lia; reflexivity. }
  split; [|split; [|repeat split]].
  - rewrite Hrun. split.
    + intros H. apply Hgt in H. rewrite H. apply ask_update_prompt.
    + intros [more H]. apply Hgt.
      destruct (tuple_gt (tuple3 remote) (tuple3 (0, 2, 0)%Z)); [reflexivity|].
      simpl in H. apply (f_equal length) in H. rewrite length_app in H.
      simpl in H. lia.
  - intros H. rewrite Hrun.
    destruct (tuple_gt (tuple3 remote) (tuple3 (0, 2, 0)%Z)); [|reflexivity].
    exfalso. apply H, Hgt. reflexivity.
Qed.

(** C7, witness: the sample release is tagged [v0.3.0]. *)
Lemma update_offered_iff_greater_witness :
  releases_latest sample_world = Ok sample_release
  /\ parse_version_number (tag_name sample_release) = Ok (0, 3, 0)%Z
  /\ (compare_version (0, 3, 0)%Z (0, 2, 0)%Z = Gt
      <-> exists more,
            stdout (snd (check_update (rows_only gbk_rows_of_name) sample_ZipFile
                           (fun t => t) (fun t => t) sample_world))
            = stdout sample_world
              ++ update_prompt (fun t => t) (fun t => t) (tag_name sample_release) :: more).
Proof.
  split; [reflexivity|]. split; [vm_compute; reflexivity|].
  apply (update_offered_iff_greater (rows_only gbk_rows_of_name) sample_ZipFile
           (fun t => t) (fun t => t) sample_world sample_release (0, 3, 0)%Z).
  - reflexivity.
  - vm_compute. reflexivity.
Defined.

(** ** The update *)

Lemma encode_gbk_ext gbk gbk' s :
  (forall c, gbk' c = gbk c) -> encode_gbk gbk' s = encode_gbk gbk s.
Proof.
  intros H. induction s as [|c s IH]; simpl; [reflexivity|].
  now rewrite IH, H.
Qed.

(** C2.  The repaired name is a function of the name and of the code
    tables alone: the GBK bytes of the name, read under code page 437.
    For the executable's name it is the stored name
    [╗∙╜≡╨┼╧ó╔·│╔╞≈.exe], and that is the name [update] looks up in
    the archive: without such a member the update stops with the
    [KeyError] of that name, and with one it is that member's content
    which is installed. *)
Theorem name_repair_stored_name (gbk_row : N -> option (Byte.byte * Byte.byte)) :
  has_rows gbk_row gbk_rows_of_name ->
  transformed_executable_name gbk_row = Ok stored_executable_name
  /\ (forall gbk_row', (forall c, gbk_row' c = gbk_row c) ->
        transformed_executable_name gbk_row' = transformed_executable_name gbk_row)
  /\ (forall (ZipFile : content -> result archive) v w data arch,
        fst (get_latest_released_asset RELEASE_ASSET_NAME w) = Ok data ->
        ZipFile (Raw data) = Ok arch ->
        match arch !! stored_executable_name with
        | None =>
            fst (update gbk_row ZipFile v w) = Raise (KeyError stored_executable_name)
        | Some member =>
            let dst := joinpath (os w) (Disk, cwd w) (versioned_executable_name (os w) v) in
            fs w !! parent dst = Some Dir -> fs w !! dst <> Some Dir ->
            exists w', update gbk_row ZipFile v w = (Ok tt, w')
                       /\ fs w' !! dst = Some (File (Raw member))
        end).
Proof.
  intros Hrows. split; [now apply transformed_executable_name_rows|]. split.
  - intros gbk_row' Hext. unfold transformed_executable_name.
    now rewrite (encode_gbk_ext gbk_row gbk_row').
  - intros ZipFile v w data arch Hasset Hzip.
    destruct (arch !! stored_executable_name) as [member|] eqn:E.
    + intros dst Hparent Hdst.
      rewrite (update_moves gbk_row ZipFile v w data arch Hrows Hasset Hzip member E Hparent Hdst).
      eexists. split; [reflexivity|]. cbn [fs set_fs]. apply lookup_insert_eq.
    + now rewrite (update_missing_member gbk_row ZipFile v w data arch Hrows Hasset Hzip E).
Qed.

(** C2, witness: the table made of the seven rows of the name. *)
Lemma name_repair_stored_name_witness :
  has_rows (rows_only gbk_rows_of_name) gbk_rows_of_name
  /\ transformed_executable_name (rows_only gbk_rows_of_name) = Ok stored_executable_name.
Proof.
  split; [exact rows_only_name|].
  exact (proj1 (name_repair_stored_name (rows_only gbk_rows_of_name) rows_only_name)).
Defined.

(** C8.  The installed file is named by the base name of the
    executable, the version text and the extension, in this order, the
    two parts being those [splitext] gives for the executable's name.
    When the archive is fetched and holds the executable, the directory
    of that name exists and the name is not that of a directory, the
    update ends with the executable's bytes under that name in the
    working directory, in place of any file that had the name; no other
    file changes and nothing is left in the temporary directory. *)
Theorem update_installs_versioned
    (gbk_row : N -> option (Byte.byte * Byte.byte))
    (ZipFile : content -> result archive)
    (v : str) (w : world) (data : bytes) (arch : archive) (member : bytes) :
  has_rows gbk_row gbk_rows_of_name ->
  fst (get_latest_released_asset RELEASE_ASSET_NAME w) = Ok data ->
  ZipFile (Raw data) = Ok arch ->
  arch !! stored_executable_name = Some member ->
  let name := versioned_executable_name (os w) v in
  let dst := joinpath (os w) (Disk, cwd w) name in
  fs w !! parent dst = Some Dir ->
  fs w !! dst <> Some Dir ->
  splitext (os w) RELEASE_EXECUTABLE_NAME = (utf8 "基金信息生成器", utf8 ".exe")
  /\ name = utf8 "基金信息生成器" ++ v ++ utf8 ".exe"
  /\ exists w',
       update gbk_row ZipFile v w = (Ok tt, w')
       /\ fs w' !! dst = Some (File (Raw member))
       /\ (forall l, (Disk, l) <> dst -> fs w' !! (Disk, l) = fs w !! (Disk, l))
       /\ (forall l, fs w' !! (Temp, l) = None).
Proof.
  intros Hrows Hasset Hzip Hmember name dst Hparent Hdst.
  split; [apply splitext_executable|]. split; [apply versioned_executable_name_eq|].
  rewrite (update_moves gbk_row ZipFile v w data arch Hrows Hasset Hzip member
             Hmember Hparent Hdst).
  fold name. fold dst.
  assert (Hroot : fst dst = Disk) by apply joinpath_cwd_Disk.
  eexists. split; [reflexivity|]. cbn [fs set_fs]. split; [|split].
  - apply lookup_insert_eq.
  - intros l Hl. rewrite lookup_insert_ne by congruence. apply outside_temp_Disk.
  - intros l. rewrite lookup_insert_ne.
    + apply outside_temp_Temp.
    + intros E. rewrite E in Hroot. discriminate.
Qed.

(** C8, witness: in the sample world an older file has the name of the
    new executable; the update replaces it. *)
Lemma update_installs_versioned_witness :
  fs sample_world !! (Disk, [utf8 "home"; utf8 "基金信息生成器v0.3.0.exe"])
    = Some (File (Raw [Byte.x00]))
  /\ exists w',
       update (rows_only gbk_rows_of_name) sample_ZipFile (utf8 "v0.3.0") sample_world
         = (Ok tt, w')
       /\ fs w' !! (Disk, [utf8 "home"; utf8 "基金信息生成器v0.3.0.exe"])
          = Some (File (Raw sample_member)).
Proof.
  split; [vm_compute; reflexivity|].
  destruct (update_installs_versioned (rows_only gbk_rows_of_name) sample_ZipFile
              (utf8 "v0.3.0") sample_world [Byte.x50; Byte.x4b]
              {[ stored_executable_name := sample_member ]} sample_member)
    as (_ & _ & w' & Hrun & Hfile & _).
  - exact rows_only_name.
  - vm_compute. reflexivity.
  - reflexivity.
  - vm_compute. reflexivity.
  - vm_compute. reflexivity.
  - vm_compute. discriminate.
  - exists w'. split; [exact Hrun|].
    change (Disk, [utf8 "home"; utf8 "基金信息生成器v0.3.0.exe"])
      with (joinpath (os sample_world) (Disk, cwd sample_world)
              (versioned_executable_name (os sample_world) (utf8 "v0.3.0"))).
    exact Hfile.
Defined.

(** ** The release asset *)

(** C6.  The assets are filtered by equality of the name.  With no asset
    of the name the lookup raises the error of the missing asset; with
    exactly one, the only asset of that name in the list, its content is
    fetched from its address; with two or more the lookup raises the
    error of the ambiguous name and picks none. *)
Theorem asset_lookup (name : str) (w : world) (rel : release) :
  releases_latest w = Ok rel ->
  let n := count_named name (assets rel) in
  let r := fst (get_latest_released_asset name w) in
  (n = 0%nat -> r = Raise (RuntimeError (no_asset_message name)))
  /\ (n = 1%nat ->
      exists a, In a (assets rel) /\ asset_name a = name
                /\ (forall b, In b (assets rel) -> asset_name b = name -> b = a)
                /\ r = download w (asset_url a))
  /\ ((2 <= n)%nat -> r = Raise (RuntimeError (many_assets_message name)))
  /\ snd (get_latest_released_asset name w) = w.
Proof.
  intros Hrel n r. subst n r. unfold get_latest_released_asset. cbn [fst snd].
  rewrite Hrel. cbn [rbind]. rewrite <- count_named_filter.
  set (f := fun asset => str_eqb (asset_name asset) name).
  destruct (List.filter f (assets rel)) as [|a [|b l]] eqn:E; cbn [length].
  - split; [reflexivity|]. split; [discriminate|]. split; [intros; lia | reflexivity].
  - split; [discriminate|]. split; [|split; [intros; lia | reflexivity]].
    intros _.
    assert (Ha : In a (List.filter f (assets rel))) by (rewrite E; now left).
    apply filter_In in Ha as [Hin Hname]. apply str_eqb_eq in Hname.
    exists a. split; [exact Hin|]. split; [exact Hname|]. split; [|reflexivity].
    intros b Hb Hbname.
    assert (Hb' : In b (List.filter f (assets rel)))
      by (apply filter_In; split; [exact Hb | now apply str_eqb_eq]).
    rewrite E in Hb'. destruct Hb' as [<- | []]. reflexivity.
  - split; [discriminate|]. split; [intros; lia|]. split; reflexivity.
Qed.

(** C6, witness: the sample release has one asset of the wanted name. *)
Lemma asset_lookup_witness :
  releases_latest sample_world = Ok sample_release
  /\ count_named RELEASE_ASSET_NAME (assets sample_release) = 1%nat
  /\ exists a, In a (assets sample_release)
       /\ fst (get_latest_released_asset RELEASE_ASSET_NAME sample_world)
          = download sample_world (asset_url a).
Proof.
  split; [reflexivity|]. split; [vm_compute; reflexivity|].
  destruct (asset_lookup RELEASE_ASSET_NAME sample_world sample_release eq_refl)
    as (_ & Hone & _).
  destruct Hone as (a & Hin & _ & _ & Hr); [vm_compute; reflexivity|].
  exists a. split; [exact Hin | exact Hr].
Defined.

(** ** The list of fund codes *)

Lemma filter_sublist {A} (f : A -> bool) (l : list A) : sublist (List.filter f l) l.
Proof.
  induction l as [|x l IH]; simpl; [constructor|].
  destruct (f x); now constructor.
Qed.

(** C3, as amended.  The cleaning step keeps exactly the lines made of
    six characters of the class [\d], the decimal digits of Unicode, of
    which the ASCII digits are ten; it drops every other line and keeps
    the order of the lines.  Every line of six ASCII digits is kept, and
    of the five sample lines the first and the last are. *)
Theorem clean_codes_decimal_digits (codes : list str) :
  clean_codes codes = List.filter six_digitsb codes
  /\ (forall code, In code (clean_codes codes) <-> In code codes /\ six_digits code)
  /\ sublist (clean_codes codes) codes
  /\ (forall code, In code codes -> six_ascii_digits code -> In code (clean_codes codes))
  /\ clean_codes (map utf8 ["000001"; "abc"; "12345"; "000002x"; "999999"]%string)
     = map utf8 ["000001"; "999999"]%string.
Proof.
  pose proof (clean_codes_filter codes) as E.
  assert (Hin : forall code, In code (clean_codes codes) <-> In code codes /\ six_digits code).
  { intros code. rewrite E, filter_In, six_digitsb_spec. reflexivity. }
  split; [exact E|]. split; [exact Hin|]. split; [|split].
  - rewrite E. apply filter_sublist.
  - intros code Hcode Hascii. apply Hin. split; [exact Hcode|].
    now apply six_ascii_is_six_digits.
  - vm_compute. reflexivity.
Qed.

(** C3, counterexample.  A line of six full-width digits is kept, and it
    is not a line of six ASCII digits. *)
Lemma clean_codes_fullwidth :
  clean_codes [utf8 "１２３４５６"] = [utf8 "１２３４５６"]
  /\ ~ six_ascii_digits (utf8 "１２３４５６").
Proof.
  split; [vm_compute; reflexivity|].
  intros [_ H]. apply Forall_cons in H as [H _]. vm_compute in H. discriminate.
Qed.

(** ** The export *)

(** C4.  A failed export raises one error, the [RuntimeError] of the
    export with the failure of the block as its cause, and leaves every
    file as it was: the workbook reaches the file system in
    [workbook.close()] alone, the last step.  A record whose value for a
    field of type Number is [abc] makes the export fail in this way. *)
Theorem export_failure_is_wrapped (infos : list (gmap str str))
    (xlsx_filename : str) (w : world) :
  (forall e w', write_to_xlsx infos xlsx_filename w = (Raise e, w') ->
     exists cause,
       e = RuntimeError_from export_error_message cause
       /\ fst (write_to_xlsx_try infos xlsx_filename w) = Raise cause
       /\ fs w' = fs w)
  /\ (forall info col name,
        In info infos -> In (col, name, ExcelCellDataType.number) schema ->
        info !! name = Some (utf8 "abc") ->
        exists cause w',
          write_to_xlsx infos xlsx_filename w
          = (Raise (RuntimeError_from export_error_message cause), w')
          /\ fs w' = fs w).
Proof.
  split.
  - intros e w' H.
    apply write_to_xlsx_failure in H as (cause & -> & Hcause & _ & ->).
    exists cause. split; [reflexivity|]. split; [exact Hcause | reflexivity].
  - intros info col name Hinfo Hfield Hvalue.
    destruct (export_rows_unreadable_number 0 infos info col name Hinfo Hfield Hvalue)
      as [cause Hcause].
    exists cause, (announced w).
    split; [now apply write_to_xlsx_body_fails | reflexivity].
Qed.

Import MatcherFacts FloatFacts DateFacts.


(** C9.  In the workbook of a successful export every field of the
    schema has its name in the header row, in the column of its place
    in the schema; the column of a Date field has the width 13, the
    columns of the four long fields have the widths 22, 17, 11 and 11,
    every other column has the default width, and there is no header
    beyond the last field. *)
Theorem header_written (infos : list (gmap str str)) (xlsx_filename : str)
    (w w' : world) :
  write_to_xlsx infos xlsx_filename w = (Ok tt, w') ->
  exists sheet,
    fs w' !! destination w xlsx_filename = Some (File (Spreadsheet sheet))
    /\ Forall (header_column sheet) schema
    /\ map (fun field => fst (fst field)) schema = [0; 1; 2; 3; 4; 5; 6; 7; 8]
    /\ (forall col, 9 <= col ->
          cell sheet 0 col = None /\ column_width sheet col = None).
Proof.
  intros H. destruct (export_rows 0 infos) as [rows|e] eqn:E.
  - pose proof (write_to_xlsx_close infos xlsx_filename w rows E) as Hclose.
    cbv zeta in Hclose.
    destruct (create_file _ _ _) as [[[]|e] w1].
    + destruct Hclose as [Hrun ->]. rewrite Hrun in H. injection H as <-.
      pose proof (export_rows_body_calls _ _ _ E) as Hbody.
      exists (header_sheet ++ concat rows). cbn [fs set_fs].
      split; [apply lookup_insert_eq|]. split; [|split; [reflexivity|]].
      * apply width_hint_rules.
        eapply Forall_impl; [exact header_sheet_columns|].
        intros [[col name] ty] [Hcell Hwidth].
        destruct (body_keeps_header header_sheet (concat rows) col Hbody) as [-> ->].
        now split.
      * intros col Hcol.
        destruct (body_keeps_header header_sheet (concat rows) col Hbody) as [-> ->].
        now apply header_sheet_beyond.
    + destruct Hclose as [Hrun _]. rewrite Hrun in H. discriminate.
  - rewrite (write_to_xlsx_body_fails _ _ _ _ E) in H. discriminate.
Qed.

(** C9, witness: the export of the sample record. *)
Lemma header_written_witness :
  exists w' sheet,
    write_to_xlsx [sample_info] (utf8 "基金信息.xlsx") sample_world = (Ok tt, w')
    /\ fs w' !! destination sample_world (utf8 "基金信息.xlsx")
       = Some (File (Spreadsheet sheet))
    /\ Forall (header_column sheet) schema.
Proof.
  destruct (write_to_xlsx [sample_info] (utf8 "基金信息.xlsx") sample_world)
    as [r w'] eqn:E.
  assert (Hr : r = Ok tt).
  { apply (f_equal fst) in E. cbn [fst] in E. rewrite <- E. vm_compute. reflexivity. }
  subst r.
  destruct (header_written [sample_info] (utf8 "基金信息.xlsx") sample_world w' E)
    as (sheet & Hfile & Hheader & _).
  exists w', sheet. split; [reflexivity|]. split; [exact Hfile | exact Hheader].
Defined.

(** C10.  The two lists of the schema have the same length and the
    names are distinct; every column the loop visits has a type in
    [fieldtypes], one of the three; so no export, whatever the records,
    raises [IndexError] or reaches the branch that raises
    [Unreachable]. *)
Theorem unreachable_never_raised :
  length fieldnames = length fieldtypes
  /\ NoDup fieldnames
  /\ (forall col name,
        In (col, name) (enumerate fieldnames) ->
        exists ty, list_getitem fieldtypes col = Ok ty
                   /\ (ty = ExcelCellDataType.string \/ ty = ExcelCellDataType.date
                       \/ ty = ExcelCellDataType.number))
  /\ (forall row info col name ws e,
        In (col, name) (enumerate fieldnames) ->
        write_field row info col name ws = Raise e ->
        e <> IndexError /\ e <> RuntimeError (utf8 "Unreachable"))
  /\ (forall infos xlsx_filename w e,
        fst (write_to_xlsx_try infos xlsx_filename w) = Raise e ->
        e <> IndexError /\ e <> RuntimeError (utf8 "Unreachable"))
  /\ (forall infos xlsx_filename w msg,
        fst (write_to_xlsx infos xlsx_filename w)
          <> Raise (RuntimeError_from msg (RuntimeError (utf8 "Unreachable")))
        /\ fst (write_to_xlsx infos xlsx_filename w)
          <> Raise (RuntimeError_from msg IndexError)).
Proof.
  assert (Hfail : forall e, export_failure e ->
            e <> IndexError /\ e <> RuntimeError (utf8 "Unreachable")).
  { intros e He. split; intros ->; exact He. }
  split; [reflexivity|]. split.
  { apply (bool_decide_unpack _). vm_compute. reflexivity. }
  split; [|split; [|split]].
  - intros col name Hin.
    destruct (list_getitem fieldtypes col) as [ty|e] eqn:E.
    + exists ty. split; [reflexivity|]. destruct ty; auto.
    + exfalso.
      assert (Hcol : In col [0; 1; 2; 3; 4; 5; 6; 7; 8])
        by exact (in_map fst _ _ Hin).
      cbn [In] in Hcol.
      repeat (destruct Hcol as [<- | Hcol]; [vm_compute in E; discriminate|]).
      exact Hcol.
  - intros row info col name ws e Hin H.
    pose proof (write_field_export row info) as Hexp.
    rewrite List.Forall_forall in Hexp.
    assert (Hty : exists ty, In (col, name, ty) schema).
    { unfold schema, enumerate, fieldnames, fieldtypes in *.
      cbn [enumerate_from combine In] in *.
      repeat (destruct Hin as [<- | Hin]; [eexists; tauto|]).
      destruct Hin. }
    destruct Hty as [ty Hty]. specialize (Hexp _ Hty ws). cbn [fst snd] in Hexp.
    rewrite Hexp in H.
    destruct (export_field info (row + 1) (col, name, ty)) as [c|e'] eqn:E;
      cbn [rbind] in H; [discriminate|].
    injection H as <-. apply Hfail. eapply export_field_raises; eauto.
  - intros infos xlsx_filename w e H. apply Hfail.
    rewrite write_to_xlsx_try_eq in H.
    destruct (export_rows 0 infos) as [rows|e'] eqn:E.
    + unfold Workbook_close in H.
      destruct (create_file _ _ _) as [[[]|e0] w0]; cbn [fst] in H; [discriminate|].
      injection H as <-. exact I.
    + cbn [fst] in H. injection H as <-. eapply export_rows_raises; eauto.
  - intros infos xlsx_filename w msg.
    destruct (write_to_xlsx infos xlsx_filename w) as [[[]|e] w'] eqn:E; cbn [fst].
    + split; discriminate.
    + apply write_to_xlsx_failure in E as (cause & -> & _ & Hcause & _).
      split; intros [= _ ->]; exact Hcause.
Qed.

(* ===================================================================== *)
(** * The rest of the program: arguments, input file, [main] *)
(* ===================================================================== *)

(** ** Reading text: the [utf-8] codec, text mode, [str.splitlines] *)

Module Text.

Definition is_continuation (n : N) : bool := (0x80 <=? n) && (n <=? 0xbf).

(** The second byte of a sequence of three or of four bytes: its range
    is narrower after the lead bytes E0, ED, F0 and F4, which shuts out
    the overlong forms, the surrogates and the code points above
    U+10FFFF. *)
Definition second_of_three (lead n : N) : bool :=
  if lead =? 0xe0 then (0xa0 <=? n) && (n <=? 0xbf)
  else if lead =? 0xed then (0x80 <=? n) && (n <=? 0x9f)
  else is_continuation n.

Definition second_of_four (lead n : N) : bool :=
  if lead =? 0xf0 then (0x90 <=? n) && (n <=? 0xbf)
  else if lead =? 0xf4 then (0x80 <=? n) && (n <=? 0x8f)
  else is_continuation n.

Definition UnicodeDecodeError : exn :=
  ValueError "'utf-8' codec can't decode byte".

(** [b.decode("utf-8")], strict.  [UnicodeDecodeError] is a [ValueError]. *)
Fixpoint decode_utf8 (b : bytes) : result str :=
  match b with
  | [] => Ok []
  | b0 :: r0 =>
      let n0 := Byte.to_N b0 in
      if n0 <? 0x80 then
        let! s := decode_utf8 r0 in Ok (n0 :: s)
      else match r0 with
      | [] => Raise UnicodeDecodeError
      | b1 :: r1 =>
          let n1 := Byte.to_N b1 in
          if (0xc2 <=? n0) && (n0 <=? 0xdf) then
            if is_continuation n1 then
              let! s := decode_utf8 r1 in
              Ok (((n0 - 0xc0) * 64 + (n1 - 0x80)) :: s)
            else Raise UnicodeDecodeError
          else match r1 with
          | [] => Raise UnicodeDecodeError
          | b2 :: r2 =>
              let n2 := Byte.to_N b2 in
              if (0xe0 <=? n0) && (n0 <=? 0xef) then
                if second_of_three n0 n1 && is_continuation n2 then
                  let! s := decode_utf8 r2 in
                  Ok (((n0 - 0xe0) * 4096 + (n1 - 0x80) * 64 + (n2 - 0x80)) :: s)
                else Raise UnicodeDecodeError
              else match r2 with
              | [] => Raise UnicodeDecodeError
              | b3 :: r3 =>
                  let n3 := Byte.to_N b3 in
                  if (0xf0 <=? n0) && (n0 <=? 0xf4) && second_of_four n0 n1
                     && is_continuation n2 && is_continuation n3 then
                    let! s := decode_utf8 r3 in
                    Ok (((n0 - 0xf0) * 262144 + (n1 - 0x80) * 4096
                         + (n2 - 0x80) * 64 + (n3 - 0x80)) :: s)
                  else Raise UnicodeDecodeError
              end
          end
      end
  end.

(** Reading in text mode: [\r\n] and a lone [\r] come out as [\n]. *)
Fixpoint universal_newlines (s : str) : str :=
  match s with
  | [] => []
  | c :: s' =>
      if c =? 13 then
        match s' with
        | c' :: _ => if c' =? 10 then universal_newlines s'
                     else 10 :: universal_newlines s'
        | [] => [10]
        end
      else c :: universal_newlines s'
  end.

(** The line boundaries of [str.splitlines]. *)
Definition is_linebreak (c : N) : bool :=
  ((10 <=? c) && (c <=? 13)) || ((28 <=? c) && (c <=? 30))
  || (c =? 0x85) || (c =? 0x2028) || (c =? 0x2029).

(** [s.splitlines()]: the lines without their boundaries; [\r\n] is one
    boundary, and a boundary at the very end opens no further line. *)
Fixpoint splitlines (s : str) : list str :=
  match s with
  | [] => []
  | c :: s' =>
      let rest := splitlines s' in
      if is_linebreak c then
        match s' with
        | c' :: _ => if (c =? 13) && (c' =? 10) then rest else [] :: rest
        | [] => [[]]
        end
      else
        match rest with
        | [] => [[c]]
        | line :: lines => (c :: line) :: lines
        end
  end.

End Text.
Export Text.

(** ** [check_args] and [main] *)

Module Cli.

(** What [os.path] finds under a name given as text: nothing under the
    empty name, and no file under a name whose last component is empty
    or [.], which asks for a directory.  Names are followed from the
    working directory, component by component ([..] is not resolved). *)
Definition asks_for_directory (o : platform) (name : str) : bool :=
  let part := List.last (split_on (is_sep o) name) [] in
  str_eqb part [] || str_eqb part (utf8 ".").

Definition os_stat (name : str) : M (option node) :=
  fun w =>
    (Ok match name with
        | [] => None
        | _ :: _ =>
            match fs w !! joinpath (os w) (Disk, cwd w) name with
            | Some (File c) =>
                if asks_for_directory (os w) name then None else Some (File c)
            | found => found
            end
        end, w).

Definition os_path_exists (name : str) : M bool :=
  let* found := os_stat name in
  ret match found with Some _ => true | None => false end.

Definition os_path_isdir (name : str) : M bool :=
  let* found := os_stat name in
  ret match found with Some Dir => true | _ => false end.

Definition os_path_isfile (name : str) : M bool :=
  let* found := os_stat name in
  ret match found with Some (File _) => true | _ => false end.

(** [FileNotFoundError] is an [OSError]; its message names the file. *)
Definition FileNotFoundError : exn := OSError "FileNotFoundError".

Definition folder_exists_message (out_filename : str) : str :=
  utf8 "同名文件夹已存在，无法新建文件 " ++ out_filename.

Section Program.

Variable gbk_row : N -> option (Byte.byte * Byte.byte).
Variable ZipFile : content -> result archive.
Variables green red : str -> str.

(** The fetcher of [fetcher.py]: the record of a fund code, or the
    exception the fetch ends with. *)
Variable get_fund_info : str -> result (gmap str str).

(** The bytes [xlsxwriter] gives to a workbook. *)
Variable workbook_bytes : Worksheet -> bytes.

Definition overwrite_prompt (out_filename : str) : str :=
  out_filename ++ utf8 " 同名文件已存在，是否覆盖之？【选择是请输入“"
  ++ green (utf8 "是") ++ utf8 "”，选择否请输入“" ++ red (utf8 "否")
  ++ utf8 "”】" ++ [10].

(** The [while True] loop of [check_args]: one round per line of input;
    [lines] is the input not yet read. *)
Fixpoint ask_overwrite (out_filename : str) (lines : list str) : M unit :=
  match lines with
  | [] => let* _ := input (overwrite_prompt out_filename) in raise EOFError
  | _ :: rest =>
      let* answer := input (overwrite_prompt out_filename) in
      let choice := strip answer in
      if str_eqb choice (utf8 "是") then
        ret tt
      else if str_eqb choice (utf8 "否") then
        exit
      else
        print (utf8 "输入指令无效，请重新输入") ;;
        ask_overwrite out_filename rest
  end.

Definition check_args (in_filename out_filename : str) (yes_to_all : bool)
  : M unit :=
  let* found := os_path_exists in_filename in
  if negb found then raise FileNotFoundError
  else
    let* isdir := os_path_isdir out_filename in
    if isdir then raise (RuntimeError (folder_exists_message out_filename))
    else
      let* isfile := os_path_isfile out_filename in
      if isfile && negb yes_to_all then
        fun w => ask_overwrite out_filename (stdin w) w
      else ret tt.

(** [Path(name).read_text(encoding="utf-8")]. *)
Definition Path_read_text (name : str) : M str :=
  fun w =>
    match read_file (joinpath (os w) (Disk, cwd w) name) w with
    | (Ok c, w') =>
        let data := match c with
                    | Raw data => data
                    | Spreadsheet sheet => workbook_bytes sheet
                    end in
        (let! text := decode_utf8 data in Ok (universal_newlines text), w')
    | (Raise e, w') => (Raise e, w')
    end.

(** [[f(x) for x in l]]: it stops at the first exception. *)
Fixpoint list_comprehension {A B} (f : A -> result B) (l : list A)
  : result (list B) :=
  match l with
  | [] => Ok []
  | x :: l' =>
      let! y := f x in
      let! ys := list_comprehension f l' in
      Ok (y :: ys)
  end.

Definition main (filename output : str) (yes_to_all : bool) : M unit :=
  check_update gbk_row ZipFile green red ;;
  let in_filename := filename in
  let out_filename := output in
  check_args in_filename out_filename yes_to_all ;;
  print (utf8 "获取基金代码列表......") ;;
  let* text := Path_read_text in_filename in
  let codes := splitlines text in
  print (utf8 "清洗基金代码列表......") ;;
  let codes := clean_codes codes in
  print (utf8 "获取基金相关信息......") ;;
  let* infos := lift (list_comprehension get_fund_info codes) in
  print (utf8 "将基金相关信息写入 Excel 文件......") ;;
  write_to_xlsx infos out_filename ;;
  print (utf8 "完满结束! ✨ 🍰 ✨") ;;
  let* _ := input (utf8 "按下回车键以退出") in
  ret tt.

End Program.

End Cli.
Export Cli.

(* ===================================================================== *)
(** * Further vocabulary *)
(* ===================================================================== *)

Module Behaviour.

(** A value the export can write for a type. *)
Definition value_ok (ty : ExcelCellDataType.t) (v : str) : Prop :=
  match ty with
  | ExcelCellDataType.string => True
  | ExcelCellDataType.number =>
      exists x, float v = Ok x /\ isnan x || isinf x = false
  | ExcelCellDataType.date => exists d, strptime_Ymd v = Ok d
  end.

(** A field a record supplies with such a value. *)
Definition field_ok (info : gmap str str)
    (field : N * str * ExcelCellDataType.t) : Prop :=
  exists v, info !! snd (fst field) = Some v /\ value_ok (snd field) v.

(** A record with every field of the schema. *)
Definition record_ok (info : gmap str str) : Prop :=
  Forall (field_ok info) schema.

(** The cell a call writes. *)
Definition call_at (k : call) : option (N * N) :=
  match k with
  | write r c _ _ | write_string r c _ | write_number r c _
  | write_datetime r c _ _ => Some (r, c)
  | set_column _ _ _ => None
  end.

(** A command that leaves the files on disk alone. *)
Definition disk_kept {A} (c : M A) : Prop :=
  forall w l, fs (snd (c w)) !! (Disk, l) = fs w !! (Disk, l).

(** A command that leaves them alone when it raises. *)
Definition disk_kept_on_failure {A} (c : M A) : Prop :=
  forall w e, fst (c w) = Raise e ->
    forall l, fs (snd (c w)) !! (Disk, l) = fs w !! (Disk, l).

(** An answer that is neither yes nor no. *)
Definition invalid_answer (line : str) : Prop :=
  strip line <> utf8 "是" /\ strip line <> utf8 "否".

Definition invalid_message : str := utf8 "输入指令无效，请重新输入".

(** What the console shows for a run of invalid answers: each time the
    prompt, then the complaint. *)
Definition retries (prompt : str) (bad : list str) : list str :=
  concat (map (fun _ => [prompt; invalid_message]) bad).

(** The file of the sample world with a list of fund codes added. *)
Definition codes_file : bytes :=
  map byte_of (utf8 "000001
abc
999999
").

Definition sample_world_with_codes : world :=
  set_stdin [utf8 ""]
    (set_fs (<[(Disk, [utf8 "home"; utf8 "codes.txt"]) := File (Raw codes_file)]>
               (fs sample_world))
            sample_world).

(** The sample record with a net value that is no number, and with one
    that [float] reads as not-a-number. *)
Definition sample_info_abc : gmap str str :=
  <[utf8 "单位净值" := utf8 "abc"]> sample_info.

Definition sample_info_nan : gmap str str :=
  <[utf8 "单位净值" := utf8 "nan"]> sample_info.

(** A release that is not newer than the program. *)
Definition same_release_world (w : world) : world :=
  {| stdout := stdout w; stdin := stdin w; fs := fs w; cwd := cwd w; os := os w;
     releases_latest := Ok {| tag_name := utf8 "v0.2.0"; assets := [] |};
     download := download w |}.

(** The world once the prompt was shown after the invalid answers [bad],
    with [rest] left to read. *)
Definition asked (prompt : str) (bad rest : list str) (w : world) : world :=
  set_stdin rest (set_stdout (stdout w ++ retries prompt bad ++ [prompt]) w).

(** The sample world with a user who first mistypes, then accepts. *)
Definition sample_world_accepting : world :=
  set_stdin [utf8 "?"; utf8 "是"] sample_world.

(** The sample world with a folder under the name of the new executable. *)
Definition sample_world_with_folder : world :=
  set_fs (<[(Disk, [utf8 "home"; utf8 "基金信息生成器v0.3.0.exe"]) := Dir]> (fs sample_world))
         sample_world.

(** The sample world with the file of codes and a user who first
    mistypes, then accepts. *)
Definition sample_world_overwrite : world :=
  set_stdin [utf8 "?"; utf8 "是 "] sample_world_with_codes.

(** The codes [main] takes from an input file of the bytes [data]. *)
Definition codes_read (data : bytes) : result (list str) :=
  let! text := decode_utf8 data in
  Ok (clean_codes (splitlines (universal_newlines text))).

(** A text of lines, each closed by [ending]. *)
Definition text_of_lines (ending : str) (lines : list str) : str :=
  concat (map (fun line => line ++ ending) lines).

(** The bytes of a text of ASCII characters. *)
Definition ascii_bytes (s : str) : bytes := map byte_of s.

(** The byte order mark some editors put before a text in UTF-8. *)
Definition byte_order_mark : bytes := [Byte.xef; Byte.xbb; Byte.xbf].

(** The bytes of a file. *)
Definition file_bytes (workbook_bytes : Worksheet -> bytes) (c : content) : bytes :=
  match c with
  | Raw data => data
  | Spreadsheet sheet => workbook_bytes sheet
  end.

(** The world after some more messages. *)
Definition said (messages : list str) (w : world) : world :=
  set_stdout (stdout w ++ messages) w.

(** The progress messages of [main], and its last prompt. *)
Definition reading_codes : str := utf8 "获取基金代码列表......".
Definition cleaning_codes : str := utf8 "清洗基金代码列表......".
Definition fetching : str := utf8 "获取基金相关信息......".
Definition writing : str := utf8 "将基金相关信息写入 Excel 文件......".
Definition finished : str := utf8 "完满结束! ✨ 🍰 ✨".
Definition exit_prompt : str := utf8 "按下回车键以退出".


(** Two worlds with the same files, working directory and platform. *)
Definition same_files (w w' : world) : Prop :=
  fs w' = fs w /\ cwd w' = cwd w /\ os w' = os w.

(** The sample world with the file of codes and no newer release. *)
Definition sample_world_main : world := same_release_world sample_world_with_codes.

(** A fetcher that knows one fund, and one that fails on what is no code. *)
Definition sample_fetcher (code : str) : result (gmap str str) := Ok sample_info.

Definition strict_fetcher (code : str) : result (gmap str str) :=
  if six_digitsb code then Ok sample_info else Raise ConnectionError.

(** The sample world without network. *)
Definition offline_world : world :=
  {| stdout := stdout sample_world; stdin := stdin sample_world; fs := fs sample_world;
     cwd := cwd sample_world; os := os sample_world;
     releases_latest := Raise ConnectionError;
     download := download sample_world |}.

End Behaviour.
Export Behaviour.

(* ===================================================================== *)
(** * More on the export *)
(* ===================================================================== *)

Module ExportMore.

Lemma collect_Ok_iff {A B} (f : A -> result B) l :
  (exists ys, collect f l = Ok ys) <-> Forall (fun x => exists y, f x = Ok y) l.
Proof.
  induction l as [|x l IH]; simpl.
  - split; [constructor | eauto].
  - split.
    + intros [ys H]. destruct (f x) as [y|] eqn:E; simpl in H; [|discriminate].
      destruct (collect f l) as [ys'|] eqn:E'; simpl in H; [|discriminate].
      constructor; [eauto | apply IH; eauto].
    + intros H. apply Forall_cons in H as [[y Hy] Hl].
      apply IH in Hl as [ys Hys]. rewrite Hy, Hys. simpl. eauto.
Qed.

Lemma collect_first_failure {A B} (f : A -> result B) l1 x l2 e :
  Forall (fun x => exists y, f x = Ok y) l1 -> f x = Raise e ->
  collect f (l1 ++ x :: l2) = Raise e.
Proof.
  intros H Hx. induction H as [|x1 l1 [y Hy] _ IH]; simpl.
  - now rewrite Hx.
  - now rewrite Hy, IH.
Qed.

(** Whether a field can be written does not depend on the row. *)
Lemma export_field_Ok_iff info row field :
  (exists c, export_field info row field = Ok c) <-> field_ok info field.
Proof.
  destruct field as [[col name] ty]. unfold export_field, field_ok. cbn [fst snd].
  destruct (info !! name) as [v|].
  - split.
    + intros [c H]. exists v. split; [reflexivity|].
      destruct ty; cbn [export_cell value_ok rbind] in *; [exact I | |].
      * destruct (strptime_Ymd v); [eauto | discriminate].
      * destruct (float v) as [x|]; cbn [rbind] in H; [|discriminate].
        destruct (isnan x || isinf x) eqn:E; [discriminate|]. eauto.
    + intros (v' & [= <-] & Hv).
      destruct ty; cbn [export_cell value_ok rbind] in *; [eauto | |].
      * destruct Hv as [d ->]. cbn [rbind]. eauto.
      * destruct Hv as (x & Hx & Hfin). rewrite Hx. cbn [rbind].
        rewrite Hfin. eauto.
  - split; [intros [c H]; discriminate | intros (v & H & _); discriminate].
Qed.

Lemma export_row_Ok_iff info row :
  (exists cells, collect (export_field info row) schema = Ok cells) <-> record_ok info.
Proof.
  rewrite collect_Ok_iff. unfold record_ok.
  apply Forall_iff. intros field. apply export_field_Ok_iff.
Qed.

Lemma export_rows_Ok_iff infos : forall i,
  (exists rows, export_rows i infos = Ok rows) <-> Forall record_ok infos.
Proof.
  unfold export_rows.
  induction infos as [|info infos IH]; intros i; cbn [enumerate_from collect].
  - split; [constructor | eauto].
  - split.
    + intros [rows H].
      destruct (collect (export_field info (i + 1)) schema) as [cells|] eqn:E;
        simpl in H; [|discriminate].
      destruct (collect _ (enumerate_from (i + 1) infos)) as [rows'|] eqn:E';
        simpl in H; [|discriminate].
      constructor; [apply (export_row_Ok_iff info (i + 1)); eauto|].
      apply (IH (i + 1)). eauto.
    + intros H. apply Forall_cons in H as [Hinfo Hinfos].
      apply (export_row_Ok_iff info (i + 1)) in Hinfo as [cells ->].
      apply (IH (i + 1)) in Hinfos as [rows ->]. simpl. eauto.
Qed.


(** The outcome of the export, in full. *)
Lemma write_to_xlsx_outcome infos xlsx_filename w :
  write_to_xlsx infos xlsx_filename w
  = match export_rows 0 infos with
    | Raise e => (Raise (RuntimeError_from export_error_message e), announced w)
    | Ok rows =>
        match create_file (destination w xlsx_filename)
                (Spreadsheet (header_sheet ++ concat rows)) (announced w) with
        | (Ok _, w') => (Ok tt, w')
        | (Raise e, _) =>
            (Raise (RuntimeError_from export_error_message (FileCreateError e)),
             announced w)
        end
    end.
Proof.
  destruct (export_rows 0 infos) as [rows|e] eqn:E.
  - pose proof (write_to_xlsx_close infos xlsx_filename w rows E) as H.
    cbv zeta in H. destruct (create_file _ _ _) as [[[]|e] w1]; tauto.
  - now apply write_to_xlsx_body_fails.
Qed.

(** ** Where the cells land *)

Lemma collect_In {A B} (f : A -> result B) l ys :
  collect f l = Ok ys -> forall y, In y ys <-> exists x, In x l /\ f x = Ok y.
Proof.
  revert ys. induction l as [|x l IH]; simpl; intros ys H y.
  - injection H as <-. simpl. split; [contradiction | intros (x & [] & _)].
  - destruct (f x) as [y0|] eqn:E; simpl in H; [|discriminate].
    destruct (collect f l) as [ys'|]; simpl in H; [|discriminate].
    injection H as <-. simpl. rewrite (IH ys' eq_refl y). split.
    + intros [<- | (x' & Hx' & Hy)]; eauto.
    + intros (x' & [<- | Hx'] & Hy); [left; congruence | eauto].
Qed.

Lemma export_rows_members infos : forall s rows,
  export_rows s infos = Ok rows ->
  forall k, In k (concat rows)
    <-> exists j info field,
          infos !! j = Some info /\ In field schema
          /\ export_field info (s + N.of_nat j + 1) field = Ok k.
Proof.
  unfold export_rows.
  induction infos as [|info infos IH]; intros s rows H k;
    cbn [enumerate_from collect] in H.
  - injection H as <-. simpl. split; [contradiction|].
    intros (j & info & field & Hj & _). now rewrite lookup_nil in Hj.
  - destruct (collect (export_field info (s + 1)) schema) as [cells|] eqn:E;
      cbn [rbind] in H; [|discriminate].
    destruct (collect _ (enumerate_from (s + 1) infos)) as [rows'|] eqn:E';
      cbn [rbind] in H; [|discriminate].
    injection H as <-. cbn [concat]. rewrite in_app_iff.
    rewrite (collect_In _ _ _ E k), (IH (s + 1) rows' E' k). split.
    + intros [(field & Hfield & Hk) | (j & info' & field & Hj & Hfield & Hk)].
      * exists 0%nat, info, field. cbn [lookup list_lookup].
        rewrite N.add_0_r. auto.
      * exists (S j), info', field. split; [exact Hj|]. split; [exact Hfield|].
        rewrite <- Hk. f_equal. lia.
    + intros (j & info' & field & Hj & Hfield & Hk). destruct j as [|j].
      * injection Hj as <-. left. exists field. split; [exact Hfield|].
        rewrite <- Hk. f_equal. simpl. lia.
      * right. exists j, info', field. split; [exact Hj|]. split; [exact Hfield|].
        rewrite <- Hk. f_equal. lia.
Qed.

Lemma export_field_call_at info row field k :
  export_field info row field = Ok k -> call_at k = Some (row, fst (fst field)).
Proof.
  destruct field as [[col name] ty]. unfold export_field. cbn [fst snd].
  destruct (info !! name) as [v|]; [|discriminate].
  destruct ty; cbn [export_cell rbind].
  - now intros [= <-].
  - destruct (strptime_Ymd v); cbn [rbind]; [|discriminate]. now intros [= <-].
  - destruct (float v) as [x|]; cbn [rbind]; [|discriminate].
    destruct (isnan x || isinf x); [discriminate|]. now intros [= <-].
Qed.

Lemma cell_of_Some r c k k' :
  cell_of r c k = Some k' <-> k' = k /\ call_at k = Some (r, c).
Proof.
  destruct k as [r0 c0 v f | a b wd | r0 c0 s0 | r0 c0 x | r0 c0 d f]; simpl.
  2: { split; [discriminate | intros [_ H]; discriminate]. }
  all: destruct (N.eqb_spec r0 r) as [-> | Hr];
       destruct (N.eqb_spec c0 c) as [-> | Hc]; simpl; split; intros H.
  all: try discriminate.
  all: try (injection H as <-; split; reflexivity).
  all: try (destruct H as [-> _]; reflexivity).
  all: destruct H as [_ H]; congruence.
Qed.

Lemma cell_of_None r c k : call_at k <> Some (r, c) -> cell_of r c k = None.
Proof.
  intros H. destruct (cell_of r c k) as [k'|] eqn:E; [|reflexivity].
  apply cell_of_Some in E as [_ E]. contradiction.
Qed.

Lemma last_of_unique {A} (f : call -> option A) l k a :
  In k l -> f k = Some a ->
  (forall k' a', In k' l -> f k' = Some a' -> a' = a) ->
  last_of f l = Some a.
Proof.
  induction l as [|k0 l IH]; simpl; [contradiction|].
  intros Hin Hk Huniq.
  assert (Huniq' : forall k' a', In k' l -> f k' = Some a' -> a' = a) by eauto.
  destruct (last_of f l) as [a'|] eqn:E.
  - f_equal.
    assert (Hex : exists k', In k' l /\ f k' = Some a').
    { clear -E. induction l as [|k1 l IH]; simpl in E; [discriminate|].
      destruct (last_of f l) as [a''|] eqn:E'.
      - injection E as <-. destruct (IH eq_refl) as (k' & Hin & Hk'). simpl. eauto.
      - simpl. eauto. }
    destruct Hex as (k' & Hin' & Hk'). eauto.
  - destruct Hin as [-> | Hin]; [exact Hk|].
    specialize (IH Hin Hk Huniq'). congruence.
Qed.

Lemma schema_field_of_column field field' :
  In field schema -> In field' schema ->
  fst (fst field) = fst (fst field') -> field = field'.
Proof.
  set (sch := schema). vm_compute in sch. subst sch. cbn [In].
  intros H H' E.
  repeat (destruct H as [<- | H]; [|]);
    try contradiction;
    repeat (destruct H' as [<- | H']; [|]);
    try contradiction; try reflexivity; cbn [fst] in E; discriminate E.
Qed.

End ExportMore.

(* ===================================================================== *)
(** * Further properties of the program *)
(* ===================================================================== *)

Import ExportMore.

(** ** [write_to_xlsx] *)

Lemma header_calls_row0 :
  Forall (fun k => forall r c, 1 <= r -> cell_of r c k = None) header_sheet.
Proof.
  set (sheet := header_sheet). vm_compute in sheet. subst sheet.
  repeat (constructor;
          [ intros r c Hr; cbn [cell_of];
            try (replace (0 =? r) with false by (symmetry; apply N.eqb_neq; lia));
            reflexivity
          | ]).
  constructor.
Qed.


(** X2.  In the workbook of a successful export the record at place [i]
    of the list fills row [i + 1]: the cell of each field of the schema
    is the one the field's value exports to, in the column of the
    field, and the rows below the last record are empty. *)
Theorem export_rows_land (infos : list (gmap str str)) (xlsx_filename : str)
    (w w' : world) :
  write_to_xlsx infos xlsx_filename w = (Ok tt, w') ->
  exists sheet,
    fs w' !! destination w xlsx_filename = Some (File (Spreadsheet sheet))
    /\ (forall i info field,
          infos !! i = Some info -> In field schema ->
          exists c, export_field info (N.of_nat i + 1) field = Ok c
                    /\ cell sheet (N.of_nat i + 1) (fst (fst field)) = Some c)
    /\ (forall r c, N.of_nat (length infos) < r -> cell sheet r c = None).
Proof.
  intros H. rewrite write_to_xlsx_outcome in H.
  destruct (export_rows 0 infos) as [rows|e] eqn:E; [|discriminate].
  destruct (create_file_cases (destination w xlsx_filename)
              (Spreadsheet (header_sheet ++ concat rows)) (announced w))
    as [Hc | [msg Hc]]; rewrite Hc in H; [|discriminate].
  injection H as <-. exists (header_sheet ++ concat rows). cbn [fs set_fs].
  pose proof (export_rows_members infos 0 rows E) as Hmem.
  split; [apply lookup_insert_eq|]. split.
  - intros i info field Hi Hfield.
    assert (Hrec : Forall record_ok infos) by (apply (export_rows_Ok_iff infos 0); eauto).
    assert (Hok : field_ok info field).
    { rewrite List.Forall_forall in Hrec.
      assert (Hin : In info infos) by (apply list_elem_of_In; eapply list_elem_of_lookup_2; eauto).
      specialize (Hrec info Hin). unfold record_ok in Hrec.
      rewrite List.Forall_forall in Hrec. auto. }
    apply (export_field_Ok_iff info (N.of_nat i + 1) field) in Hok as [c Hc0].
    exists c. split; [exact Hc0|].
    unfold cell. rewrite last_of_app.
    rewrite (last_of_unique (cell_of (N.of_nat i + 1) (fst (fst field))) (concat rows) c c).
    + reflexivity.
    + apply Hmem. exists i, info, field. now rewrite N.add_0_l.
    + apply cell_of_Some. split; [reflexivity|]. eapply export_field_call_at; eauto.
    + intros k' a' Hk' Hcell. apply cell_of_Some in Hcell as [-> Hat].
      apply Hmem in Hk' as (j & info' & field' & Hj & Hfield' & Hk').
      rewrite N.add_0_l in Hk'.
      rewrite (export_field_call_at _ _ _ _ Hk') in Hat. injection Hat as Hrow Hcol.
      assert (j = i) by lia. subst j.
      assert (info' = info) by congruence. subst info'.
      rewrite (schema_field_of_column field' field Hfield' Hfield Hcol) in Hk'.
      congruence.
  - intros r c Hr. unfold cell. rewrite last_of_app.
    rewrite (last_of_None (cell_of r c) (concat rows)).
    + apply last_of_None. eapply Forall_impl; [exact header_calls_row0|].
      intros k Hk. apply Hk. lia.
    + apply List.Forall_forall. intros k Hk.
      apply Hmem in Hk as (j & info & field & Hj & _ & Hk).
      apply cell_of_None. rewrite (export_field_call_at _ _ _ _ Hk).
      apply lookup_lt_Some in Hj. intros [= Hrow _]. lia.
Qed.

(** X2, witness: two sample records go to the rows 1 and 2. *)
Lemma export_rows_land_witness :
  exists w' sheet,
    write_to_xlsx [sample_info; sample_info] (utf8 "基金信息.xlsx") sample_world
      = (Ok tt, w')
    /\ fs w' !! destination sample_world (utf8 "基金信息.xlsx")
       = Some (File (Spreadsheet sheet))
    /\ cell sheet 2 0 = Some (write_string 2 0 (utf8 "X"))
    /\ cell sheet 3 0 = None.
Proof.
  destruct (write_to_xlsx [sample_info; sample_info] (utf8 "基金信息.xlsx") sample_world)
    as [r w'] eqn:E.
  assert (Hr : r = Ok tt).
  { apply (f_equal fst) in E. cbn [fst] in E. rewrite <- E. vm_compute. reflexivity. }
  subst r.
  destruct (export_rows_land [sample_info; sample_info] (utf8 "基金信息.xlsx")
              sample_world w' E) as (sheet & Hfile & Hcells & Hbelow).
  exists w', sheet. split; [reflexivity|]. split; [exact Hfile|]. split.
  - destruct (Hcells 1%nat sample_info (0, utf8 "基金名称", ExcelCellDataType.string))
      as (c & Hc & Hcell); [reflexivity | vm_compute; tauto |].
    vm_compute in Hc. injection Hc as <-. exact Hcell.
  - apply Hbelow. vm_compute. reflexivity.
Defined.

Lemma enumerate_from_app {A} (l1 l2 : list A) : forall i,
  enumerate_from i (l1 ++ l2)
  = enumerate_from i l1 ++ enumerate_from (i + N.of_nat (length l1)) l2.
Proof.
  induction l1 as [|x l1 IH]; intros i; simpl.
  - now rewrite N.add_0_r.
  - rewrite IH. do 3 f_equal. lia.
Qed.

Lemma enumerate_from_rows_ok (l : list (gmap str str)) : forall i,
  Forall record_ok l ->
  Forall (fun item : N * gmap str str =>
            exists cells, (let '(row, info) := item in
                           collect (export_field info (row + 1)) schema) = Ok cells)
         (enumerate_from i l).
Proof.
  induction l as [|info l IH]; intros i H; simpl; [constructor|].
  apply Forall_cons in H as [Hinfo Hl]. constructor; [|now apply IH].
  now apply export_row_Ok_iff.
Qed.

(** X3.  The failure the export reports is the first one in the order
    of writing: when the records before one are sound, and in that one
    the fields before one of the schema are sound, the error of that
    field is the cause of the export's error, whatever comes after. *)
Theorem export_first_failure (infos : list (gmap str str)) (xlsx_filename : str)
    (w : world) (before : list (gmap str str)) (info : gmap str str)
    (after : list (gmap str str))
    (fbefore : list (N * str * ExcelCellDataType.t))
    (field : N * str * ExcelCellDataType.t)
    (fafter : list (N * str * ExcelCellDataType.t)) (e : exn) :
  infos = before ++ info :: after ->
  Forall record_ok before ->
  schema = fbefore ++ field :: fafter ->
  Forall (field_ok info) fbefore ->
  export_field info (N.of_nat (length before) + 1) field = Raise e ->
  write_to_xlsx infos xlsx_filename w
  = (Raise (RuntimeError_from export_error_message e), announced w).
Proof.
  intros -> Hbefore Hschema Hfields Hfield.
  apply write_to_xlsx_body_fails. unfold export_rows.
  rewrite enumerate_from_app. cbn [enumerate_from]. rewrite N.add_0_l.
  apply collect_first_failure.
  - now apply enumerate_from_rows_ok.
  - rewrite Hschema. apply collect_first_failure; [|exact Hfield].
    eapply Forall_impl; [exact Hfields|].
    intros f Hf. now apply export_field_Ok_iff.
Qed.

(** X3, witness: after a sound record, a record without a fund code and
    with the net value [abc]: the missing code is reported, the net
    value comes later in the schema. *)
Lemma export_first_failure_witness :
  write_to_xlsx [sample_info; delete (utf8 "基金代码") sample_info_abc]
    (utf8 "基金信息.xlsx") sample_world
  = (Raise (RuntimeError_from export_error_message (KeyError (utf8 "基金代码"))),
     announced sample_world).
Proof.
  apply (export_first_failure _ _ _ [sample_info]
           (delete (utf8 "基金代码") sample_info_abc) []
           [(0, utf8 "基金名称", ExcelCellDataType.string)]
           (1, utf8 "基金代码", ExcelCellDataType.string)
           (skipn 2 schema) (KeyError (utf8 "基金代码"))).
  - reflexivity.
  - constructor; [|constructor]. apply (export_row_Ok_iff sample_info 1).
    vm_compute. eauto.
  - reflexivity.
  - constructor; [|constructor]. exists (utf8 "X"). split; [vm_compute; reflexivity | exact I].
  - vm_compute. reflexivity.
Defined.

(** X4.  Whatever its outcome, the export changes no file but the
    destination, reads no input, leaves the working directory, and
    prints its three progress messages and nothing else. *)
Theorem export_touches_destination_only (infos : list (gmap str str))
    (xlsx_filename : str) (w : world) :
  (forall q, q <> destination w xlsx_filename ->
     fs (snd (write_to_xlsx infos xlsx_filename w)) !! q = fs w !! q)
  /\ stdin (snd (write_to_xlsx infos xlsx_filename w)) = stdin w
  /\ stdout (snd (write_to_xlsx infos xlsx_filename w)) = stdout (announced w)
  /\ cwd (snd (write_to_xlsx infos xlsx_filename w)) = cwd w.
Proof.
  rewrite write_to_xlsx_outcome.
  destruct (export_rows 0 infos) as [rows|e]; cbn [snd].
  - destruct (create_file_cases (destination w xlsx_filename)
                (Spreadsheet (header_sheet ++ concat rows)) (announced w))
      as [-> | [msg ->]]; cbn [snd fs set_fs stdin stdout cwd announced set_stdout].
    + split; [|auto]. intros q Hq. now apply lookup_insert_ne.
    + auto.
  - cbn [fs stdin stdout cwd announced set_stdout]. auto.
Qed.

(** X5.  A Number value that [float] reads as not-a-number or as an
    infinity makes the export fail like a value that is no number at
    all; [nan], [-inf] and the overflowing [1e999] are such values. *)
Theorem export_refuses_nan_inf (infos : list (gmap str str)) (xlsx_filename : str)
    (w : world) (info : gmap str str) (col : N) (name v : str) (x : pyfloat) :
  In info infos ->
  In (col, name, ExcelCellDataType.number) schema ->
  info !! name = Some v ->
  float v = Ok x ->
  isnan x || isinf x = true ->
  (exists cause,
     write_to_xlsx infos xlsx_filename w
     = (Raise (RuntimeError_from export_error_message cause), announced w))
  /\ float (utf8 "nan") = Ok Fnan
  /\ float (utf8 "-inf") = Ok (Finf true)
  /\ float (utf8 "1e999") = Ok (Finf false).
Proof.
  intros Hinfo Hfield Hv Hx Hbad.
  split; [|repeat split; vm_compute; reflexivity].
  rewrite write_to_xlsx_outcome.
  destruct (export_rows 0 infos) as [rows|e] eqn:E; [|eauto].
  exfalso.
  assert (Hrec : Forall record_ok infos) by (apply (export_rows_Ok_iff infos 0); eauto).
  rewrite List.Forall_forall in Hrec. specialize (Hrec info Hinfo).
  unfold record_ok in Hrec. rewrite List.Forall_forall in Hrec.
  destruct (Hrec _ Hfield) as (v' & Hv' & x' & Hx' & Hfin). cbn [fst snd] in *.
  congruence.
Qed.

(** X5, witness: the sample record with the net value [nan]. *)
Lemma export_refuses_nan_inf_witness :
  exists cause,
    write_to_xlsx [sample_info_nan] (utf8 "基金信息.xlsx") sample_world
    = (Raise (RuntimeError_from export_error_message cause), announced sample_world).
Proof.
  apply (export_refuses_nan_inf [sample_info_nan] (utf8 "基金信息.xlsx") sample_world
           sample_info_nan 3 (utf8 "单位净值") (utf8 "nan") Fnan).
  - now left.
  - vm_compute. tauto.
  - vm_compute. reflexivity.
  - vm_compute. reflexivity.
  - reflexivity.
Defined.

(* ===================================================================== *)
(** * More on the update *)
(* ===================================================================== *)

Module UpdateMore.

(** ** Commands that leave the disk alone *)

Lemma disk_kept_ret {A} (a : A) : disk_kept (ret a).
Proof. now intros w l. Qed.

Lemma disk_kept_raise {A} e : disk_kept (raise (A := A) e).
Proof. now intros w l. Qed.

Lemma disk_kept_lift {A} (r : result A) : disk_kept (lift r).
Proof. now intros w l. Qed.

Lemma disk_kept_bind {A B} (c : M A) (k : A -> M B) :
  disk_kept c -> (forall a, disk_kept (k a)) -> disk_kept (bind c k).
Proof.
  intros Hc Hk w l. unfold bind. specialize (Hc w l).
  destruct (c w) as [[a | e] w1]; simpl in *; [|exact Hc].
  now rewrite Hk.
Qed.

Lemma disk_kept_get_os : disk_kept get_os.
Proof. now intros w l. Qed.

Lemma disk_kept_Path_cwd : disk_kept Path_cwd.
Proof. now intros w l. Qed.

Lemma disk_kept_get_asset name : disk_kept (get_latest_released_asset name).
Proof. now intros w l. Qed.

Lemma disk_kept_read_file p : disk_kept (read_file p).
Proof. intros w l. unfold read_file. destruct (fs w !! p) as [[|]|]; easy. Qed.

Lemma disk_kept_create_Temp l c : disk_kept (create_file (Temp, l) c).
Proof.
  intros w q. unfold create_file.
  destruct (fs w !! parent (Temp, l)) as [[|]|]; try easy.
  destruct (fs w !! (Temp, l)) as [[|]|]; try easy;
    cbn [snd fs set_fs]; now rewrite lookup_insert_ne.
Qed.

Lemma makedirs_Temp parts : forall l f f',
  makedirs (Temp, l) parts f = Ok f' ->
  forall q, f' !! (Disk, q) = f !! (Disk, q).
Proof.
  induction parts as [|part parts IH]; intros l f f' H q; cbn [makedirs fst snd] in H.
  - now injection H as <-.
  - destruct (f !! (Temp, l ++ [part])) as [[|]|]; [discriminate| |].
    + now apply (IH _ _ _ H).
    + rewrite (IH _ _ _ H q). now rewrite lookup_insert_ne.
Qed.

Lemma disk_kept_extract f member l : disk_kept (ZipFile_extract f member (Temp, l)).
Proof.
  unfold ZipFile_extract. destruct (f !! member); [|apply disk_kept_raise].
  intros w q. destruct (makedirs _ _ _) as [f'|e] eqn:E; [|reflexivity].
  cbn [fst snd]. rewrite (disk_kept_create_Temp _ _ (set_fs f' w) q). cbn [fs set_fs].
  eapply makedirs_Temp; eauto.
Qed.

(** ** Commands that leave the disk alone when they fail *)

Lemma failure_of_kept {A} (c : M A) : disk_kept c -> disk_kept_on_failure c.
Proof. intros H w e _ l. apply H. Qed.

Lemma failure_bind {A B} (c : M A) (k : A -> M B) :
  disk_kept c -> (forall a, disk_kept_on_failure (k a)) ->
  disk_kept_on_failure (bind c k).
Proof.
  intros Hc Hk w e. unfold bind. specialize (Hc w).
  destruct (c w) as [[a | e'] w1]; cbn [fst snd] in *.
  - intros H l. rewrite (Hk a w1 e H l). apply Hc.
  - intros _ l. apply Hc.
Qed.

Lemma failure_shutil_move o src dst : disk_kept_on_failure (shutil_move o src dst).
Proof.
  intros w e. unfold shutil_move.
  destruct (fs w !! src); [|easy].
  destruct (fs w !! dst) as [[|]|].
  - destruct (fs w !! parent dst) as [[|]|]; easy.
  - destruct (fs w !! _); easy.
  - destruct (fs w !! parent dst) as [[|]|]; easy.
Qed.

Lemma failure_TemporaryDirectory {A} (body : path -> M A) :
  disk_kept_on_failure (body (Temp, [])) ->
  disk_kept_on_failure (with_TemporaryDirectory body).
Proof.
  intros Hbody w e. unfold with_TemporaryDirectory.
  specialize (Hbody (set_fs (<[(Temp, []) := Dir]> (outside_temp (fs w))) w) e).
  destruct (body _ _) as [r w2]. cbn [fst snd fs set_fs] in *.
  intros H l. rewrite outside_temp_Disk, (Hbody H l).
  rewrite lookup_insert_ne by discriminate. apply outside_temp_Disk.
Qed.

Lemma update_failure gbk ZipFile v : disk_kept_on_failure (update gbk ZipFile v).
Proof.
  unfold update. apply failure_TemporaryDirectory.
  apply failure_bind; [apply disk_kept_get_os | intros o].
  rewrite asset_path.
  apply failure_bind; [apply disk_kept_get_asset | intros data].
  apply failure_bind; [apply disk_kept_create_Temp | intros _].
  apply failure_bind; [apply disk_kept_lift | intros transformed].
  apply failure_bind.
  { apply disk_kept_bind; [apply disk_kept_read_file | intros c; apply disk_kept_lift]. }
  intros f.
  apply failure_bind; [apply disk_kept_extract | intros _].
  apply failure_bind; [apply disk_kept_Path_cwd | intros cwd0].
  apply failure_shutil_move.
Qed.

Lemma update_temp_empty gbk ZipFile v w l :
  fs (snd (update gbk ZipFile v w)) !! (Temp, l) = None.
Proof.
  unfold update, with_TemporaryDirectory.
  match goal with |- context [let '(r, w2) := ?b in _] => destruct b as [r w2] end.
  cbn [snd fs set_fs]. apply outside_temp_Temp.
Qed.

End UpdateMore.

Import UpdateMore.

(** ** [update] *)

(** X6.  An update is all or nothing: when it fails, at whatever step,
    every file and directory on disk is as before; and however it ends,
    nothing is left in the temporary directory, nothing was printed and
    no input was read. *)
Theorem update_all_or_nothing (gbk_row : N -> option (Byte.byte * Byte.byte))
    (ZipFile : content -> result archive) (latest_version : str) (w : world) :
  (forall e, fst (update gbk_row ZipFile latest_version w) = Raise e ->
     forall l, fs (snd (update gbk_row ZipFile latest_version w)) !! (Disk, l)
               = fs w !! (Disk, l))
  /\ (forall l, fs (snd (update gbk_row ZipFile latest_version w)) !! (Temp, l) = None)
  /\ stdout (snd (update gbk_row ZipFile latest_version w)) = stdout w
  /\ stdin (snd (update gbk_row ZipFile latest_version w)) = stdin w.
Proof.
  split; [|split].
  - intros e. apply update_failure.
  - intros l. apply update_temp_empty.
  - apply console_update.
Qed.

Module UpdateFolder.

Section Run.
Variable gbk : N -> option (Byte.byte * Byte.byte).
Variable ZipFile : content -> result archive.
Variables (v : str) (w : world) (data : bytes) (arch : archive) (member : bytes).
Hypothesis Hrows : has_rows gbk gbk_rows_of_name.
Hypothesis Hasset : fst (get_latest_released_asset RELEASE_ASSET_NAME w) = Ok data.
Hypothesis Hzip : ZipFile (Raw data) = Ok arch.
Hypothesis Hmember : arch !! stored_executable_name = Some member.

Lemma update_moves_into :
  let dst := joinpath (os w) (Disk, cwd w) (versioned_executable_name (os w) v) in
  let inside := (fst dst, snd dst ++ [stored_executable_name]) in
  fs w !! dst = Some Dir ->
  update gbk ZipFile v w
  = match fs w !! inside with
    | None => (Ok tt, set_fs (<[inside := File (Raw member)]> (outside_temp (fs w))) w)
    | Some _ => (Raise (OSError "Destination path already exists"),
                 set_fs (outside_temp (fs w)) w)
    end.
Proof.
  intros dst inside Hdst.
  rewrite (update_extract gbk ZipFile v w data arch Hrows Hasset Hzip).
  unfold bind at 1. unfold ZipFile_extract. rewrite Hmember.
  cbn [os set_fs]. rewrite stored_target. cbn [removelast makedirs fs set_fs fst snd app].
  rewrite create_file_ok; cycle 1.
  { cbn [fs set_fs parent fst snd removelast]. unfold downloaded.
    rewrite lookup_insert_ne by discriminate. apply lookup_insert_eq. }
  { cbn [fs set_fs]. unfold downloaded.
    rewrite lookup_insert_ne
      by (intros [= H]; apply stored_not_asset; now symmetry).
    rewrite lookup_insert_ne by discriminate.
    now rewrite outside_temp_Temp. }
  cbn [fs set_fs].
  unfold bind at 1. unfold Path_cwd at 1. cbn [cwd set_fs]. fold dst.
  assert (Hroot : fst dst = Disk) by apply joinpath_cwd_Disk.
  subst inside.
  destruct dst as [r l] eqn:Edst. simpl in Hroot. subst r. cbn [fst snd].
  assert (Hlook : forall q : path, fst q = Disk ->
    (<[(Temp, [stored_executable_name]) := File (Raw member)]> (downloaded w data)) !! q
    = fs w !! q).
  { intros [r l'] Hr. simpl in Hr. subst r. unfold downloaded.
    rewrite !lookup_insert_ne by discriminate. apply outside_temp_Disk. }
  unfold shutil_move. cbn [fs set_fs].
  rewrite lookup_insert_eq.
  rewrite (Hlook (Disk, l)) by reflexivity. rewrite Hdst.
  cbn [fst snd basename List.last].
  rewrite (Hlook (Disk, l ++ [stored_executable_name])) by reflexivity.
  destruct (fs w !! (Disk, l ++ [stored_executable_name])) as [n|] eqn:Efs;
    cbn [fs set_fs].
  - now rewrite outside_temp_insert_Temp, outside_temp_downloaded.
  - now rewrite outside_temp_insert_Disk, outside_temp_delete_Temp,
            outside_temp_insert_Temp, outside_temp_downloaded.
Qed.
End Run.

End UpdateFolder.

Import UpdateFolder.

(** X7.  When the name of the new executable is that of a folder of the
    working directory, the executable goes into that folder, under the
    name the archive lists it by and not under the versioned name; when
    the folder has an entry of that name already, the update fails and
    changes nothing. *)
Theorem update_into_folder (gbk_row : N -> option (Byte.byte * Byte.byte))
    (ZipFile : content -> result archive)
    (v : str) (w : world) (data : bytes) (arch : archive) (member : bytes) :
  has_rows gbk_row gbk_rows_of_name ->
  fst (get_latest_released_asset RELEASE_ASSET_NAME w) = Ok data ->
  ZipFile (Raw data) = Ok arch ->
  arch !! stored_executable_name = Some member ->
  let folder := joinpath (os w) (Disk, cwd w) (versioned_executable_name (os w) v) in
  let inside := (Disk, snd folder ++ [stored_executable_name]) in
  fs w !! folder = Some Dir ->
  exists w',
    snd (update gbk_row ZipFile v w) = w'
    /\ (fs w !! inside = None ->
        fst (update gbk_row ZipFile v w) = Ok tt
        /\ fs w' !! inside = Some (File (Raw member))
        /\ fs w' !! folder = Some Dir
        /\ forall l, (Disk, l) <> inside -> fs w' !! (Disk, l) = fs w !! (Disk, l))
    /\ (fs w !! inside <> None ->
        fst (update gbk_row ZipFile v w)
          = Raise (OSError "Destination path already exists")
        /\ forall l, fs w' !! (Disk, l) = fs w !! (Disk, l)).
Proof.
  intros Hrows Hasset Hzip Hmember folder inside Hfolder.
  eexists. split; [reflexivity|].
  rewrite (update_moves_into gbk_row ZipFile v w data arch member
             Hrows Hasset Hzip Hmember Hfolder).
  fold folder.
  assert (Hroot : fst folder = Disk) by apply joinpath_cwd_Disk.
  rewrite Hroot. fold inside.
  split.
  - intros Hnone. rewrite Hnone. cbn [fst snd fs set_fs].
    split; [reflexivity|]. split; [apply lookup_insert_eq|]. split.
    + rewrite lookup_insert_ne
        by (intros E; assert (fs w !! inside = Some Dir) by (rewrite E; exact Hfolder);
            congruence).
      destruct folder as [r l]. simpl in Hroot. subst r.
      now rewrite outside_temp_Disk.
    + intros l Hl. rewrite lookup_insert_ne by congruence. apply outside_temp_Disk.
  - intros Hsome. destruct (fs w !! inside); [|contradiction].
    cbn [fst snd fs set_fs]. split; [reflexivity|].
    intros l. apply outside_temp_Disk.
Qed.

(** X7, witness: the sample world with a folder of the name of the new
    executable: the executable is put into the folder. *)
Lemma update_into_folder_witness :
  exists w',
    update (rows_only gbk_rows_of_name) sample_ZipFile (utf8 "v0.3.0")
      sample_world_with_folder = (Ok tt, w')
    /\ fs w' !! (Disk, [utf8 "home"; utf8 "基金信息生成器v0.3.0.exe"; stored_executable_name])
       = Some (File (Raw sample_member)).
Proof.
  destruct (update_into_folder (rows_only gbk_rows_of_name) sample_ZipFile
              (utf8 "v0.3.0") sample_world_with_folder [Byte.x50; Byte.x4b]
              {[ stored_executable_name := sample_member ]} sample_member)
    as (w' & Hsnd & Hfresh & _).
  - exact rows_only_name.
  - vm_compute. reflexivity.
  - reflexivity.
  - vm_compute. reflexivity.
  - vm_compute. reflexivity.
  - destruct Hfresh as (Hfst & Hfile & _); [vm_compute; reflexivity|].
    exists w'. split.
    + rewrite <- Hsnd, <- Hfst. now destruct (update _ _ _ _).
    + exact Hfile.
Defined.

(* ===================================================================== *)
(** * More on the dialogues *)
(* ===================================================================== *)

Module DialogueMore.

Lemma world_eq (w1 w2 : world) :
  stdout w1 = stdout w2 -> stdin w1 = stdin w2 -> fs w1 = fs w2 ->
  cwd w1 = cwd w2 -> os w1 = os w2 -> releases_latest w1 = releases_latest w2 ->
  download w1 = download w2 -> w1 = w2.
Proof. destruct w1, w2. cbn [stdout stdin fs cwd os releases_latest download]. now intros -> -> -> -> -> -> ->. Qed.

Lemma invalid_answer_eqb line :
  invalid_answer line ->
  str_eqb (strip line) (utf8 "是") = false /\ str_eqb (strip line) (utf8 "否") = false.
Proof. intros [H1 H2]. split; now apply str_eqb_neq. Qed.

Lemma no_is_not_yes : str_eqb (utf8 "否") (utf8 "是") = false.
Proof. vm_compute. reflexivity. Qed.

Section Update.
Variable gbk : N -> option (Byte.byte * Byte.byte).
Variable ZipFile : content -> result archive.
Variables green red : str -> str.
Variable v : str.

Let prompt := update_prompt green red v.

(** Invalid answers: the prompt and the complaint, once each. *)
Lemma retries_cons (p line : str) bad :
  retries p (line :: bad) = p :: invalid_message :: retries p bad.
Proof. reflexivity. Qed.

Lemma ask_update_invalid bad : forall rest w,
  Forall invalid_answer bad ->
  stdin w = bad ++ rest ->
  ask_update gbk ZipFile green red v (bad ++ rest) w
  = ask_update gbk ZipFile green red v rest
      (set_stdin rest (set_stdout (stdout w ++ retries prompt bad) w)).
Proof.
  induction bad as [|line bad IH]; intros rest w Hbad Hin.
  - change (retries prompt []) with (@nil str). rewrite app_nil_r, app_nil_l.
    rewrite app_nil_l in Hin. rewrite <- Hin. now destruct w.
  - apply Forall_cons in Hbad as [Hline Hbad].
    destruct (invalid_answer_eqb line Hline) as [Hyes Hno].
    rewrite <- app_comm_cons. cbn [ask_update]. unfold bind at 1. unfold input.
    rewrite <- app_comm_cons in Hin. rewrite Hin.
    rewrite Hyes, Hno. unfold bind at 1. unfold print.
    rewrite IH; [|exact Hbad|reflexivity].
    rewrite retries_cons.
    cbn [stdout stdin fs cwd os releases_latest download set_stdin set_stdout].
    fold prompt. unfold invalid_message.
    rewrite <- !app_assoc. reflexivity.
Qed.

Lemma ask_update_yes answer rest w :
  stdin w = answer :: rest -> strip answer = utf8 "是" ->
  ask_update gbk ZipFile green red v (answer :: rest) w
  = (update gbk ZipFile v ;; exit)%N
      (set_stdin rest (set_stdout (stdout w ++ [prompt]) w)).
Proof.
  intros Hin Hyes. cbn [ask_update]. unfold bind at 1. unfold input. rewrite Hin.
  rewrite Hyes, str_eqb_refl. reflexivity.
Qed.

Lemma ask_update_no answer rest w :
  stdin w = answer :: rest -> strip answer = utf8 "否" ->
  ask_update gbk ZipFile green red v (answer :: rest) w
  = (Ok tt, set_stdin rest (set_stdout (stdout w ++ [prompt]) w)).
Proof.
  intros Hin Hno. cbn [ask_update]. unfold bind at 1. unfold input. rewrite Hin.
  rewrite Hno, no_is_not_yes, str_eqb_refl. reflexivity.
Qed.

Lemma ask_update_eof w :
  stdin w = [] ->
  ask_update gbk ZipFile green red v [] w
  = (Raise EOFError, set_stdout (stdout w ++ [prompt]) w).
Proof. intros Hin. cbn [ask_update]. unfold bind, input. now rewrite Hin. Qed.

Lemma asked_after (p : str) bad inp rest w :
  set_stdin rest
    (set_stdout
       (stdout (set_stdin inp (set_stdout (stdout w ++ retries p bad) w)) ++ [p])
       (set_stdin inp (set_stdout (stdout w ++ retries p bad) w)))
  = asked p bad rest w.
Proof.
  unfold asked.
  cbn [stdout stdin fs cwd os releases_latest download set_stdin set_stdout].
  now rewrite <- app_assoc.
Qed.

Lemma asked_eof (p : str) bad w :
  set_stdout
    (stdout (set_stdin [] (set_stdout (stdout w ++ retries p bad) w)) ++ [p])
    (set_stdin [] (set_stdout (stdout w ++ retries p bad) w))
  = asked p bad [] w.
Proof.
  unfold asked.
  cbn [stdout stdin fs cwd os releases_latest download set_stdin set_stdout].
  now rewrite <- app_assoc.
Qed.

Lemma invalid_sample : Forall invalid_answer [utf8 "?"].
Proof.
  constructor; [|constructor].
  split; intros H; vm_compute in H; discriminate.
Qed.

End Update.

Section Overwrite.
Variables green red : str -> str.
Variable out_filename : str.

Let prompt := overwrite_prompt green red out_filename.

Lemma ask_overwrite_invalid bad : forall rest w,
  Forall invalid_answer bad ->
  stdin w = bad ++ rest ->
  ask_overwrite green red out_filename (bad ++ rest) w
  = ask_overwrite green red out_filename rest
      (set_stdin rest (set_stdout (stdout w ++ retries prompt bad) w)).
Proof.
  induction bad as [|line bad IH]; intros rest w Hbad Hin.
  - change (retries prompt []) with (@nil str). rewrite app_nil_r, app_nil_l.
    rewrite app_nil_l in Hin. rewrite <- Hin. now destruct w.
  - apply Forall_cons in Hbad as [Hline Hbad].
    destruct (invalid_answer_eqb line Hline) as [Hyes Hno].
    rewrite <- app_comm_cons. cbn [ask_overwrite]. unfold bind at 1. unfold input.
    rewrite <- app_comm_cons in Hin. rewrite Hin.
    rewrite Hyes, Hno. unfold bind at 1. unfold print.
    rewrite IH; [|exact Hbad|reflexivity].
    rewrite retries_cons.
    cbn [stdout stdin fs cwd os releases_latest download set_stdin set_stdout].
    fold prompt. unfold invalid_message.
    rewrite <- !app_assoc. reflexivity.
Qed.

Lemma ask_overwrite_yes answer rest w :
  stdin w = answer :: rest -> strip answer = utf8 "是" ->
  ask_overwrite green red out_filename (answer :: rest) w
  = (Ok tt, set_stdin rest (set_stdout (stdout w ++ [prompt]) w)).
Proof.
  intros Hin Hyes. cbn [ask_overwrite]. unfold bind at 1. unfold input. rewrite Hin.
  rewrite Hyes, str_eqb_refl. reflexivity.
Qed.

Lemma ask_overwrite_no answer rest w :
  stdin w = answer :: rest -> strip answer = utf8 "否" ->
  ask_overwrite green red out_filename (answer :: rest) w
  = (Raise SystemExit, set_stdin rest (set_stdout (stdout w ++ [prompt]) w)).
Proof.
  intros Hin Hno. cbn [ask_overwrite]. unfold bind at 1. unfold input. rewrite Hin.
  rewrite Hno, no_is_not_yes, str_eqb_refl. reflexivity.
Qed.

Lemma ask_overwrite_eof w :
  stdin w = [] ->
  ask_overwrite green red out_filename [] w
  = (Raise EOFError, set_stdout (stdout w ++ [prompt]) w).
Proof. intros Hin. cbn [ask_overwrite]. unfold bind, input. now rewrite Hin. Qed.

(** The dialogue changes the console alone. *)
Lemma ask_overwrite_files lines : forall w,
  fs (snd (ask_overwrite green red out_filename lines w)) = fs w
  /\ cwd (snd (ask_overwrite green red out_filename lines w)) = cwd w.
Proof.
  induction lines as [|line lines IH]; intros w; cbn [ask_overwrite];
    unfold bind, input, print, ret, exit, raise.
  - destruct (stdin w); split; reflexivity.
  - destruct (stdin w) as [|answer rest]; [split; reflexivity|].
    destruct (str_eqb (strip answer) (utf8 "是")); [split; reflexivity|].
    destruct (str_eqb (strip answer) (utf8 "否")); [split; reflexivity|].
    match goal with |- context [ask_overwrite _ _ _ _ ?w1] => destruct (IH w1) as [H1 H2] end.
    rewrite H1, H2. split; reflexivity.
Qed.

End Overwrite.

End DialogueMore.

Import DialogueMore.

(** ** [check_update] *)

(** X8.  When the release is newer and the user, after any number of
    invalid answers, answers yes, the update runs and the program ends
    there: with [SystemExit] after a successful update, with the error
    of the update otherwise.  [check_update] does not return. *)
Theorem check_update_accepted (gbk_row : N -> option (Byte.byte * Byte.byte))
    (ZipFile : content -> result archive) (green red : str -> str)
    (w : world) (rel : release) (remote : Z * Z * Z)
    (bad : list str) (answer : str) (rest : list str) :
  releases_latest w = Ok rel ->
  parse_version_number (tag_name rel) = Ok remote ->
  tuple_gt (tuple3 remote) (tuple3 (0, 2, 0)%Z) = true ->
  stdin w = bad ++ answer :: rest ->
  Forall invalid_answer bad ->
  strip answer = utf8 "是" ->
  check_update gbk_row ZipFile green red w
  = match update gbk_row ZipFile (tag_name rel)
            (asked (update_prompt green red (tag_name rel)) bad rest w) with
    | (Ok _, w') => (Raise SystemExit, w')
    | (Raise e, w') => (Raise e, w')
    end.
Proof.
  intros Hrel Hparse Hgt Hin Hbad Hyes.
  rewrite (check_update_cases _ _ _ _ _ _ _ Hrel Hparse), Hgt, Hin.
  rewrite ask_update_invalid by assumption.
  rewrite ask_update_yes by (reflexivity || assumption).
  rewrite asked_after. unfold bind, exit, raise.
  now destruct (update _ _ _ _) as [[[]|e] w'].
Qed.

(** X8, witness: the user mistypes, then accepts: the program ends with
    the new executable installed. *)
Lemma check_update_accepted_witness :
  fst (check_update (rows_only gbk_rows_of_name) sample_ZipFile id id sample_world_accepting)
    = Raise SystemExit
  /\ fs (snd (check_update (rows_only gbk_rows_of_name) sample_ZipFile id id
                sample_world_accepting))
       !! (Disk, [utf8 "home"; utf8 "基金信息生成器v0.3.0.exe"])
     = Some (File (Raw sample_member)).
Proof.
  rewrite (check_update_accepted (rows_only gbk_rows_of_name) sample_ZipFile id id
             sample_world_accepting sample_release (0, 3, 0)%Z [utf8 "?"] (utf8 "是") []).
  - split; vm_compute; reflexivity.
  - reflexivity.
  - vm_compute. reflexivity.
  - reflexivity.
  - reflexivity.
  - exact invalid_sample.
  - vm_compute. reflexivity.
Defined.

(** X9.  When the release is newer and the user, after any number of
    invalid answers, answers no, [check_update] returns: the prompt was
    shown once per answer, the complaint once per invalid answer, the
    answers are consumed, and nothing else has changed. *)
Theorem check_update_declined (gbk_row : N -> option (Byte.byte * Byte.byte))
    (ZipFile : content -> result archive) (green red : str -> str)
    (w : world) (rel : release) (remote : Z * Z * Z)
    (bad : list str) (answer : str) (rest : list str) :
  releases_latest w = Ok rel ->
  parse_version_number (tag_name rel) = Ok remote ->
  tuple_gt (tuple3 remote) (tuple3 (0, 2, 0)%Z) = true ->
  stdin w = bad ++ answer :: rest ->
  Forall invalid_answer bad ->
  strip answer = utf8 "否" ->
  check_update gbk_row ZipFile green red w
  = (Ok tt, asked (update_prompt green red (tag_name rel)) bad rest w).
Proof.
  intros Hrel Hparse Hgt Hin Hbad Hno.
  rewrite (check_update_cases _ _ _ _ _ _ _ Hrel Hparse), Hgt, Hin.
  rewrite ask_update_invalid by assumption.
  rewrite ask_update_no by (reflexivity || assumption).
  now rewrite asked_after.
Qed.

(** X9, witness: the user of the sample world mistypes, then declines. *)
Lemma check_update_declined_witness :
  check_update (rows_only gbk_rows_of_name) sample_ZipFile id id sample_world
  = (Ok tt, asked (update_prompt id id (utf8 "v0.3.0")) [utf8 "?"] [] sample_world).
Proof.
  apply (check_update_declined (rows_only gbk_rows_of_name) sample_ZipFile id id
           sample_world sample_release (0, 3, 0)%Z [utf8 "?"] (utf8 " 否 ") []).
  - reflexivity.
  - vm_compute. reflexivity.
  - reflexivity.
  - reflexivity.
  - exact invalid_sample.
  - vm_compute. reflexivity.
Defined.

(** X10.  When the release is newer and the input ends before a valid
    answer, [check_update] raises [EOFError] at the prompt that finds no
    answer; no update was made. *)
Theorem check_update_end_of_input (gbk_row : N -> option (Byte.byte * Byte.byte))
    (ZipFile : content -> result archive) (green red : str -> str)
    (w : world) (rel : release) (remote : Z * Z * Z) :
  releases_latest w = Ok rel ->
  parse_version_number (tag_name rel) = Ok remote ->
  tuple_gt (tuple3 remote) (tuple3 (0, 2, 0)%Z) = true ->
  Forall invalid_answer (stdin w) ->
  check_update gbk_row ZipFile green red w
  = (Raise EOFError, asked (update_prompt green red (tag_name rel)) (stdin w) [] w).
Proof.
  intros Hrel Hparse Hgt Hbad.
  rewrite (check_update_cases _ _ _ _ _ _ _ Hrel Hparse), Hgt.
  rewrite <- (app_nil_r (stdin w)) at 1.
  rewrite ask_update_invalid; [|assumption|now rewrite app_nil_r].
  rewrite ask_update_eof by reflexivity.
  now rewrite asked_eof.
Qed.

(** X10, witness: no input at all. *)
Lemma check_update_end_of_input_witness :
  check_update (rows_only gbk_rows_of_name) sample_ZipFile id id
    (set_stdin [] sample_world)
  = (Raise EOFError,
     set_stdout [update_prompt id id (utf8 "v0.3.0")] (set_stdin [] sample_world)).
Proof.
  apply (check_update_end_of_input (rows_only gbk_rows_of_name) sample_ZipFile id id
           (set_stdin [] sample_world) sample_release (0, 3, 0)%Z).
  - reflexivity.
  - vm_compute. reflexivity.
  - reflexivity.
  - constructor.
Defined.

(** ** [check_args] *)

Module ArgsFacts.

Lemma os_stat_world name w : exists found, os_stat name w = (Ok found, w).
Proof. unfold os_stat. eauto. Qed.

Lemma check_args_eq green red in_filename out_filename yes_to_all w :
  check_args green red in_filename out_filename yes_to_all w
  = match fst (os_stat in_filename w) with
    | Ok None => (Raise FileNotFoundError, w)
    | Ok (Some _) =>
        match fst (os_stat out_filename w) with
        | Ok (Some Dir) => (Raise (RuntimeError (folder_exists_message out_filename)), w)
        | Ok (Some (File _)) =>
            if yes_to_all then (Ok tt, w)
            else ask_overwrite green red out_filename (stdin w) w
        | _ => (Ok tt, w)
        end
    | Raise e => (Raise e, w)
    end.
Proof.
  destruct (os_stat_world in_filename w) as [f1 E1].
  destruct (os_stat_world out_filename w) as [f2 E2].
  unfold check_args, os_path_exists, os_path_isdir, os_path_isfile, bind, ret, raise.
  rewrite E1. cbn [fst].
  destruct f1 as [n1|]; cbn [negb]; [|reflexivity].
  rewrite E2. cbn [fst].
  destruct f2 as [[c|]|]; try reflexivity; rewrite E2; cbn [andb negb]; try reflexivity.
  now destruct yes_to_all.
Qed.

Lemma os_path_exists_true name w :
  fst (os_path_exists name w) = Ok true ->
  exists found, fst (os_stat name w) = Ok (Some found).
Proof.
  destruct (os_stat_world name w) as [f E].
  unfold os_path_exists, bind, ret. rewrite E. cbn [fst].
  destruct f; [eauto | discriminate].
Qed.

Lemma os_path_exists_false name w :
  fst (os_path_exists name w) = Ok false -> fst (os_stat name w) = Ok None.
Proof.
  destruct (os_stat_world name w) as [f E].
  unfold os_path_exists, bind, ret. rewrite E. cbn [fst].
  destruct f; [discriminate | reflexivity].
Qed.

Lemma os_path_isfile_true name w :
  fst (os_path_isfile name w) = Ok true ->
  exists c, fst (os_stat name w) = Ok (Some (File c)).
Proof.
  destruct (os_stat_world name w) as [f E].
  unfold os_path_isfile, bind, ret. rewrite E. cbn [fst].
  destruct f as [[c|]|]; [eauto | discriminate | discriminate].
Qed.

End ArgsFacts.

Import DialogueMore ArgsFacts.

(** X11.  When the input exists, the output is an existing file and
    [yes_to_all] is off, the user is asked, again after every invalid
    answer: yes lets the program go on, no ends it with [SystemExit].
    With [yes_to_all] on nothing is asked. *)
Theorem check_args_overwrite (green red : str -> str)
    (in_filename out_filename : str) (w : world)
    (bad : list str) (answer : str) (rest : list str) :
  fst (os_path_exists in_filename w) = Ok true ->
  fst (os_path_isfile out_filename w) = Ok true ->
  stdin w = bad ++ answer :: rest ->
  Forall invalid_answer bad ->
  (strip answer = utf8 "是" ->
   check_args green red in_filename out_filename false w
   = (Ok tt, asked (overwrite_prompt green red out_filename) bad rest w))
  /\ (strip answer = utf8 "否" ->
      check_args green red in_filename out_filename false w
      = (Raise SystemExit, asked (overwrite_prompt green red out_filename) bad rest w))
  /\ check_args green red in_filename out_filename true w = (Ok tt, w).
Proof.
  intros Hin Hout Hstdin Hbad.
  apply os_path_exists_true in Hin as [found Hin].
  apply os_path_isfile_true in Hout as [c Hout].
  rewrite !check_args_eq, Hin, Hout, Hstdin.
  rewrite ask_overwrite_invalid by assumption.
  split; [|split; [|reflexivity]].
  - intros Hyes. rewrite ask_overwrite_yes by (reflexivity || assumption).
    now rewrite asked_after.
  - intros Hno. rewrite ask_overwrite_no by (reflexivity || assumption).
    now rewrite asked_after.
Qed.

(** X11, witness: the output names an existing file; the user mistypes,
    then accepts. *)
Lemma check_args_overwrite_witness :
  check_args id id (utf8 "codes.txt") (utf8 "基金信息生成器v0.3.0.exe") false
    sample_world_overwrite
  = (Ok tt,
     asked (overwrite_prompt id id (utf8 "基金信息生成器v0.3.0.exe")) [utf8 "?"] []
       sample_world_overwrite).
Proof.
  refine (proj1 (check_args_overwrite id id (utf8 "codes.txt")
                   (utf8 "基金信息生成器v0.3.0.exe")
                   sample_world_overwrite [utf8 "?"] (utf8 "是 ") [] _ _ _ _) _).
  - vm_compute. reflexivity.
  - vm_compute. reflexivity.
  - reflexivity.
  - exact invalid_sample.
  - vm_compute. reflexivity.
Defined.

(** X12.  [check_args] changes no file and does not leave the working
    directory; with [yes_to_all] it changes nothing at all.  It returns
    only when the input exists and the output is not a folder, and a
    missing input is what it reports whatever the output is. *)
Theorem check_args_verdict (green red : str -> str)
    (in_filename out_filename : str) (yes_to_all : bool) (w : world) :
  fs (snd (check_args green red in_filename out_filename yes_to_all w)) = fs w
  /\ cwd (snd (check_args green red in_filename out_filename yes_to_all w)) = cwd w
  /\ (yes_to_all = true ->
      snd (check_args green red in_filename out_filename yes_to_all w) = w)
  /\ (fst (check_args green red in_filename out_filename yes_to_all w) = Ok tt ->
      fst (os_path_exists in_filename w) = Ok true
      /\ fst (os_path_isdir out_filename w) = Ok false)
  /\ (fst (os_path_exists in_filename w) = Ok false ->
      check_args green red in_filename out_filename yes_to_all w
      = (Raise FileNotFoundError, w)).
Proof.
  rewrite check_args_eq.
  destruct (os_stat_world in_filename w) as [f1 E1].
  destruct (os_stat_world out_filename w) as [f2 E2].
  unfold os_path_exists, os_path_isdir, bind, ret. rewrite E1, E2. cbn [fst].
  destruct f1 as [n1|]; [|repeat split; (reflexivity || discriminate)].
  destruct f2 as [[c|]|]; try (repeat split; (reflexivity || discriminate)).
  destruct yes_to_all; [repeat split; (reflexivity || discriminate)|].
  destruct (ask_overwrite_files green red out_filename (stdin w) w) as [Hfs Hcwd].
  split; [exact Hfs|]. split; [exact Hcwd|].
  split; [discriminate|]. split; [split; reflexivity | discriminate].
Qed.

(* ===================================================================== *)
(** * More on reading the codes *)
(* ===================================================================== *)

Module TextFacts.

Lemma universal_newlines_cons s : s <> [] -> universal_newlines s <> [].
Proof.
  induction s as [|c s IH]; [congruence|]. intros _. cbn [universal_newlines].
  destruct (c =? 13); [|discriminate].
  destruct s as [|c' s]; [discriminate|].
  destruct (c' =? 10); [|discriminate].
  apply IH. discriminate.
Qed.

(** The head of a text decides alone whether a line boundary before it
    closes a line. *)
Lemma splitlines_break c s :
  is_linebreak c = true -> c <> 13 ->
  splitlines (c :: s) = [] :: splitlines s.
Proof.
  intros Hc H13. cbn [splitlines]. rewrite Hc.
  apply N.eqb_neq in H13. rewrite H13. cbn [andb].
  now destruct s.
Qed.

Lemma splitlines_universal s : splitlines (universal_newlines s) = splitlines s.
Proof.
  induction s as [|c s IH]; [reflexivity|].
  cbn [universal_newlines].
  destruct (N.eqb_spec c 13) as [-> | H13].
  - destruct s as [|c' s]; [reflexivity|].
    destruct (N.eqb_spec c' 10) as [-> | H10].
    + rewrite IH. cbn [splitlines]. reflexivity.
    + rewrite splitlines_break by (reflexivity || discriminate).
      rewrite IH. cbn [splitlines]. change (is_linebreak 13) with true.
      apply N.eqb_neq in H10. rewrite H10. reflexivity.
  - cbn [splitlines]. rewrite IH.
    destruct (is_linebreak c); [|reflexivity].
    apply N.eqb_neq in H13. rewrite H13. cbn [andb].
    destruct s as [|c' s]; [reflexivity|].
    destruct (universal_newlines (c' :: s)) eqn:E; [|reflexivity].
    now apply universal_newlines_cons in E.
Qed.

Lemma splitlines_line line rest :
  Forall (fun c => is_linebreak c = false) line ->
  splitlines (line ++ 10 :: rest) = line :: splitlines rest.
Proof.
  induction 1 as [|c line Hc _ IH].
  - apply splitlines_break; [reflexivity | discriminate].
  - rewrite <- app_comm_cons. cbn [splitlines]. rewrite Hc, IH. reflexivity.
Qed.

Lemma splitlines_lines lines :
  Forall (Forall (fun c => is_linebreak c = false)) lines ->
  splitlines (concat (map (fun line => line ++ [10]) lines)) = lines.
Proof.
  induction 1 as [|line lines Hline _ IH]; [reflexivity|].
  cbn [map concat]. rewrite <- app_assoc. cbn [app].
  now rewrite splitlines_line, IH.
Qed.

(** A decimal digit is no line boundary. *)
Lemma digit_no_linebreak c : is_decimal c = true -> is_linebreak c = false.
Proof.
  intros H. destruct (is_linebreak c) eqn:E; [|reflexivity].
  unfold is_linebreak in E.
  repeat (apply orb_true_iff in E as [E | E]).
  - apply andb_true_iff in E as [E1 E2]. apply N.leb_le in E1, E2.
    assert (Hc : In c [10; 11; 12; 13]) by (simpl; lia).
    repeat (destruct Hc as [<- | Hc]; [vm_compute in H; discriminate|]). destruct Hc.
  - apply andb_true_iff in E as [E1 E2]. apply N.leb_le in E1, E2.
    assert (Hc : In c [28; 29; 30]) by (simpl; lia).
    repeat (destruct Hc as [<- | Hc]; [vm_compute in H; discriminate|]). destruct Hc.
  - apply N.eqb_eq in E as ->. vm_compute in H. discriminate.
  - apply N.eqb_eq in E as ->. vm_compute in H. discriminate.
  - apply N.eqb_eq in E as ->. vm_compute in H. discriminate.
Qed.

End TextFacts.

Module CodesFacts.
Import TextFacts.

Lemma byte_of_to_N n : n < 256 -> Byte.to_N (byte_of n) = n.
Proof.
  intros H. unfold byte_of.
  destruct (Byte.of_N n) as [b|] eqn:E.
  - now apply Byte.to_of_N.
  - apply Byte.of_N_None_iff in E. lia.
Qed.

Lemma decode_utf8_ascii s :
  Forall (fun c => c < 128) s -> decode_utf8 (ascii_bytes s) = Ok s.
Proof.
  induction 1 as [|c s Hc _ IH]; [reflexivity|].
  unfold ascii_bytes in *. cbn [map decode_utf8].
  rewrite byte_of_to_N by lia.
  apply N.ltb_lt in Hc. rewrite Hc, IH. reflexivity.
Qed.

Lemma decode_utf8_mark data :
  decode_utf8 (byte_order_mark ++ data)
  = let! text := decode_utf8 data in Ok (0xfeff :: text).
Proof. unfold byte_order_mark. cbn [app]. reflexivity. Qed.

Lemma ascii_digit_lt c : is_ascii_digit c = true -> c < 128.
Proof.
  unfold is_ascii_digit. intros H.
  apply andb_true_iff in H as [_ H]. apply N.leb_le in H. lia.
Qed.

Lemma six_digits_no_linebreak code :
  six_digits code -> Forall (fun c => is_linebreak c = false) code.
Proof.
  intros [_ H]. eapply Forall_impl; [exact H|]. apply digit_no_linebreak.
Qed.

Lemma clean_codes_six codes : Forall six_digits codes -> clean_codes codes = codes.
Proof.
  rewrite clean_codes_filter.
  induction 1 as [|code codes Hcode _ IH]; [reflexivity|].
  cbn [List.filter]. apply six_digitsb_spec in Hcode. now rewrite Hcode, IH.
Qed.

(** A line that begins with the mark is no code. *)
Lemma mark_no_code line : six_digitsb (0xfeff :: line) = false.
Proof.
  unfold six_digitsb. cbn [forallb].
  change (is_decimal 0xfeff) with false. cbn [andb]. apply andb_false_r.
Qed.

Lemma splitlines_mark s :
  clean_codes (splitlines (0xfeff :: s)) = clean_codes (tl (splitlines s)).
Proof.
  rewrite !clean_codes_filter. cbn [splitlines].
  change (is_linebreak 0xfeff) with false. cbv iota.
  destruct (splitlines s) as [|line lines]; cbn [tl List.filter].
  - now rewrite mark_no_code.
  - now rewrite mark_no_code.
Qed.

Lemma text_of_lines_LF lines :
  Forall (Forall (fun c => is_linebreak c = false)) lines ->
  splitlines (text_of_lines [10] lines) = lines.
Proof. apply splitlines_lines. Qed.

Lemma splitlines_line_CRLF line rest :
  Forall (fun c => is_linebreak c = false) line ->
  splitlines (line ++ [13; 10] ++ rest) = line :: splitlines rest.
Proof.
  induction 1 as [|c line Hc _ IH].
  - cbn [app]. change (splitlines (13 :: 10 :: rest)) with (splitlines (10 :: rest)).
    apply splitlines_break; [reflexivity | discriminate].
  - rewrite <- app_comm_cons. cbn [splitlines]. rewrite Hc, IH. reflexivity.
Qed.

Lemma text_of_lines_CRLF lines :
  Forall (Forall (fun c => is_linebreak c = false)) lines ->
  splitlines (text_of_lines [13; 10] lines) = lines.
Proof.
  unfold text_of_lines.
  induction 1 as [|line lines Hline _ IH]; [reflexivity|].
  cbn [map concat]. rewrite <- app_assoc.
  now rewrite splitlines_line_CRLF, IH.
Qed.

Lemma text_of_codes_ascii ending codes :
  Forall (fun c => c < 128) ending ->
  Forall six_ascii_digits codes ->
  Forall (fun c => c < 128) (text_of_lines ending codes).
Proof.
  intros Hending. unfold text_of_lines.
  induction 1 as [|code codes [_ Hcode] _ IH]; [constructor|].
  cbn [map concat]. rewrite !Forall_app. split; [split|]; try assumption.
  eapply Forall_impl; [exact Hcode|]. apply ascii_digit_lt.
Qed.

Lemma codes_read_lines ending codes :
  ending = [10] \/ ending = [13; 10] ->
  Forall six_ascii_digits codes ->
  decode_utf8 (ascii_bytes (text_of_lines ending codes)) = Ok (text_of_lines ending codes)
  /\ splitlines (text_of_lines ending codes) = codes.
Proof.
  intros Hending Hcodes.
  assert (Hsix : Forall six_digits codes)
    by (eapply Forall_impl; [exact Hcodes | apply six_ascii_is_six_digits]).
  assert (Hlines : Forall (Forall (fun c => is_linebreak c = false)) codes)
    by (eapply Forall_impl; [exact Hsix | apply six_digits_no_linebreak]).
  split.
  - apply decode_utf8_ascii, text_of_codes_ascii; [|exact Hcodes].
    destruct Hending as [-> | ->]; repeat constructor.
  - destruct Hending as [-> | ->];
      [now apply text_of_lines_LF | now apply text_of_lines_CRLF].
Qed.

Lemma codes_read_eq data :
  codes_read data
  = let! text := decode_utf8 data in Ok (clean_codes (splitlines text)).
Proof.
  unfold codes_read. destruct (decode_utf8 data) as [text|e]; [|reflexivity].
  cbn [rbind]. now rewrite splitlines_universal.
Qed.

End CodesFacts.

Import TextFacts CodesFacts.

(** ** Reading the codes *)

(** X13.  The translation of line ends made when the file is read as
    text does not show in the codes: they are those of the decoded
    bytes, split into lines and cleaned. *)
Theorem codes_read_any_line_ends (data : bytes) :
  codes_read data
  = let! text := decode_utf8 data in Ok (clean_codes (splitlines text)).
Proof.
  unfold codes_read. destruct (decode_utf8 data) as [text|e]; [|reflexivity].
  cbn [rbind]. now rewrite splitlines_universal.
Qed.

(** X14.  A file of codes of six ASCII digits, one per line, each line
    closed by a line feed or by a carriage return and a line feed, is
    read back as these codes, in their order. *)
Theorem codes_read_back (ending : str) (codes : list str) :
  ending = [10] \/ ending = [13; 10] ->
  Forall six_ascii_digits codes ->
  codes_read (ascii_bytes (text_of_lines ending codes)) = Ok codes.
Proof.
  intros Hending Hcodes.
  destruct (codes_read_lines ending codes Hending Hcodes) as [Hdecode Hsplit].
  unfold codes_read. rewrite Hdecode. cbn [rbind].
  rewrite splitlines_universal, Hsplit.
  rewrite clean_codes_six; [reflexivity|].
  eapply Forall_impl; [exact Hcodes | apply six_ascii_is_six_digits].
Qed.

(** X14, witness: two codes, with the line ends of Windows. *)
Lemma codes_read_back_witness :
  codes_read (ascii_bytes (utf8 "000001" ++ [13; 10] ++ utf8 "999999" ++ [13; 10]))
  = Ok [utf8 "000001"; utf8 "999999"].
Proof.
  apply (codes_read_back [13; 10] [utf8 "000001"; utf8 "999999"]).
  - now right.
  - repeat constructor.
Defined.

(** X15.  A byte order mark at the head of the file is kept by the
    [utf-8] codec and becomes part of the first line, which is then no
    code: of a file of codes that begins with the mark, the first code
    is dropped without a word. *)
Theorem codes_read_after_mark (codes : list str) :
  Forall six_ascii_digits codes ->
  codes_read (byte_order_mark ++ ascii_bytes (text_of_lines [10] codes))
  = Ok (tl codes).
Proof.
  intros Hcodes.
  destruct (codes_read_lines [10] codes (or_introl eq_refl) Hcodes) as [Hdecode Hsplit].
  rewrite codes_read_eq, decode_utf8_mark, Hdecode. cbn [rbind].
  rewrite splitlines_mark, Hsplit.
  rewrite clean_codes_six; [reflexivity|].
  destruct codes as [|code codes]; [constructor|].
  apply Forall_cons in Hcodes as [_ Hcodes]. cbn [tl].
  eapply Forall_impl; [exact Hcodes | apply six_ascii_is_six_digits].
Qed.

(** X15, witness: of two codes after the mark, the second alone is read. *)
Lemma codes_read_after_mark_witness :
  codes_read (byte_order_mark
                ++ ascii_bytes (utf8 "000001" ++ [10] ++ utf8 "999999" ++ [10]))
  = Ok [utf8 "999999"].
Proof.
  apply (codes_read_after_mark [utf8 "000001"; utf8 "999999"]).
  repeat constructor.
Defined.

(* ===================================================================== *)
(** * More on [main] *)
(* ===================================================================== *)

Module MainFacts.
Import TextFacts CodesFacts.

Lemma said_said a b w : said b (said a w) = said (a ++ b) w.
Proof.
  unfold said. cbn [stdout stdin fs cwd os releases_latest download set_stdout].
  now rewrite app_assoc.
Qed.

Lemma print_said text w : print text w = (Ok tt, said [text] w).
Proof. reflexivity. Qed.

Lemma list_comprehension_ext {A B} (f g : A -> result B) l :
  Forall (fun x => f x = g x) l -> list_comprehension f l = list_comprehension g l.
Proof.
  induction 1 as [|x l Hx _ IH]; [reflexivity|].
  cbn [list_comprehension]. now rewrite Hx, IH.
Qed.

Lemma list_comprehension_first_failure {A B} (f : A -> result B)
    before x after e :
  Forall (fun y => exists b, f y = Ok b) before ->
  f x = Raise e ->
  list_comprehension f (before ++ x :: after) = Raise e.
Proof.
  intros Hbefore Hx. induction Hbefore as [|y before [b Hy] _ IH].
  - cbn [app list_comprehension]. now rewrite Hx.
  - cbn [app list_comprehension]. rewrite Hy. cbn [rbind]. now rewrite IH.
Qed.

Section Run.
Variable gbk : N -> option (Byte.byte * Byte.byte).
Variable ZipFile : content -> result archive.
Variables green red : str -> str.
Variable get_fund_info : str -> result (gmap str str).
Variable workbook_bytes : Worksheet -> bytes.
Variables filename output : str.
Variable yes_to_all : bool.

Lemma Path_read_text_eq name w :
  Path_read_text workbook_bytes name w
  = (match fs w !! joinpath (os w) (Disk, cwd w) name with
     | Some (File c) =>
         let! text := decode_utf8 (file_bytes workbook_bytes c) in
         Ok (universal_newlines text)
     | Some Dir => Raise (OSError "Is a directory")
     | None => Raise (OSError "No such file or directory")
     end, w).
Proof.
  unfold Path_read_text, read_file.
  destruct (fs w !! joinpath (os w) (Disk, cwd w) name) as [[c|]|]; reflexivity.
Qed.

(** The run of [main] once the two checks are passed. *)
Definition after_checks (w2 : world) : result unit * world :=
  match fst (Path_read_text workbook_bytes filename w2) with
  | Raise e => (Raise e, said [reading_codes] w2)
  | Ok text =>
      match list_comprehension get_fund_info (clean_codes (splitlines text)) with
      | Raise e => (Raise e, said [reading_codes; cleaning_codes; fetching] w2)
      | Ok infos =>
          match write_to_xlsx infos output
                  (said [reading_codes; cleaning_codes; fetching; writing] w2) with
          | (Raise e, w3) => (Raise e, w3)
          | (Ok _, w3) =>
              match stdin w3 with
              | [] => (Raise EOFError, said [finished; exit_prompt] w3)
              | _ :: rest => (Ok tt, set_stdin rest (said [finished; exit_prompt] w3))
              end
          end
      end
  end.

Lemma main_eq w :
  main gbk ZipFile green red get_fund_info workbook_bytes filename output yes_to_all w
  = match check_update gbk ZipFile green red w with
    | (Raise e, w1) => (Raise e, w1)
    | (Ok _, w1) =>
        match check_args green red filename output yes_to_all w1 with
        | (Raise e, w2) => (Raise e, w2)
        | (Ok _, w2) => after_checks w2
        end
    end.
Proof.
  unfold main.
  unfold bind at 1.
  destruct (check_update gbk ZipFile green red w) as [[[]|e] w1]; [|reflexivity].
  unfold bind at 1.
  destruct (check_args green red filename output yes_to_all w1) as [[[]|e] w2];
    [|reflexivity].
  unfold after_checks.
  unfold reading_codes, cleaning_codes, fetching, writing, finished, exit_prompt.
  unfold bind at 1. rewrite print_said.
  unfold bind at 1. rewrite !Path_read_text_eq. cbn [fst].
  cbn [fs cwd os said set_stdout].
  match goal with |- match ?x with _ => _ end = _ => destruct x as [text|e] end;
    [|reflexivity].
  unfold bind at 1. rewrite print_said, said_said.
  unfold bind at 1. rewrite print_said, said_said.
  unfold bind at 1. unfold lift at 1.
  destruct (list_comprehension get_fund_info (clean_codes (splitlines text)))
    as [infos|e]; [|reflexivity].
  unfold bind at 1. rewrite print_said, said_said. cbn [app].
  unfold bind at 1.
  destruct (write_to_xlsx infos output _) as [[[]|e] w3]; [|reflexivity].
  unfold bind at 1. rewrite print_said.
  unfold bind, input, ret, said.
  cbn [stdout stdin fs cwd os releases_latest download set_stdout set_stdin].
  rewrite <- app_assoc. cbn [app].
  destruct (stdin w3); reflexivity.
Qed.

(** ** What the checks leave alone *)

Lemma ask_update_Ok v lines : forall w w',
  ask_update gbk ZipFile green red v lines w = (Ok tt, w') -> same_files w w'.
Proof.
  induction lines as [|line lines IH]; intros w w'; cbn [ask_update];
    unfold bind at 1; unfold input.
  - destruct (stdin w); discriminate.
  - destruct (stdin w) as [|answer rest]; [discriminate|].
    destruct (str_eqb (strip answer) (utf8 "是")).
    + unfold bind, exit, raise.
      destruct (update gbk ZipFile v _) as [[[]|e] w1]; discriminate.
    + destruct (str_eqb (strip answer) (utf8 "否")).
      * unfold ret. intros [= <-]. repeat split.
      * unfold bind, print. intros H. apply IH in H.
        destruct H as (H1 & H2 & H3). unfold same_files.
        rewrite H1, H2, H3. repeat split.
Qed.

Lemma check_update_Ok w w' :
  check_update gbk ZipFile green red w = (Ok tt, w') -> same_files w w'.
Proof.
  unfold check_update, bind, get_latest_released_version, lift.
  destruct (releases_latest w) as [rel|e]; cbn [rbind]; [|discriminate].
  destruct (parse_version_number (tag_name rel)) as [remote|e]; [|discriminate].
  destruct (parse_version_number __version__) as [local|e]; [|discriminate].
  destruct (tuple_gt _ _); [apply ask_update_Ok | unfold ret; intros [= <-]; repeat split].
Qed.

Lemma ask_overwrite_same lines : forall w,
  same_files w (snd (ask_overwrite green red output lines w)).
Proof.
  induction lines as [|line lines IH]; intros w; cbn [ask_overwrite];
    unfold bind, input, print, ret, exit, raise.
  - destruct (stdin w); repeat split.
  - destruct (stdin w) as [|answer rest]; [repeat split|].
    destruct (str_eqb (strip answer) (utf8 "是")); [repeat split|].
    destruct (str_eqb (strip answer) (utf8 "否")); [repeat split|].
    match goal with |- context [ask_overwrite _ _ _ _ ?w1] =>
      destruct (IH w1) as (H1 & H2 & H3) end.
    unfold same_files. rewrite H1, H2, H3. repeat split.
Qed.

Lemma check_args_same w :
  same_files w (snd (check_args green red filename output yes_to_all w)).
Proof.
  rewrite check_args_eq.
  destruct (os_stat_world filename w) as [f1 ->].
  destruct (os_stat_world output w) as [f2 ->]. cbn [fst].
  destruct f1 as [n1|]; [|repeat split].
  destruct f2 as [[c|]|]; [|repeat split|repeat split].
  destruct yes_to_all; [repeat split | apply ask_overwrite_same].
Qed.

Lemma destination_same w w' name :
  same_files w w' -> destination w' name = destination w name.
Proof. intros (_ & H2 & H3). unfold destination. now rewrite H2, H3. Qed.

Lemma same_files_trans w1 w2 w3 :
  same_files w1 w2 -> same_files w2 w3 -> same_files w1 w3.
Proof. unfold same_files. intros (? & ? & ?) (? & ? & ?). repeat split; congruence. Qed.

Lemma same_files_said messages w : same_files w (said messages w).
Proof. repeat split. Qed.

(** ** The export in the run *)

Lemma write_to_xlsx_frame infos name w q :
  q <> destination w name ->
  fs (snd (write_to_xlsx infos name w)) !! q = fs w !! q.
Proof.
  intros Hq. rewrite write_to_xlsx_outcome.
  destruct (export_rows 0 infos) as [rows|e]; [|reflexivity].
  destruct (create_file_cases (destination w name)
              (Spreadsheet (header_sheet ++ concat rows)) (announced w))
    as [-> | [msg ->]]; [|reflexivity].
  cbn [snd fs set_fs announced set_stdout]. now apply lookup_insert_ne.
Qed.

Lemma write_to_xlsx_same infos name w :
  cwd (snd (write_to_xlsx infos name w)) = cwd w
  /\ os (snd (write_to_xlsx infos name w)) = os w.
Proof.
  rewrite write_to_xlsx_outcome.
  destruct (export_rows 0 infos) as [rows|e]; [|split; reflexivity].
  destruct (create_file_cases (destination w name)
              (Spreadsheet (header_sheet ++ concat rows)) (announced w))
    as [-> | [msg ->]]; split; reflexivity.
Qed.

Lemma after_checks_frame w2 q :
  q <> destination w2 output ->
  fs (snd (after_checks w2)) !! q = fs w2 !! q.
Proof.
  intros Hq. unfold after_checks.
  destruct (fst (Path_read_text workbook_bytes filename w2)) as [text|e]; [|reflexivity].
  destruct (list_comprehension _ _) as [infos|e]; [|reflexivity].
  pose proof (write_to_xlsx_frame infos output
                (said [reading_codes; cleaning_codes; fetching; writing] w2) q Hq) as H.
  destruct (write_to_xlsx infos output _) as [[[]|e] w3]; cbn [snd] in *; [|exact H].
  destruct (stdin w3); exact H.
Qed.

End Run.
(** ** The checks in the sample world *)

Lemma check_update_not_newer gbk ZipFile green red w rel remote :
  releases_latest w = Ok rel ->
  parse_version_number (tag_name rel) = Ok remote ->
  tuple_gt (tuple3 remote) (tuple3 (0, 2, 0)%Z) = false ->
  check_update gbk ZipFile green red w = (Ok tt, w).
Proof.
  intros Hrel Hparse Hgt.
  now rewrite (check_update_cases _ _ _ _ _ _ _ Hrel Hparse), Hgt.
Qed.

Lemma check_args_passes green red in_filename out_filename yes_to_all w found :
  fst (os_stat in_filename w) = Ok (Some found) ->
  fst (os_stat out_filename w) = Ok None ->
  check_args green red in_filename out_filename yes_to_all w = (Ok tt, w).
Proof. intros Hin Hout. now rewrite check_args_eq, Hin, Hout. Qed.

Lemma sample_check_update :
  check_update (rows_only gbk_rows_of_name) sample_ZipFile id id sample_world_main
  = (Ok tt, sample_world_main).
Proof.
  apply (check_update_not_newer _ _ _ _ _
           {| tag_name := utf8 "v0.2.0"; assets := [] |} (0, 2, 0)%Z).
  - reflexivity.
  - vm_compute. reflexivity.
  - reflexivity.
Qed.

Lemma sample_check_args :
  check_args id id (utf8 "codes.txt") (utf8 "基金信息.xlsx") false sample_world_main
  = (Ok tt, sample_world_main).
Proof.
  apply (check_args_passes _ _ _ _ _ _ (File (Raw codes_file)));
    vm_compute; reflexivity.
Qed.

Lemma sample_check_args_folder :
  check_args id id (utf8 ".") (utf8 "基金信息.xlsx") false sample_world_main
  = (Ok tt, sample_world_main).
Proof. apply (check_args_passes _ _ _ _ _ _ Dir); vm_compute; reflexivity. Qed.

End MainFacts.

Import MainFacts.

(** ** [main] *)



(** X17.  One failing fetch stops the run before the export: the error
    of the first code whose fetch fails is the error of [main], no
    workbook is written and no file is changed. *)
Theorem main_fetch_failure (gbk_row : N -> option (Byte.byte * Byte.byte))
    (ZipFile : content -> result archive) (green red : str -> str)
    (get_fund_info : str -> result (gmap str str))
    (workbook_bytes : Worksheet -> bytes)
    (filename output : str) (yes_to_all : bool) (w w1 w2 : world)
    (data : bytes) (before : list str) (code : str) (after : list str) (e : exn) :
  check_update gbk_row ZipFile green red w = (Ok tt, w1) ->
  check_args green red filename output yes_to_all w1 = (Ok tt, w2) ->
  fs w2 !! joinpath (os w2) (Disk, cwd w2) filename = Some (File (Raw data)) ->
  codes_read data = Ok (before ++ code :: after) ->
  Forall (fun c => exists info, get_fund_info c = Ok info) before ->
  get_fund_info code = Raise e ->
  main gbk_row ZipFile green red get_fund_info workbook_bytes
    filename output yes_to_all w
  = (Raise e, said [reading_codes; cleaning_codes; fetching] w2).
Proof.
  intros Hupd Hargs Hfile Hcodes Hbefore Hcode.
  rewrite main_eq, Hupd, Hargs. unfold after_checks.
  rewrite Path_read_text_eq, Hfile. cbn [fst file_bytes].
  unfold codes_read in Hcodes.
  destruct (decode_utf8 data) as [text|e']; [|discriminate].
  cbn [rbind] in *. injection Hcodes as Hcodes. rewrite Hcodes.
  rewrite (list_comprehension_first_failure get_fund_info before code after e)
    by assumption.
  reflexivity.
Qed.

(** X17, witness: a fetcher without network fails on the first code of
    the file. *)
Lemma main_fetch_failure_witness :
  main (rows_only gbk_rows_of_name) sample_ZipFile id id
    (fun _ => Raise ConnectionError) (fun _ => [])
    (utf8 "codes.txt") (utf8 "基金信息.xlsx") false sample_world_main
  = (Raise ConnectionError,
     said [reading_codes; cleaning_codes; fetching] sample_world_main).
Proof.
  apply (main_fetch_failure (rows_only gbk_rows_of_name) sample_ZipFile id id
           (fun _ => Raise ConnectionError) (fun _ => [])
           (utf8 "codes.txt") (utf8 "基金信息.xlsx") false
           sample_world_main sample_world_main sample_world_main
           codes_file [] (utf8 "000001") [utf8 "999999"] ConnectionError).
  - exact sample_check_update.
  - exact sample_check_args.
  - vm_compute. reflexivity.
  - vm_compute. reflexivity.
  - constructor.
  - reflexivity.
Defined.

(** X18.  An input that cannot be read as text stops the run after the
    first message, with the error of the reading; a folder given as
    input is such a case, the check of the arguments asking only that
    the input exists. *)
Theorem main_unreadable_input (gbk_row : N -> option (Byte.byte * Byte.byte))
    (ZipFile : content -> result archive) (green red : str -> str)
    (get_fund_info : str -> result (gmap str str))
    (workbook_bytes : Worksheet -> bytes)
    (filename output : str) (yes_to_all : bool) (w w1 w2 : world) (e : exn) :
  check_update gbk_row ZipFile green red w = (Ok tt, w1) ->
  check_args green red filename output yes_to_all w1 = (Ok tt, w2) ->
  fst (Path_read_text workbook_bytes filename w2) = Raise e ->
  main gbk_row ZipFile green red get_fund_info workbook_bytes
    filename output yes_to_all w
  = (Raise e, said [reading_codes] w2)
  /\ (fs w2 !! joinpath (os w2) (Disk, cwd w2) filename = Some Dir ->
      e = OSError "Is a directory").
Proof.
  intros Hupd Hargs Hread. split.
  - rewrite main_eq, Hupd, Hargs. unfold after_checks. now rewrite Hread.
  - intros Hdir. rewrite Path_read_text_eq, Hdir in Hread. cbn [fst] in Hread.
    congruence.
Qed.

(** X18, witness: the working directory given as input. *)
Lemma main_unreadable_input_witness :
  main (rows_only gbk_rows_of_name) sample_ZipFile id id sample_fetcher
    (fun _ => []) (utf8 ".") (utf8 "基金信息.xlsx") false sample_world_main
  = (Raise (OSError "Is a directory"), said [reading_codes] sample_world_main).
Proof.
  refine (proj1 (main_unreadable_input (rows_only gbk_rows_of_name) sample_ZipFile id id
                   sample_fetcher (fun _ => []) (utf8 ".") (utf8 "基金信息.xlsx") false
                   sample_world_main sample_world_main sample_world_main
                   (OSError "Is a directory") _ _ _)).
  - exact sample_check_update.
  - exact sample_check_args_folder.
  - vm_compute. reflexivity.
Defined.

(** X19.  Unless an update is made, a run of [main] changes no file but
    the output, however it ends. *)
Theorem main_touches_output_only (gbk_row : N -> option (Byte.byte * Byte.byte))
    (ZipFile : content -> result archive) (green red : str -> str)
    (get_fund_info : str -> result (gmap str str))
    (workbook_bytes : Worksheet -> bytes)
    (filename output : str) (yes_to_all : bool) (w w1 : world) (q : path) :
  check_update gbk_row ZipFile green red w = (Ok tt, w1) ->
  q <> destination w output ->
  fs (snd (main gbk_row ZipFile green red get_fund_info workbook_bytes
             filename output yes_to_all w)) !! q
  = fs w !! q.
Proof.
  intros Hupd Hq. rewrite main_eq, Hupd.
  pose proof (check_update_Ok _ _ _ _ _ _ Hupd) as Hsame1.
  pose proof (check_args_same green red filename output yes_to_all w1) as Hsame2.
  destruct (check_args green red filename output yes_to_all w1) as [[[]|e] w2];
    cbn [snd] in *.
  - rewrite after_checks_frame.
    + destruct Hsame1 as [H1 _], Hsame2 as [H2 _]. now rewrite H2, H1.
    + rewrite (destination_same w w2); [exact Hq|].
      eapply same_files_trans; eauto.
  - destruct Hsame1 as [H1 _], Hsame2 as [H2 _]. now rewrite H2, H1.
Qed.

(** X19, witness: the file of codes is as it was after the run. *)
Lemma main_touches_output_only_witness :
  fs (snd (main (rows_only gbk_rows_of_name) sample_ZipFile id id sample_fetcher
             (fun _ => []) (utf8 "codes.txt") (utf8 "基金信息.xlsx") false
             sample_world_main))
    !! (Disk, [utf8 "home"; utf8 "codes.txt"])
  = Some (File (Raw codes_file)).
Proof.
  rewrite (main_touches_output_only (rows_only gbk_rows_of_name) sample_ZipFile id id
             sample_fetcher (fun _ => []) (utf8 "codes.txt") (utf8 "基金信息.xlsx") false
             sample_world_main sample_world_main).
  - vm_compute. reflexivity.
  - exact sample_check_update.
  - intros H. vm_compute in H. discriminate.
Defined.

(** X20.  The fetcher is asked about lines of six decimal digits alone:
    two fetchers that agree on these give the same run. *)
Theorem main_fetches_codes_only (gbk_row : N -> option (Byte.byte * Byte.byte))
    (ZipFile : content -> result archive) (green red : str -> str)
    (get_fund_info get_fund_info' : str -> result (gmap str str))
    (workbook_bytes : Worksheet -> bytes)
    (filename output : str) (yes_to_all : bool) (w : world) :
  (forall code, six_digits code -> get_fund_info code = get_fund_info' code) ->
  main gbk_row ZipFile green red get_fund_info workbook_bytes
    filename output yes_to_all w
  = main gbk_row ZipFile green red get_fund_info' workbook_bytes
      filename output yes_to_all w.
Proof.
  intros Hagree. rewrite !main_eq.
  destruct (check_update gbk_row ZipFile green red w) as [[[]|e] w1]; [|reflexivity].
  destruct (check_args green red filename output yes_to_all w1) as [[[]|e] w2];
    [|reflexivity].
  unfold after_checks.
  destruct (fst (Path_read_text workbook_bytes filename w2)) as [text|e]; [|reflexivity].
  rewrite (list_comprehension_ext get_fund_info get_fund_info'); [reflexivity|].
  rewrite clean_codes_filter. apply List.Forall_forall. intros code Hin.
  apply filter_In in Hin as [_ Hsix]. apply Hagree. now apply six_digitsb_spec.
Qed.

(** X20, witness: a fetcher that fails on what is no code, and one that
    does not, on a file with such a line. *)
Lemma main_fetches_codes_only_witness :
  main (rows_only gbk_rows_of_name) sample_ZipFile id id sample_fetcher
    (fun _ => []) (utf8 "codes.txt") (utf8 "基金信息.xlsx") false sample_world_main
  = main (rows_only gbk_rows_of_name) sample_ZipFile id id strict_fetcher
      (fun _ => []) (utf8 "codes.txt") (utf8 "基金信息.xlsx") false sample_world_main.
Proof.
  apply (main_fetches_codes_only (rows_only gbk_rows_of_name) sample_ZipFile id id
           sample_fetcher strict_fetcher).
  intros code Hcode. unfold sample_fetcher, strict_fetcher.
  apply six_digitsb_spec in Hcode. now rewrite Hcode.
Defined.

(** X21.  Nothing is done without the latest release: when the request
    for it fails, or its tag is no version, [main] ends with that error
    before any message, prompt or access to a file. *)
Theorem main_needs_release (gbk_row : N -> option (Byte.byte * Byte.byte))
    (ZipFile : content -> result archive) (green red : str -> str)
    (get_fund_info : str -> result (gmap str str))
    (workbook_bytes : Worksheet -> bytes)
    (filename output : str) (yes_to_all : bool) (w : world) (e : exn) :
  (releases_latest w = Raise e
   \/ exists rel, releases_latest w = Ok rel
                  /\ parse_version_number (tag_name rel) = Raise e) ->
  main gbk_row ZipFile green red get_fund_info workbook_bytes
    filename output yes_to_all w
  = (Raise e, w).
Proof.
  intros H. rewrite main_eq.
  unfold check_update, bind, get_latest_released_version, lift.
  destruct H as [-> | (rel & -> & Hparse)]; cbn [rbind]; [reflexivity|].
  now rewrite Hparse.
Qed.

(** X21, witness: without network the run ends at once. *)
Lemma main_needs_release_witness :
  main (rows_only gbk_rows_of_name) sample_ZipFile id id sample_fetcher
    (fun _ => []) (utf8 "codes.txt") (utf8 "基金信息.xlsx") false offline_world
  = (Raise ConnectionError, offline_world).
Proof.
  apply (main_needs_release (rows_only gbk_rows_of_name) sample_ZipFile id id
           sample_fetcher (fun _ => []) (utf8 "codes.txt") (utf8 "基金信息.xlsx") false
           offline_world ConnectionError).
  left. reflexivity.
Defined.
